(** * Taskify: the task store, the tag registry and the derived task view

    A shallow embedding of
    - [src/features/tasks/types/Task.ts] (the data model),
    - [src/features/tasks/services/taskService.ts] (class [TaskService]),
    - [src/features/tasks/services/tagService.ts] (class [TagService]),
    - [src/features/tasks/hooks/useTasks.ts] (the filtered and sorted view),
    followed by the properties of section 8 of the specification.

    Conventions of the embedding.
    - A JavaScript string is a sequence of code units; the model keeps the
      code units below 256 (the Latin-1 block), one [ascii] per unit.
    - A [Date] is its time value, the milliseconds since the epoch, in [Z].
    - An [async] method is run to completion before the next one starts
      (no interleaving); a rejected promise is a thrown value.
    - What the program reads from its environment (the clock behind
      [new Date()], the id generator of [utils], whether AsyncStorage rejects
      a call, whether a listener throws) is a parameter of the development. *)

From Stdlib Require Import ZArith String Ascii List Permutation Sorted Lia.
From stdpp Require Import base list strings pretty sorting gmap.
Import ListNotations.
Local Open Scope string_scope.

(** ** JavaScript strings *)

Module JsString.

(** Code units that [String.prototype.trim] strips (ECMAScript WhiteSpace
    and LineTerminator), among the code units below 256: TAB, LF, VT, FF,
    CR, SP and NBSP. *)
Definition isWhiteSpace (c : ascii) : bool :=
  let n := nat_of_ascii c in
  ((9 <=? n)%nat && (n <=? 13)%nat) || (n =? 32)%nat || (n =? 160)%nat.

Fixpoint trimStart (s : string) : string :=
  match s with
  | EmptyString => EmptyString
  | String c r => if isWhiteSpace c then trimStart r else s
  end.

Fixpoint trimEnd (s : string) : string :=
  match s with
  | EmptyString => EmptyString
  | String c r =>
      match trimEnd r with
      | EmptyString => if isWhiteSpace c then EmptyString else String c EmptyString
      | r' => String c r'
      end
  end.

Definition trim (s : string) : string := trimEnd (trimStart s).

(** [toLowerCase] on one code unit below 256: A-Z and the Latin-1 capitals
    (U+00C0 to U+00DE but the multiplication sign U+00D7) move up by 32. *)
Definition lowerUnit (c : ascii) : ascii :=
  let n := nat_of_ascii c in
  if ((65 <=? n)%nat && (n <=? 90)%nat)
     || ((192 <=? n)%nat && (n <=? 222)%nat && negb (n =? 215)%nat)
  then ascii_of_nat (n + 32) else c.

Fixpoint toLowerCase (s : string) : string :=
  match s with
  | EmptyString => EmptyString
  | String c r => String (lowerUnit c) (toLowerCase r)
  end.

Fixpoint startsWith (s q : string) : bool :=
  match q, s with
  | EmptyString, _ => true
  | String _ _, EmptyString => false
  | String b q', String a s' => Ascii.eqb a b && startsWith s' q'
  end.

(** [s.includes(q)]: [q] occurs in [s] as a contiguous run of code units. *)
Fixpoint includes (s q : string) : bool :=
  startsWith s q ||
  match s with
  | EmptyString => false
  | String _ s' => includes s' q
  end.

(** Truthiness of a string: every string but the empty one. *)
Definition truthy (s : string) : bool :=
  match s with EmptyString => false | _ => true end.

Fixpoint allWhiteSpace (s : string) : bool :=
  match s with
  | EmptyString => true
  | String c r => isWhiteSpace c && allWhiteSpace r
  end.

Definition startsWithWhiteSpace (s : string) : bool :=
  match s with
  | EmptyString => false
  | String c _ => isWhiteSpace c
  end.

Fixpoint endsWithWhiteSpace (s : string) : bool :=
  match s with
  | EmptyString => false
  | String c EmptyString => isWhiteSpace c
  | String _ r => endsWithWhiteSpace r
  end.

End JsString.

(** ** Data model ([types/Task.ts]) *)

Definition Date := Z.

Record Tag := mkTag {
  tag_id : string;
  tag_name : string;
  tag_color : string
}.

Record Task := mkTask {
  id : string;
  title : string;
  description : option string;
  completed : bool;
  dueDate : option Date;
  tags : list Tag;
  createdAt : Date;
  updatedAt : Date
}.

Inductive TaskStatus := StatusAll | StatusActive | StatusCompleted | StatusOverdue.

Record TaskFilter := mkFilter {
  status : TaskStatus;
  searchQuery : option string;
  tagIds : option (list string)
}.

Record CreateTaskInput := mkInput {
  in_title : string;
  in_description : option string;
  in_dueDate : option Date;
  in_tags : option (list Tag)
}.

(** The [updates] object of [updateTask]. A field is [None] when the object
    does not mention it. The declared type is
    [Partial<Omit<Task, 'id' | 'createdAt'>>], but the object spread copies
    whatever own properties the object has, and [useTasks.updateTask] passes
    a [Partial<Task>]; so [id] and [createdAt] can be mentioned too. A
    mentioned field carries a value of the field's type; for the optional
    fields of [Task] that includes [undefined] ([Some None]), which
    [EditTaskBottomSheet] passes for a cleared due date. *)
Record TaskUpdates := mkUpdates {
  u_id : option string;
  u_title : option string;
  u_description : option (option string);
  u_completed : option bool;
  u_dueDate : option (option Date);
  u_tags : option (list Tag);
  u_createdAt : option Date;
  u_updatedAt : option Date
}.

Definition noUpdates : TaskUpdates :=
  mkUpdates None None None None None None None None.

(** One element of the JSON array kept under the tasks key. The dates are ISO
    strings in the document; an ISO string and the instant it denotes
    determine each other, so the model keeps the instant. [tags] may be
    missing in a document, [getAllTasks] then supplies the empty array. *)
Record StoredTask := mkStored {
  s_id : string;
  s_title : string;
  s_description : option string;
  s_completed : bool;
  s_dueDate : option Date;
  s_tags : option (list Tag);
  s_createdAt : Date;
  s_updatedAt : Date
}.

(** [JSON.stringify] on one task. *)
Definition stringifyTask (t : Task) : StoredTask :=
  mkStored (id t) (title t) (description t) (completed t) (dueDate t)
           (Some (tags t)) (createdAt t) (updatedAt t).

(** The callback of [tasks.map] in [getAllTasks]. *)
Definition reviveTask (s : StoredTask) : Task :=
  mkTask (s_id s) (s_title s) (s_description s) (s_completed s) (s_dueDate s)
         (match s_tags s with Some ts => ts | None => [] end)
         (s_createdAt s) (s_updatedAt s).

(** ** The environment and the state of the program *)

(** A change listener is a function object; the model keeps its identity. *)
Definition Listener := nat.

(** What the environment answers: the time value of the k-th [new Date()],
    the result of the k-th [generateId()], whether the k-th AsyncStorage call
    rejects, and whether a given listener throws when it is called. *)
Record Env := mkEnv {
  clock : nat -> Date;
  idSource : nat -> string;
  rejects : nat -> bool;
  listenerThrows : Listener -> bool
}.

Inductive StorageKey := TASKS_STORAGE_KEY | TAGS_STORAGE_KEY.

Inductive StorageCall :=
| GetItem (k : StorageKey)
| SetItem (k : StorageKey)
| RemoveItem (k : StorageKey).

Definition isWrite (c : StorageCall) : bool :=
  match c with GetItem _ => false | _ => true end.

Record World := mkWorld {
  tasksItem : option (list StoredTask);  (* AsyncStorage, '@simpletask_tasks' *)
  tagsItem : option (list Tag);          (* AsyncStorage, '@simpletask_tags' *)
  listeners : gset Listener;             (* TaskService.listeners, a Set of functions *)
  invoked : list Listener;               (* every listener call made so far, oldest first *)
  console : list string;                 (* console.error messages, oldest first *)
  storageLog : list StorageCall;         (* every AsyncStorage call made so far, oldest first *)
  dateCount : nat;                       (* number of [new Date()] evaluated so far *)
  idCount : nat                          (* number of [generateId()] calls so far *)
}.

Definition emptyWorld : World := mkWorld None None ∅ [] [] [] 0 0.

Definition set_tasksItem (v : option (list StoredTask)) (w : World) : World :=
  mkWorld v (tagsItem w) (listeners w) (invoked w) (console w) (storageLog w)
          (dateCount w) (idCount w).
Definition set_tagsItem (v : option (list Tag)) (w : World) : World :=
  mkWorld (tasksItem w) v (listeners w) (invoked w) (console w) (storageLog w)
          (dateCount w) (idCount w).
Definition set_listeners (v : gset Listener) (w : World) : World :=
  mkWorld (tasksItem w) (tagsItem w) v (invoked w) (console w) (storageLog w)
          (dateCount w) (idCount w).
Definition set_invoked (v : list Listener) (w : World) : World :=
  mkWorld (tasksItem w) (tagsItem w) (listeners w) v (console w) (storageLog w)
          (dateCount w) (idCount w).
Definition set_console (v : list string) (w : World) : World :=
  mkWorld (tasksItem w) (tagsItem w) (listeners w) (invoked w) v (storageLog w)
          (dateCount w) (idCount w).
Definition set_storageLog (v : list StorageCall) (w : World) : World :=
  mkWorld (tasksItem w) (tagsItem w) (listeners w) (invoked w) (console w) v
          (dateCount w) (idCount w).
Definition set_dateCount (v : nat) (w : World) : World :=
  mkWorld (tasksItem w) (tagsItem w) (listeners w) (invoked w) (console w)
          (storageLog w) v (idCount w).
Definition set_idCount (v : nat) (w : World) : World :=
  mkWorld (tasksItem w) (tagsItem w) (listeners w) (invoked w) (console w)
          (storageLog w) (dateCount w) v.

(** ** Computations: state passing with JavaScript exceptions

    A method either returns a value or throws; the state it leaves behind is
    kept in both cases. *)

Inductive Outcome (A : Type) :=
| Returned (a : A)
| Thrown (e : string).
Arguments Returned {A} a.
Arguments Thrown {A} e.

Definition M (A : Type) : Type := World -> Outcome A * World.

Definition ret {A} (a : A) : M A := fun w => (Returned a, w).

Definition bind {A B} (c : M A) (k : A -> M B) : M B :=
  fun w => match c w with
           | (Returned a, w') => k a w'
           | (Thrown e, w') => (Thrown e, w')
           end.

Definition throw {A} (e : string) : M A := fun w => (Thrown e, w).

(** [try { c } catch (e) { h e }] *)
Definition tryCatch {A} (c : M A) (h : string -> M A) : M A :=
  fun w => match c w with
           | (Returned a, w') => (Returned a, w')
           | (Thrown e, w') => h e w'
           end.

(** The notations [x ← c; k] and [c ;; k] of stdpp sequence two computations. *)
#[export] Instance M_ret : MRet M := @ret.
#[export] Instance M_bind : MBind M := fun A B k c => bind c k.

Definition consoleError (msg : string) : M unit :=
  fun w => (Returned tt, set_console (console w ++ [msg]) w).

Section Program.

Variable E : Env.

(** *** The environment's services *)

(** [new Date()] *)
Definition newDate : M Date :=
  fun w => (Returned (clock E (dateCount w)), set_dateCount (S (dateCount w)) w).

(** [generateId()] of [utils] (the function itself is not part of the
    sources at hand: the environment supplies its results). *)
Definition generateId : M string :=
  fun w => (Returned (idSource E (idCount w)), set_idCount (S (idCount w)) w).

(** An AsyncStorage call is logged; the environment decides whether it
    rejects, and a rejected call leaves the stored items as they were. *)
Definition storageCall {A} (c : StorageCall) (run : World -> A * World) : M A :=
  fun w =>
    let w1 := set_storageLog (storageLog w ++ [c]) w in
    if rejects E (length (storageLog w))
    then (Thrown "AsyncStorage error", w1)
    else let '(a, w2) := run w1 in (Returned a, w2).

Definition getTasksItem : M (option (list StoredTask)) :=
  storageCall (GetItem TASKS_STORAGE_KEY) (fun w => (tasksItem w, w)).
Definition setTasksItem (doc : list StoredTask) : M unit :=
  storageCall (SetItem TASKS_STORAGE_KEY) (fun w => (tt, set_tasksItem (Some doc) w)).
Definition removeTasksItem : M unit :=
  storageCall (RemoveItem TASKS_STORAGE_KEY) (fun w => (tt, set_tasksItem None w)).
Definition getTagsItem : M (option (list Tag)) :=
  storageCall (GetItem TAGS_STORAGE_KEY) (fun w => (tagsItem w, w)).
Definition setTagsItem (doc : list Tag) : M unit :=
  storageCall (SetItem TAGS_STORAGE_KEY) (fun w => (tt, set_tagsItem (Some doc) w)).

(** *** [TaskService] *)

(** [subscribe] adds the listener to the Set; the function it returns is
    [unsubscribe], which deletes it. *)
Definition subscribe (l : Listener) : M unit :=
  fun w => (Returned tt, set_listeners ({[ l ]} ∪ listeners w) w).

Definition unsubscribe (l : Listener) : M unit :=
  fun w => (Returned tt, set_listeners (listeners w ∖ {[ l ]}) w).

(** The call [l()]. A listener is opaque: its call is recorded and it may
    throw. What a listener starts runs after the current call chain (the
    listener of [useTasks] starts a reload, which only reads), so it does not
    change the store within the call that notifies it. *)
Definition callListener (l : Listener) : M unit :=
  fun w => let w1 := set_invoked (invoked w ++ [l]) w in
           if listenerThrows E l then (Thrown "listener error", w1)
           else (Returned tt, w1).

Fixpoint forEach {A} (body : A -> M unit) (xs : list A) : M unit :=
  match xs with
  | [] => ret tt
  | x :: xs' => body x ;; forEach body xs'
  end.

(** [Array.from(this.listeners)] is taken before the first call: every
    member of the Set at that moment is called once. (A JavaScript Set
    iterates in insertion order; the model keeps the members and not their
    order.) *)
Definition emitChange : M unit :=
  fun w =>
    forEach (fun l => tryCatch (callListener l)
                        (fun err => consoleError "TaskService listener error"))
            (elements (listeners w)) w.

Definition getAllTasks : M (list Task) :=
  tryCatch
    (tasksJson ← getTasksItem;
     match tasksJson with
     | None => ret []
     | Some tasks => ret (List.map reviveTask tasks)
     end)
    (fun error => consoleError "Error retrieving tasks:" ;; ret []).

Definition saveTasks (tasks : list Task) : M unit :=
  tryCatch
    (setTasksItem (List.map stringifyTask tasks) ;;
     emitChange)
    (fun error => consoleError "Error saving tasks:" ;; throw error).

Definition createTask (input : CreateTaskInput) : M Task :=
  newId ← generateId;
  created ← newDate;
  updated ← newDate;
  let newTask :=
    {| id := newId;
       title := JsString.trim (in_title input);
       description := option_map JsString.trim (in_description input);
       completed := false;
       dueDate := in_dueDate input;
       tags := match in_tags input with Some ts => ts | None => [] end;
       createdAt := created;
       updatedAt := updated |} in
  tasks ← getAllTasks;
  saveTasks (tasks ++ [newTask]) ;;
  ret newTask.

(** [tasks.findIndex(task => task.id === taskId)]; [None] stands for -1. *)
Fixpoint findIndex {A} (p : A -> bool) (xs : list A) : option nat :=
  match xs with
  | [] => None
  | x :: xs' => if p x then Some 0 else option_map S (findIndex p xs')
  end.

Definition pick {A} (upd : option A) (old : A) : A :=
  match upd with Some v => v | None => old end.

(** [{ ...task, ...updates, updatedAt: now }] *)
Definition mergeTask (task : Task) (updates : TaskUpdates) (now : Date) : Task :=
  {| id := pick (u_id updates) (id task);
     title := pick (u_title updates) (title task);
     description := pick (u_description updates) (description task);
     completed := pick (u_completed updates) (completed task);
     dueDate := pick (u_dueDate updates) (dueDate task);
     tags := pick (u_tags updates) (tags task);
     createdAt := pick (u_createdAt updates) (createdAt task);
     updatedAt := now |}.

Definition hasId (taskId : string) (task : Task) : bool :=
  String.eqb (id task) taskId.

Definition updateTask (taskId : string) (updates : TaskUpdates) : M (option Task) :=
  tasks ← getAllTasks;
  match findIndex (hasId taskId) tasks with
  | None => ret None
  | Some taskIndex =>
      match tasks !! taskIndex with
      | None => ret None   (* not reached: [findIndex] answers a position of [tasks] *)
      | Some task =>
          now ← newDate;
          let updatedTask := mergeTask task updates now in
          saveTasks (<[taskIndex := updatedTask]> tasks) ;;
          ret (Some updatedTask)
      end
  end.

Definition toggleTaskCompletion (taskId : string) : M (option Task) :=
  tasks ← getAllTasks;
  match List.find (hasId taskId) tasks with
  | None => ret None
  | Some task =>
      updateTask taskId
        (mkUpdates None None None (Some (negb (completed task))) None None None None)
  end.

Definition deleteTask (taskId : string) : M bool :=
  tasks ← getAllTasks;
  let filteredTasks := List.filter (fun task => negb (hasId taskId task)) tasks in
  if Nat.eqb (length filteredTasks) (length tasks)
  then ret false
  else saveTasks filteredTasks ;; ret true.

Definition clearAllTasks : M unit :=
  tryCatch
    (removeTasksItem ;;
     emitChange)
    (fun error => consoleError "Error clearing tasks:" ;; throw error).

(** The second clearing method of the class; it differs from
    [clearAllTasks] in the error it throws. *)
Definition clearAll : M unit :=
  tryCatch
    (removeTasksItem ;;
     emitChange)
    (fun error => consoleError "Error clearing tasks:" ;; throw "Failed to clear tasks").

Definition validateTaskInput (input : CreateTaskInput) : list string :=
  let errors : list string := [] in
  let errors :=
    if negb (JsString.truthy (in_title input))
       || Nat.eqb (String.length (JsString.trim (in_title input))) 0
    then (errors ++ ["Task title is required"])%list else errors in
  let errors :=
    if JsString.truthy (in_title input)
       && Nat.ltb 100 (String.length (JsString.trim (in_title input)))
    then (errors ++ ["Task title must be 100 characters or less"])%list else errors in
  let errors :=
    match in_description input with
    | Some d =>
        if JsString.truthy d && Nat.ltb 500 (String.length (JsString.trim d))
        then (errors ++ ["Task description must be 500 characters or less"])%list
        else errors
    | None => errors
    end in
  errors.

(** *** [TagService] *)

Definition TAG_COLORS : list string :=
  [ "#FF6B6B"; "#4ECDC4"; "#45B7D1"; "#96CEB4"; "#FECA57"; "#FF9FF3";
    "#54A0FF"; "#5F27CD"; "#00D2D3"; "#FF9F43"; "#8395A7"; "#3D5A80" ].

Definition getAllTags : M (list Tag) :=
  tryCatch
    (tagsJson ← getTagsItem;
     match tagsJson with
     | None => ret []
     | Some tgs => ret tgs
     end)
    (fun error => consoleError "Error retrieving tags:" ;; ret []).

Definition saveTags (tgs : list Tag) : M unit :=
  tryCatch
    (setTagsItem tgs)
    (fun error => consoleError "Error saving tags:" ;; throw error).

Definition getNextColor (existingTags : list Tag) : string :=
  let usedColors : gset string := list_to_set (List.map tag_color existingTags) in
  let availableColors :=
    List.filter (fun color => negb (bool_decide (color ∈ usedColors))) TAG_COLORS in
  match availableColors with
  | color :: _ => color
  | [] => nth (length existingTags mod length TAG_COLORS) TAG_COLORS ""
  end.

Definition createOrGetTag (name : string) : M Tag :=
  let normalizedName := JsString.toLowerCase (JsString.trim name) in
  existingTags ← getAllTags;
  let existingTag :=
    List.find (fun tag => String.eqb (JsString.toLowerCase (tag_name tag)) normalizedName)
              existingTags in
  match existingTag with
  | Some tag => ret tag
  | None =>
      newId ← generateId;
      let newTag :=
        {| tag_id := newId;
           tag_name := JsString.trim name;
           tag_color := getNextColor existingTags |} in
      let updatedTags := (existingTags ++ [newTag])%list in
      saveTags updatedTags ;;
      ret newTag
  end.

(** Running a computation: its outcome and the state it leaves. *)
Definition outcome {A} (c : M A) (w : World) : Outcome A := fst (c w).
Definition after {A} (c : M A) (w : World) : World := snd (c w).

End Program.

(** ** The derived view ([hooks/useTasks.ts]) *)

Module View.

(** The callback of [tasks.filter] that computes [filteredTasks]. *)
Definition keepTask (filter : TaskFilter) (task : Task) : bool :=
  (* the [switch]: [true] when one of its cases returns false *)
  let dropped :=
    match status filter with
    | StatusActive => completed task
    | StatusCompleted => negb (completed task)
    | StatusAll | StatusOverdue => false
    end in
  if dropped then false
  else
    match searchQuery filter with
    | Some q =>
        if JsString.truthy (JsString.trim q) then
          let query := JsString.toLowerCase q in
          let titleMatch := JsString.includes (JsString.toLowerCase (title task)) query in
          let descriptionMatch :=
            match description task with
            | Some d => JsString.includes (JsString.toLowerCase d) query
            | None => false
            end in
          if negb titleMatch && negb descriptionMatch then false else true
        else true
    | None => true
    end.

Definition filteredTasks (tasks : list Task) (filter : TaskFilter) : list Task :=
  List.filter (keepTask filter) tasks.

(** The comparison function handed to [sort]. *)
Definition compareTasks (a b : Task) : Z :=
  if negb (Bool.eqb (completed a) (completed b))
  then (if completed a then 1 else -1)%Z
  else (createdAt b - createdAt a)%Z.

(** [Array.prototype.sort] with a comparison function: ECMAScript requires
    the sort to be stable, and for a consistent comparison function the
    sorted array is then determined. The model is the stable insertion
    sort: an element goes behind the elements that compare strictly
    smaller, and stays in front of those it ties with that came after it. *)
Fixpoint insertBy {A} (cmp : A -> A -> Z) (x : A) (sorted : list A) : list A :=
  match sorted with
  | [] => [x]
  | y :: rest => if (cmp x y <=? 0)%Z then x :: sorted else y :: insertBy cmp x rest
  end.

Fixpoint sortBy {A} (cmp : A -> A -> Z) (xs : list A) : list A :=
  match xs with
  | [] => []
  | x :: rest => insertBy cmp x (sortBy cmp rest)
  end.

Definition sortedFilteredTasks (tasks : list Task) (filter : TaskFilter) : list Task :=
  sortBy compareTasks (filteredTasks tasks filter).

Definition totalTasks (tasks : list Task) : nat := length tasks.
Definition completedTasks (tasks : list Task) : nat :=
  length (List.filter completed tasks).
Definition activeTasks (tasks : list Task) : nat :=
  totalTasks tasks - completedTasks tasks.

End View.

(** The task that [create] makes of an input, an id and two clock readings. *)
Definition newTaskOf (input : CreateTaskInput) (newId : string)
           (created updated : Date) : Task :=
  {| id := newId;
     title := JsString.trim (in_title input);
     description := option_map JsString.trim (in_description input);
     completed := false;
     dueDate := in_dueDate input;
     tags := match in_tags input with Some ts => ts | None => [] end;
     createdAt := created;
     updatedAt := updated |}.

(** ** Sequences of store operations and the abstract list model *)

Module Replay.

Inductive Op :=
| Create (input : CreateTaskInput)
| Update (taskId : string) (updates : TaskUpdates)
| Delete (taskId : string).

(** The program: one call of the store after the other. *)
Definition runOp (E : Env) (op : Op) : M unit :=
  match op with
  | Create input => createTask E input ;; ret tt
  | Update taskId updates => updateTask E taskId updates ;; ret tt
  | Delete taskId => deleteTask E taskId ;; ret tt
  end.

Definition runOps (E : Env) (ops : list Op) : M unit := forEach (runOp E) ops.

(** The abstract model, after the specification's words: a list of tasks,
    with the number of ids and of clock readings consumed so far.
    - create: "assigns a fresh id and both timestamps; appends to the
      current full collection";
    - update: "locates the task by id, ... merges provided fields over the
      existing record, refreshes updatedAt";
    - delete: "removes the matching task". *)
Record Model := mkModel {
  m_tasks : list Task;
  m_ids : nat;
  m_dates : nat
}.

(** The empty collection, [ids] ids and [dates] clock readings having been
    consumed before. *)
Definition emptyAt (ids dates : nat) : Model := mkModel [] ids dates.

Fixpoint located (taskId : string) (ts : list Task) : bool :=
  match ts with
  | [] => false
  | t :: rest => if String.eqb (id t) taskId then true else located taskId rest
  end.

Fixpoint mergeAt (taskId : string) (updates : TaskUpdates) (now : Date)
         (ts : list Task) : list Task :=
  match ts with
  | [] => []
  | t :: rest =>
      if String.eqb (id t) taskId
      then mergeTask t updates now :: rest
      else t :: mergeAt taskId updates now rest
  end.

Fixpoint removeId (taskId : string) (ts : list Task) : list Task :=
  match ts with
  | [] => []
  | t :: rest =>
      if String.eqb (id t) taskId then removeId taskId rest
      else t :: removeId taskId rest
  end.

Definition step (E : Env) (m : Model) (op : Op) : Model :=
  match op with
  | Create input =>
      let t := newTaskOf input (idSource E (m_ids m))
                         (clock E (m_dates m)) (clock E (S (m_dates m))) in
      mkModel (m_tasks m ++ [t]) (S (m_ids m)) (S (S (m_dates m)))
  | Update taskId updates =>
      if located taskId (m_tasks m)
      then mkModel (mergeAt taskId updates (clock E (m_dates m)) (m_tasks m))
                   (m_ids m) (S (m_dates m))
      else m
  | Delete taskId =>
      mkModel (removeId taskId (m_tasks m)) (m_ids m) (m_dates m)
  end.

Definition replay (E : Env) (ids dates : nat) (ops : list Op) : Model :=
  fold_left (step E) ops (emptyAt ids dates).

End Replay.

(** AsyncStorage never rejects a call. *)
Definition reliable (E : Env) : Prop := forall k, rejects E k = false.

(** The collection held under the tasks key, as [getAllTasks] reads it. *)
Definition collection (w : World) : list Task :=
  match tasksItem w with
  | None => []
  | Some doc => List.map reviveTask doc
  end.

(** The tag registry held under the tags key, as [getAllTags] reads it. *)
Definition registry (w : World) : list Tag :=
  match tagsItem w with
  | None => []
  | Some tgs => tgs
  end.

(** The AsyncStorage calls made between two states. *)
Definition callsSince (w w' : World) : list StorageCall :=
  drop (length (storageLog w)) (storageLog w').

(** The listener calls made between two states. *)
Definition invokedSince (w w' : World) : list Listener :=
  drop (length (invoked w)) (invoked w').

(** ** The derived view, after the specification's words *)

Module ViewSpec.

(** The specification names three status filters. *)
Inductive Status := All | Active | Completed.

Definition toTaskStatus (st : Status) : TaskStatus :=
  match st with
  | All => StatusAll
  | Active => StatusActive
  | Completed => StatusCompleted
  end.

(** (1) "keep tasks matching status" *)
Definition matchesStatus (st : Status) (t : Task) : bool :=
  match st with
  | All => true
  | Active => negb (completed t)
  | Completed => completed t
  end.

Definition containsIgnoringCase (text q : string) : bool :=
  JsString.includes (JsString.toLowerCase text) (JsString.toLowerCase q).

(** (2) "keep tasks whose title or description case-insensitively contains
    the search string if present" *)
Definition matchesSearch (search : option string) (t : Task) : bool :=
  match search with
  | None => true
  | Some q =>
      containsIgnoringCase (title t) q
      || match description t with
         | Some d => containsIgnoringCase d q
         | None => false
         end
  end.

(** "newest createdAt first", keeping the given order among equal dates. *)
Fixpoint placeNewest (t : Task) (ts : list Task) : list Task :=
  match ts with
  | [] => [t]
  | u :: rest =>
      if (createdAt u <=? createdAt t)%Z then t :: ts else u :: placeNewest t rest
  end.

Definition newestFirst (ts : list Task) : list Task := foldr placeNewest [] ts.

(** (3) "completed tasks ordered after incomplete ones, and within each
    completion group, newest createdAt first" *)
Definition arrange (ts : list Task) : list Task :=
  (newestFirst (List.filter (fun t => negb (completed t)) ts)
   ++ newestFirst (List.filter completed ts))%list.

Definition view (st : Status) (search : option string) (tasks : list Task) : list Task :=
  arrange (List.filter (matchesSearch search) (List.filter (matchesStatus st) tasks)).

(** [a] is at least as new as [b]. *)
Definition newer (a b : Task) : Prop := (createdAt b <= createdAt a)%Z.

(** The order of the view, as a relation: [a] may stand before [b]. *)
Definition mayPrecede (a b : Task) : Prop :=
  (completed a = false /\ completed b = true)
  \/ (completed a = completed b /\ (createdAt b <= createdAt a)%Z).

End ViewSpec.

(** What a round of [emitChange] leaves in the console: one message for each
    listener that threw. *)
Definition listenerErrors (E : Env) (ls : list Listener) : list string :=
  List.map (fun _ => "TaskService listener error") (List.filter (listenerThrows E) ls).

(** The state after [emitChange]. *)
Definition notified (E : Env) (w : World) : World :=
  set_console (console w ++ listenerErrors E (elements (listeners w)))
              (set_invoked (invoked w ++ elements (listeners w)) w).

(** The state after one more AsyncStorage call has been logged. *)
Definition logged (c : StorageCall) (w : World) : World :=
  set_storageLog (storageLog w ++ [c]) w.

(** The state after one more console message. *)
Definition complained (msg : string) (w : World) : World :=
  set_console (console w ++ [msg]) w.

(** ** Operations that answer "not found" with a sentinel *)

Inductive SoftOp :=
| SoftUpdate (taskId : string) (updates : TaskUpdates)
| SoftToggle (taskId : string)
| SoftDelete (taskId : string).

(** The operation returned its sentinel: [null] for [updateTask] and
    [toggleTaskCompletion], [false] for [deleteTask]. *)
Definition returnsSentinel (E : Env) (op : SoftOp) (w : World) : Prop :=
  match op with
  | SoftUpdate x u => outcome (updateTask E x u) w = Returned None
  | SoftToggle x => outcome (toggleTaskCompletion E x) w = Returned None
  | SoftDelete x => outcome (deleteTask E x) w = Returned false
  end.

Definition stateAfter (E : Env) (op : SoftOp) (w : World) : World :=
  match op with
  | SoftUpdate x u => after (updateTask E x u) w
  | SoftToggle x => after (toggleTaskCompletion E x) w
  | SoftDelete x => after (deleteTask E x) w
  end.

(** Between [w] and [w'] nothing was written to AsyncStorage and no listener
    was called: the stored items are the same, every storage call logged in
    between is a [getItem], and the log of listener calls has not grown. *)
Definition quiet (w w' : World) : Prop :=
  tasksItem w' = tasksItem w
  /\ tagsItem w' = tagsItem w
  /\ invoked w' = invoked w
  /\ exists calls, storageLog w' = (storageLog w ++ calls)%list
                   /\ forallb (fun c => negb (isWrite c)) calls = true.

(** ** Sample environments and states *)

Module Sample.

(** The k-th id is "t" followed by k in decimal. *)
Definition idOf (k : nat) : string := "t" +:+ pretty k.

(** A clock that advances by one millisecond from one reading to the next,
    over a storage that accepts every call. *)
Definition ticking : Env :=
  mkEnv (fun k => (1000 + Z.of_nat k)%Z) idOf (fun _ => false) (fun _ => false).

(** A clock that is read several times within the same millisecond. *)
Definition sameMillisecond : Env :=
  mkEnv (fun _ => 1000%Z) idOf (fun _ => false) (fun _ => false).

(** A storage that rejects every call. *)
Definition failing : Env :=
  mkEnv (fun k => (1000 + Z.of_nat k)%Z) idOf (fun _ => true) (fun _ => false).

(** A storage that rejects its third call and accepts the others. *)
Definition thirdCallFails : Env :=
  mkEnv (fun k => (1000 + Z.of_nat k)%Z) idOf (fun k => Nat.eqb k 2) (fun _ => false).

(** A storage that rejects its fourth call and accepts the others. *)
Definition fourthCallFails : Env :=
  mkEnv (fun k => (1000 + Z.of_nat k)%Z) idOf (fun k => Nat.eqb k 3) (fun _ => false).

(** A storage that accepts every call, and a listener, number 4, that throws. *)
Definition listenerFails : Env :=
  mkEnv (fun k => (1000 + Z.of_nat k)%Z) idOf (fun _ => false) (fun l => Nat.eqb l 4).

Definition buyMilk : CreateTaskInput := mkInput "Buy milk" None None None.

(** An input whose title is a tab and two spaces. *)
Definition blankTitle : CreateTaskInput :=
  mkInput (String (ascii_of_nat 9) "  ") (Some " at the shop ") None None.

(** Two listeners are subscribed, nothing is stored. *)
Definition watched : World :=
  after (subscribe 7) (after (subscribe 4) emptyWorld).

(** One task is stored, and two listeners are subscribed. *)
Definition oneTask : World := after (createTask ticking buyMilk) watched.

(** One task, created and stored within the millisecond the clock shows. *)
Definition justCreated : World := after (createTask sameMillisecond buyMilk) emptyWorld.

(** A sequence of operations: two creations, an update of the first task,
    an update and a removal that find nothing, and the removal of the
    second task. *)
Definition session : list Replay.Op :=
  [ Replay.Create buyMilk;
    Replay.Create blankTitle;
    Replay.Update "t0" (mkUpdates None None None (Some true) None None None None);
    Replay.Update "t7" (mkUpdates None (Some "lost") None None None None None None);
    Replay.Delete "t7";
    Replay.Delete "t1" ].

End Sample.

(** A field after an update: the provided value when the update mentions the
    field, the old value when it does not. *)
Definition takes {A} (upd : option A) (old new : A) : Prop :=
  match upd with
  | Some v => new = v
  | None => new = old
  end.

(** ** The claims that the program does not meet as they are worded *)

(** Toggle, as the specification words it: after two calls in a row the task
    has its original [completed], and [updatedAt] has strictly increased
    with each call. *)
Definition toggleTwiceStrict (E : Env) (w : World) (x : string) : Prop :=
  forall t0, List.find (hasId x) (collection w) = Some t0 ->
    let w1 := after (toggleTaskCompletion E x) w in
    let w2 := after (toggleTaskCompletion E x) w1 in
    exists t1 t2,
      List.find (hasId x) (collection w1) = Some t1
      /\ List.find (hasId x) (collection w2) = Some t2
      /\ completed t2 = completed t0
      /\ (updatedAt t0 < updatedAt t1)%Z
      /\ (updatedAt t1 < updatedAt t2)%Z.

(** The [updates] object of [toggleTaskCompletion]. *)
Definition flipOf (t : Task) : TaskUpdates :=
  mkUpdates None None None (Some (negb (completed t))) None None None None.

(** Create, as the specification words it: after [createTask] of the title
    "Buy milk", [getAllTasks] returns a collection with exactly one task
    that has this title, is not completed, has [createdAt] equal to
    [updatedAt], and carries an id that no task of the previous collection
    had. *)
Definition createdAsWorded (old : list Task) (t : Task) : Prop :=
  title t = "Buy milk" /\ completed t = false /\ createdAt t = updatedAt t
  /\ ~ In (id t) (List.map id old).

Definition createPostcondition (E : Env) (w : World) : Prop :=
  exists ts : list Task,
    outcome (getAllTasks E) (after (createTask E Sample.buyMilk) w) = Returned ts
    /\ exists i t, ts !! i = Some t /\ createdAsWorded (collection w) t
         /\ forall j t', ts !! j = Some t' -> createdAsWorded (collection w) t' -> j = i.

(** The state [w] of the program holds what the model [m] holds: the same
    collection, and as many ids and clock readings consumed. *)
Definition models (m : Replay.Model) (w : World) : Prop :=
  collection w = Replay.m_tasks m
  /\ idCount w = Replay.m_ids m
  /\ dateCount w = Replay.m_dates m.

(** ** The tag registry, as the specification words it *)

(** The test of [createOrGetTag]: the tag's name, in lower case, is the
    trimmed input in lower case. *)
Definition sameTagName (name : string) (tag : Tag) : bool :=
  String.eqb (JsString.toLowerCase (tag_name tag))
             (JsString.toLowerCase (JsString.trim name)).

(** A new tag gets a color that no tag of the registry has. *)
Definition newTagColorFresh (E : Env) (w : World) (name : string) : Prop :=
  List.find (sameTagName name) (registry w) = None ->
  exists t : Tag,
    outcome (createOrGetTag E name) w = Returned t
    /\ forall t', In t' (registry w) -> tag_color t' <> tag_color t.

Module TagSample.

Definition names : list string :=
  [ "home"; "work"; "urgent"; "errand"; "health"; "money";
    "family"; "garden"; "travel"; "books"; "music"; "ideas" ].

(** The registry after twelve tags have been created, one per palette color. *)
Definition twelveTags : World :=
  after (forEach (fun name => createOrGetTag Sample.ticking name ;; ret tt) names)
        emptyWorld.

(** The registry after the first three of them have been created. *)
Definition threeTags : World :=
  after (forEach (fun name => createOrGetTag Sample.ticking name ;; ret tt)
                 (take 3 names))
        emptyWorld.

End TagSample.

(** ** The derived view, as the specification words it, against the program *)

(** The view of the program is the view of the specification. *)
Definition viewAsWorded (st : ViewSpec.Status) (search : option string)
           (tasks : list Task) : Prop :=
  View.sortedFilteredTasks tasks (mkFilter (ViewSpec.toTaskStatus st) search None)
  = ViewSpec.view st search tasks.

(** The search string that the program goes by: none when the string is
    empty once trimmed. *)
Definition effectiveSearch (search : option string) : option string :=
  match search with
  | Some q => if JsString.truthy (JsString.trim q) then Some q else None
  | None => None
  end.

Module ViewSample.

(** A search string of two spaces. *)
Definition twoSpaces : option string := Some "  ".

Definition milk : Task := mkTask "t0" "Buy milk" None false None [] 1000%Z 1001%Z.

(** The three tasks of the specification's example: A, then B (completed),
    then C, each created after the one before. *)
Definition taskA : Task := mkTask "a" "Air the room" None false None [] 100%Z 100%Z.
Definition taskB : Task := mkTask "b" "Bake bread" (Some "Rye") true None [] 200%Z 250%Z.
Definition taskC : Task := mkTask "c" "Call home" None false None [] 300%Z 300%Z.

End ViewSample.

(** ** The id generator *)

(** Modelled from the spec: [generateId] of [utils], which is not among the
    sources at hand. The specification calls the id an "opaque unique
    string, assigned at creation": the generator never hands out the same id
    twice. *)
Definition generatesUniqueIds (E : Env) : Prop :=
  forall i j, idSource E i = idSource E j -> i = j.

(** Every id of the stored collection was handed out by the generator. *)
Definition idsIssued (E : Env) (w : World) : Prop :=
  forall t, In t (collection w) -> exists k, k < idCount w /\ id t = idSource E k.

(** ** The rest of [TagService] *)

(** The [updates] object of [updateTag], of type
    [Partial<Omit<Tag, 'id'>>]. *)
Record TagUpdates := mkTagUpdates {
  tu_name : option string;
  tu_color : option string
}.

(** [{ ...tag, ...updates }] *)
Definition mergeTag (tag : Tag) (updates : TagUpdates) : Tag :=
  {| tag_id := tag_id tag;
     tag_name := pick (tu_name updates) (tag_name tag);
     tag_color := pick (tu_color updates) (tag_color tag) |}.

Definition tagHasId (tagId : string) (tag : Tag) : bool :=
  String.eqb (tag_id tag) tagId.

(** A code unit that [/^[a-zA-Z0-9\s]+$/] accepts. The class [\s] is the
    white space that [trim] strips. *)
Definition isTagNameUnit (c : ascii) : bool :=
  let n := nat_of_ascii c in
  ((97 <=? n)%nat && (n <=? 122)%nat)
  || ((65 <=? n)%nat && (n <=? 90)%nat)
  || ((48 <=? n)%nat && (n <=? 57)%nat)
  || JsString.isWhiteSpace c.

Fixpoint allTagNameUnits (s : string) : bool :=
  match s with
  | EmptyString => true
  | String c r => isTagNameUnit c && allTagNameUnits r
  end.

(** [/^[a-zA-Z0-9\s]+$/.test(s)]: one unit at least, all of the class. *)
Definition tagNamePattern (s : string) : bool :=
  JsString.truthy s && allTagNameUnits s.

Definition validateTagName (name : string) : list string :=
  let errors : list string := [] in
  let errors :=
    if negb (JsString.truthy name)
       || Nat.eqb (String.length (JsString.trim name)) 0
    then (errors ++ ["Tag name is required"])%list else errors in
  let errors :=
    if JsString.truthy name && Nat.ltb 20 (String.length (JsString.trim name))
    then (errors ++ ["Tag name must be 20 characters or less"])%list else errors in
  let errors :=
    if JsString.truthy name && negb (tagNamePattern (JsString.trim name))
    then (errors ++ ["Tag name can only contain letters, numbers, and spaces"])%list
    else errors in
  errors.

Section TagProgram.

Variable E : Env.

Definition updateTag (tagId : string) (updates : TagUpdates) : M (option Tag) :=
  tgs ← getAllTags E;
  match findIndex (tagHasId tagId) tgs with
  | None => ret None
  | Some tagIndex =>
      match tgs !! tagIndex with
      | None => ret None   (* not reached: [findIndex] answers a position of [tgs] *)
      | Some tag =>
          let updatedTag := mergeTag tag updates in
          saveTags E (<[tagIndex := updatedTag]> tgs) ;;
          ret (Some updatedTag)
      end
  end.

Definition deleteTag (tagId : string) : M bool :=
  tgs ← getAllTags E;
  let filteredTags := List.filter (fun tag => negb (tagHasId tagId tag)) tgs in
  if Nat.eqb (length filteredTags) (length tgs)
  then ret false
  else saveTags E filteredTags ;; ret true.

End TagProgram.

(** ** The hook [useTasks]: its state and its handlers

    The state of the hook is what its four [useState] cells hold. A handler
    is an [async] function that catches whatever the store throws, so it
    returns in every case: it is a function from the two states to the two
    states. The error of a [catch] is an [Error], whose message the handler
    stores. [LayoutAnimation.configureNext] only concerns the display and is
    left out. The reload that the hook's own listener starts when the store
    notifies it ends after the handler that caused it; it is the separate
    step [loadTasks]. *)

Record HookState := mkHook {
  h_tasks : list Task;
  h_loading : bool;
  h_error : option string;
  h_filter : TaskFilter
}.

(** The state of the hook when it mounts. *)
Definition mountedHook : HookState :=
  mkHook [] true None (mkFilter StatusAll None None).

Definition setTasks (v : list Task) (h : HookState) : HookState :=
  mkHook v (h_loading h) (h_error h) (h_filter h).
Definition setLoading (v : bool) (h : HookState) : HookState :=
  mkHook (h_tasks h) v (h_error h) (h_filter h).
Definition setError (v : option string) (h : HookState) : HookState :=
  mkHook (h_tasks h) (h_loading h) v (h_filter h).
Definition setFilter (v : TaskFilter) (h : HookState) : HookState :=
  mkHook (h_tasks h) (h_loading h) (h_error h) v.

Module Hook.

Definition setFilterStatus (newFilter : TaskFilter) (h : HookState) : HookState :=
  setFilter newFilter h.

(** [setFilter(prevFilter => ({ ...prevFilter, searchQuery: query }))] *)
Definition setSearchQuery (query : string) (h : HookState) : HookState :=
  setFilter (mkFilter (status (h_filter h)) (Some query) (tagIds (h_filter h))) h.

(** What the hook returns as [filteredTasks] and as its three counts. *)
Definition visibleTasks (h : HookState) : list Task :=
  View.sortedFilteredTasks (h_tasks h) (h_filter h).
Definition totalTasks (h : HookState) : nat := View.totalTasks (h_tasks h).
Definition completedTasks (h : HookState) : nat := View.completedTasks (h_tasks h).
Definition activeTasks (h : HookState) : nat := View.activeTasks (h_tasks h).

(** [prevTasks.map(task => task.id === id ? updatedTask : task)] *)
Definition replaceById (taskId : string) (updatedTask : Task) (prevTasks : list Task)
  : list Task :=
  List.map (fun task => if hasId taskId task then updatedTask else task) prevTasks.

Section Handlers.

Variable E : Env.

Definition loadTasks (h : HookState) (w : World) : HookState * World :=
  let h := setLoading true h in
  let h := setError None h in
  match getAllTasks E w with
  | (Returned loadedTasks, w') => (setLoading false (setTasks loadedTasks h), w')
  | (Thrown e, w') => (setLoading false (setError (Some e) h), w')
  end.

Definition addTask (input : CreateTaskInput) (h : HookState) (w : World)
  : HookState * World :=
  let h := setError None h in
  match validateTaskInput input with
  | firstError :: _ => (setError (Some firstError) h, w)
  | [] =>
      match createTask E input w with
      | (Returned newTask, w') => (setTasks (newTask :: h_tasks h) h, w')
      | (Thrown e, w') => (setError (Some e) h, w')
      end
  end.

Definition updateTask (taskId : string) (updates : TaskUpdates)
           (h : HookState) (w : World) : HookState * World :=
  let h := setError None h in
  match updateTask E taskId updates w with
  | (Returned (Some updatedTask), w') =>
      (setTasks (replaceById taskId updatedTask (h_tasks h)) h, w')
  | (Returned None, w') => (h, w')
  | (Thrown e, w') => (setError (Some e) h, w')
  end.

Definition toggleTask (taskId : string) (h : HookState) (w : World)
  : HookState * World :=
  let h := setError None h in
  match toggleTaskCompletion E taskId w with
  | (Returned (Some updatedTask), w') =>
      (setTasks (replaceById taskId updatedTask (h_tasks h)) h, w')
  | (Returned None, w') => (h, w')
  | (Thrown e, w') => (setError (Some e) h, w')
  end.

Definition deleteTask (taskId : string) (h : HookState) (w : World)
  : HookState * World :=
  let h := setError None h in
  match deleteTask E taskId w with
  | (Returned true, w') =>
      (setTasks (List.filter (fun task => negb (hasId taskId task)) (h_tasks h)) h, w')
  | (Returned false, w') => (h, w')
  | (Thrown e, w') => (setError (Some e) h, w')
  end.

Definition clearAllTasks (h : HookState) (w : World) : HookState * World :=
  let h := setError None h in
  match clearAllTasks E w with
  | (Returned _, w') => (setTasks [] h, w')
  | (Thrown e, w') => (setError (Some e) h, w')
  end.

End Handlers.

End Hook.

(** ** The list of tasks and its tag filter ([components/TaskList.tsx]) *)

Module TaskList.

(** [tagMap.set(k, v)] on a [Map], kept as the list of its entries in
    insertion order: a key that is there keeps its place and takes the new
    value, a new key goes to the end. *)
Fixpoint mapSet (k : string) (v : Tag) (entries : list (string * Tag))
  : list (string * Tag) :=
  match entries with
  | [] => [(k, v)]
  | (k', v') :: rest =>
      if String.eqb k' k then (k, v) :: rest else (k', v') :: mapSet k v rest
  end.

(** The two nested loops that fill [tagMap]. *)
Definition collectTags (tasks : list Task) : list (string * Tag) :=
  fold_left
    (fun tagMap task =>
       fold_left
         (fun tagMap tag =>
            if JsString.truthy (tag_id tag) then mapSet (tag_id tag) tag tagMap
            else tagMap)
         (tags task) tagMap)
    tasks [].

(** [Array.from(tagMap.values())] *)
Definition allTags (tasks : list Task) : list Tag :=
  List.map snd (collectTags tasks).

(** [selectedTags.includes(x)] *)
Definition includesId (selectedTags : list string) (x : string) : bool :=
  existsb (String.eqb x) selectedTags.

Definition filteredTasks (tasks : list Task) (selectedTags : list string) : list Task :=
  if Nat.eqb (length selectedTags) 0 then tasks
  else List.filter
         (fun task => existsb (fun tag => includesId selectedTags (tag_id tag)) (tags task))
         tasks.

Definition toggleTagFilter (tagId : string) (prev : list string) : list string :=
  if includesId prev tagId
  then List.filter (fun x => negb (String.eqb x tagId)) prev
  else (prev ++ [tagId])%list.

Definition clearAllFilters : list string := [].

End TaskList.

(** ** The forms ([AddTaskBottomSheet], [EditTaskBottomSheet], [TaskInput]) *)

Module Forms.

Record TaskForm := mkForm {
  f_title : string;
  f_description : string;
  f_dueDate : option Date;     (* [null] is [None] *)
  f_tags : list string
}.

(** [s.split(/\s+/)]: the pieces of [s] between its maximal runs of white
    space; a run at the start or at the end leaves an empty piece there. *)
Fixpoint splitWhiteSpace (s : string) : list string :=
  match s with
  | EmptyString => [EmptyString]
  | String c r =>
      let rest := splitWhiteSpace r in
      if JsString.isWhiteSpace c then
        match r with
        | String d _ => if JsString.isWhiteSpace d then rest else EmptyString :: rest
        | EmptyString => EmptyString :: rest
        end
      else
        match rest with
        | piece :: more => String c piece :: more
        | [] => [String c EmptyString]
        end
  end.

(** [pieces.join('-')] *)
Fixpoint joinDash (pieces : list string) : string :=
  match pieces with
  | [] => EmptyString
  | [piece] => piece
  | piece :: more => String.append piece (String "-" (joinDash more))
  end.

(** The tag that both forms make of a tag name. *)
Definition tagOfName (tagName : string) : Tag :=
  {| tag_id := joinDash (splitWhiteSpace (JsString.toLowerCase tagName));
     tag_name := tagName;
     tag_color := "#007AFF" |}.





(** [handleSubmit] of [EditTaskBottomSheet]: [None] when it shows the alert
    and submits nothing, else the [updates] that it hands to
    [TaskService.updateTask]. *)
Definition editFormUpdates (form : TaskForm) : option TaskUpdates :=
  if negb (JsString.truthy (JsString.trim (f_title form))) then None
  else Some
         {| u_id := None;
            u_title := Some (JsString.trim (f_title form));
            u_description := Some (Some (JsString.trim (f_description form)));
            u_completed := None;
            u_dueDate := Some (f_dueDate form);
            u_tags := Some (List.map tagOfName (f_tags form));
            u_createdAt := None;
            u_updatedAt := None |}.

(** The whole task as an [updates] object, as [TabNavigator] passes it to
    [onUpdateTask] once the edit form has saved. The task comes from
    [TaskService.updateTask]: [dueDate] is an own property of it even when
    undefined, [description] is one only when it has a value. *)
Definition wholeTask (task : Task) : TaskUpdates :=
  {| u_id := Some (id task);
     u_title := Some (title task);
     u_description := option_map Some (description task);
     u_completed := Some (completed task);
     u_dueDate := Some (dueDate task);
     u_tags := Some (tags task);
     u_createdAt := Some (createdAt task);
     u_updatedAt := Some (updatedAt task) |}.

End Forms.

(** ** Ids along a sequence of operations *)

(** The operation hands no [id] to the store: an update does not mention
    the field. *)
Definition mentionsNoId (op : Replay.Op) : Prop :=
  match op with
  | Replay.Update _ updates => u_id updates = None
  | _ => True
  end.

(** The ids of the collection are pairwise distinct and were all handed out
    by the generator. *)
Definition idsInOrder (E : Env) (ts : list Task) (issued : nat) : Prop :=
  List.NoDup (List.map id ts)
  /\ forall t, In t ts -> exists k, k < issued /\ id t = idSource E k.

(** The name of a tag as [createOrGetTag] compares it. *)
Definition lowerName (tag : Tag) : string := JsString.toLowerCase (tag_name tag).

(** ** What the user does through the hook *)

Inductive HookOp :=
| DoLoad
| DoAdd (input : CreateTaskInput)
| DoUpdate (taskId : string) (updates : TaskUpdates)
| DoToggle (taskId : string)
| DoDelete (taskId : string)
| DoClear.

Definition runHook (E : Env) (op : HookOp) (h : HookState) (w : World)
  : HookState * World :=
  match op with
  | DoLoad => Hook.loadTasks E h w
  | DoAdd input => Hook.addTask E input h w
  | DoUpdate taskId updates => Hook.updateTask E taskId updates h w
  | DoToggle taskId => Hook.toggleTask E taskId h w
  | DoDelete taskId => Hook.deleteTask E taskId h w
  | DoClear => Hook.clearAllTasks E h w
  end.

(** [EditTaskBottomSheet.handleSubmit] followed by the [onTaskUpdated] of
    [TabNavigator]: the form saves through [TaskService.updateTask], then the
    task that came back is handed, whole, to the hook's [updateTask]. *)
Definition saveEdit (E : Env) (task : Task) (form : Forms.TaskForm)
           (h : HookState) (w : World) : HookState * World :=
  match Forms.editFormUpdates form with
  | None => (h, w)
  | Some updates =>
      match updateTask E (id task) updates w with
      | (Returned (Some updatedTask), w') =>
          Hook.updateTask E (id updatedTask) (Forms.wholeTask updatedTask) h w'
      | (_, w') => (h, w')
      end
  end.

(** Nothing stored under the tasks key has changed and no listener was
    called between [w] and [w']. *)
Definition untouched (w w' : World) : Prop :=
  tasksItem w' = tasksItem w /\ invoked w' = invoked w.

(** What holds of the entries of [tagMap] all along the two loops, for the
    tags [seen] so far: the keys are pairwise distinct, each entry is a tag
    seen, filed under its id, and the keys are the ids seen that are not the
    empty string. *)
Definition filed (seen : list Tag) (entries : list (string * Tag)) : Prop :=
  List.NoDup (List.map fst entries)
  /\ (forall k v, In (k, v) entries -> tag_id v = k /\ In v seen)
  /\ (forall k, In k (List.map fst entries)
                <-> k <> EmptyString /\ In k (List.map tag_id seen)).

(** No code unit of the string is white space. *)
Fixpoint noWhiteSpace (s : string) : bool :=
  match s with
  | EmptyString => true
  | String c r => negb (JsString.isWhiteSpace c) && noWhiteSpace r
  end.

(** Between [w] and [w'] the listeners are the same and were called once
    each for every write among the AsyncStorage calls made, in that order,
    and not otherwise. *)
Definition notifiedPerWrite (w w' : World) : Prop :=
  listeners w' = listeners w
  /\ exists calls,
       storageLog w' = (storageLog w ++ calls)%list
       /\ invoked w'
          = (invoked w
             ++ concat (List.map (fun c => if isWrite c then elements (listeners w) else [])
                                 calls))%list.

(** * Properties *)

(** ** The document round trip *)

Lemma revive_stringify (t : Task) : reviveTask (stringifyTask t) = t.
Proof. destruct t; reflexivity. Qed.

Lemma revive_stringify_all (ts : list Task) :
  List.map reviveTask (List.map stringifyTask ts) = ts.
Proof.
  induction ts as [|t ts IH]; simpl; [reflexivity|].
  now rewrite revive_stringify, IH.
Qed.

Lemma collection_written (ts : list Task) (w : World) :
  collection (set_tasksItem (Some (List.map stringifyTask ts)) w) = ts.
Proof. unfold collection; simpl. apply revive_stringify_all. Qed.

(** ** The primitives, run *)

Section Runs.

Variable E : Env.

Lemma forEach_listeners (ls : list Listener) (w : World) :
  forEach (fun l => tryCatch (callListener E l)
                      (fun err => consoleError "TaskService listener error")) ls w
  = (Returned tt,
     set_console (console w ++ listenerErrors E ls)
                 (set_invoked (invoked w ++ ls) w)).
Proof.
  revert w. induction ls as [|l ls IH]; intros w.
  - destruct w; unfold listenerErrors; simpl. now rewrite !app_nil_r.
  - simpl forEach. unfold mbind, M_bind, bind at 1.
    unfold tryCatch at 1, callListener at 1.
    unfold listenerErrors. simpl List.filter.
    destruct (listenerThrows E l).
    + unfold consoleError at 1. rewrite IH. destruct w; simpl.
      unfold set_console, set_invoked; simpl.
      now rewrite <- !app_assoc.
    + rewrite IH. destruct w; simpl.
      unfold set_console, set_invoked; simpl.
      now rewrite <- !app_assoc.
Qed.

Lemma emitChange_run (w : World) :
  emitChange E w = (Returned tt, notified E w).
Proof. unfold emitChange, notified. apply forEach_listeners. Qed.

Lemma getAllTasks_run (w : World) :
  getAllTasks E w =
  if rejects E (length (storageLog w))
  then (Returned [], complained "Error retrieving tasks:" (logged (GetItem TASKS_STORAGE_KEY) w))
  else (Returned (collection w), logged (GetItem TASKS_STORAGE_KEY) w).
Proof.
  unfold getAllTasks, tryCatch, mbind, M_bind, bind, getTasksItem, storageCall.
  destruct (rejects E (length (storageLog w))); [reflexivity|].
  unfold collection, logged. simpl.
  destruct (tasksItem w); reflexivity.
Qed.

Lemma saveTasks_run (ts : list Task) (w : World) :
  saveTasks E ts w =
  if rejects E (length (storageLog w))
  then (Thrown "AsyncStorage error",
        complained "Error saving tasks:" (logged (SetItem TASKS_STORAGE_KEY) w))
  else (Returned tt,
        notified E (set_tasksItem (Some (List.map stringifyTask ts))
                                  (logged (SetItem TASKS_STORAGE_KEY) w))).
Proof.
  unfold saveTasks, tryCatch, mbind, M_bind, bind, setTasksItem, storageCall.
  destruct (rejects E (length (storageLog w))); [reflexivity|].
  now rewrite emitChange_run.
Qed.

Lemma clearAllTasks_run (w : World) :
  clearAllTasks E w =
  if rejects E (length (storageLog w))
  then (Thrown "AsyncStorage error",
        complained "Error clearing tasks:" (logged (RemoveItem TASKS_STORAGE_KEY) w))
  else (Returned tt,
        notified E (set_tasksItem None (logged (RemoveItem TASKS_STORAGE_KEY) w))).
Proof.
  unfold clearAllTasks, tryCatch, mbind, M_bind, bind, removeTasksItem, storageCall.
  destruct (rejects E (length (storageLog w))); [reflexivity|].
  now rewrite emitChange_run.
Qed.

End Runs.

(** ** Lists: [findIndex], [find] and [filter] *)

Section ListFacts.

Context {A : Type}.
Variable p : A -> bool.

Lemma findIndex_None (xs : list A) :
  findIndex p xs = None <-> (forall x, In x xs -> p x = false).
Proof.
  induction xs as [|x xs IH]; simpl.
  - split; [intros _ y []|reflexivity].
  - destruct (p x) eqn:Hx.
    + split; [discriminate|]. intros H. specialize (H x (or_introl eq_refl)). congruence.
    + destruct (findIndex p xs) eqn:Hf; simpl.
      * split; [discriminate|]. intros H.
        assert (Some n = None) by (apply IH; intros y Hy; apply H; now right).
        discriminate.
      * split; [|reflexivity]. intros _ y [<-|Hy]; [assumption|].
        now apply IH.
Qed.

Lemma findIndex_Some (xs : list A) (i : nat) :
  findIndex p xs = Some i ->
  exists x, xs !! i = Some x /\ p x = true /\ List.find p xs = Some x
            /\ (forall j y, j < i -> xs !! j = Some y -> p y = false).
Proof.
  revert i. induction xs as [|x xs IH]; simpl; intros i H; [discriminate|].
  destruct (p x) eqn:Hx.
  - injection H as <-. exists x. repeat split; try assumption; try reflexivity.
    intros j y Hj. lia.
  - destruct (findIndex p xs) as [k|] eqn:Hf; simpl in H; [|discriminate].
    injection H as <-. destruct (IH k eq_refl) as (y & Hl & Hy & Hfind & Hbefore).
    exists y. repeat split; try assumption.
    intros [|j] z Hj Hz; simpl in Hz.
    + now injection Hz as <-.
    + apply (Hbefore j); [lia|assumption].
Qed.

Lemma find_findIndex (xs : list A) :
  List.find p xs = None <-> findIndex p xs = None.
Proof.
  induction xs as [|x xs IH]; simpl; [tauto|].
  destruct (p x); [split; discriminate|].
  destruct (findIndex p xs); simpl; split; intros H; try discriminate; try reflexivity.
  - apply IH in H. discriminate.
  - now apply IH.
Qed.

Lemma filter_length_le (xs : list A) : length (List.filter p xs) <= length xs.
Proof. induction xs as [|x xs IH]; simpl; [lia|]. destruct (p x); simpl; lia. Qed.

Lemma filter_same_length (xs : list A) :
  length (List.filter p xs) = length xs <-> (forall x, In x xs -> p x = true).
Proof.
  induction xs as [|x xs IH]; simpl.
  - split; [intros _ y []|reflexivity].
  - pose proof (filter_length_le xs) as Hle. destruct (p x) eqn:Hx; simpl.
    + split.
      * intros H y [<-|Hy]; [assumption|]. apply IH; [lia|assumption].
      * intros H. f_equal. apply IH. intros y Hy. apply H. now right.
    + split; [lia|]. intros H. specialize (H x (or_introl eq_refl)). congruence.
Qed.

Lemma filter_all (xs : list A) :
  (forall x, In x xs -> p x = true) -> List.filter p xs = xs.
Proof.
  induction xs as [|x xs IH]; simpl; intros H; [reflexivity|].
  rewrite (H x (or_introl eq_refl)). f_equal. apply IH. intros y Hy. apply H. now right.
Qed.

End ListFacts.

Lemma hasId_true (x : string) (t : Task) : hasId x t = true <-> id t = x.
Proof. unfold hasId. apply String.eqb_eq. Qed.

Lemma hasId_false (x : string) (t : Task) : hasId x t = false <-> id t <> x.
Proof. unfold hasId. apply String.eqb_neq. Qed.

(** An id is absent from a collection when no task carries it. *)
Lemma absent_findIndex (x : string) (ts : list Task) :
  ~ In x (List.map id ts) <-> findIndex (hasId x) ts = None.
Proof.
  rewrite findIndex_None, in_map_iff. split.
  - intros H t Ht. apply hasId_false. intros Heq. apply H. now exists t.
  - intros H (t & Heq & Ht). apply H in Ht. apply hasId_false in Ht. contradiction.
Qed.

(** ** The store operations, run against a storage that accepts every call *)

Ltac step_run HE :=
  repeat first
    [ rewrite getAllTasks_run, HE
    | rewrite saveTasks_run, HE
    | rewrite clearAllTasks_run, HE ].

Section ReliableRuns.

Variable E : Env.
Hypothesis HE : reliable E.

Lemma getAllTasks_reliable (w : World) :
  getAllTasks E w = (Returned (collection w), logged (GetItem TASKS_STORAGE_KEY) w).
Proof. now rewrite getAllTasks_run, HE. Qed.

(** The task that [createTask] builds in state [w]. *)
Lemma createTask_reliable (input : CreateTaskInput) (w : World) :
  let t := newTaskOf input (idSource E (idCount w))
                     (clock E (dateCount w)) (clock E (S (dateCount w))) in
  createTask E input w =
  (Returned t,
   notified E
     (set_tasksItem (Some (List.map stringifyTask (collection w ++ [t])))
        (logged (SetItem TASKS_STORAGE_KEY)
           (logged (GetItem TASKS_STORAGE_KEY)
              (set_dateCount (S (S (dateCount w)))
                 (set_idCount (S (idCount w)) w)))))).
Proof.
  intros t. unfold createTask, mbind, M_bind, bind, generateId, newDate.
  step_run HE. reflexivity.
Qed.

Lemma updateTask_missing (x : string) (u : TaskUpdates) (w : World) :
  findIndex (hasId x) (collection w) = None ->
  updateTask E x u w = (Returned None, logged (GetItem TASKS_STORAGE_KEY) w).
Proof.
  intros H. unfold updateTask, mbind, M_bind, bind.
  step_run HE. now rewrite H.
Qed.

Lemma updateTask_found (x : string) (u : TaskUpdates) (w : World) (i : nat) (t : Task) :
  findIndex (hasId x) (collection w) = Some i ->
  collection w !! i = Some t ->
  let t' := mergeTask t u (clock E (dateCount w)) in
  updateTask E x u w =
  (Returned (Some t'),
   notified E
     (set_tasksItem (Some (List.map stringifyTask (<[i := t']> (collection w))))
        (logged (SetItem TASKS_STORAGE_KEY)
           (set_dateCount (S (dateCount w))
              (logged (GetItem TASKS_STORAGE_KEY) w))))).
Proof.
  intros Hi Ht t'. unfold updateTask, mbind, M_bind, bind, newDate.
  step_run HE. rewrite Hi, Ht. step_run HE. reflexivity.
Qed.

Lemma deleteTask_reliable (x : string) (w : World) :
  let kept := List.filter (fun task => negb (hasId x task)) (collection w) in
  deleteTask E x w =
  if Nat.eqb (length kept) (length (collection w))
  then (Returned false, logged (GetItem TASKS_STORAGE_KEY) w)
  else (Returned true,
        notified E
          (set_tasksItem (Some (List.map stringifyTask kept))
             (logged (SetItem TASKS_STORAGE_KEY)
                (logged (GetItem TASKS_STORAGE_KEY) w)))).
Proof.
  intros kept. unfold deleteTask, mbind, M_bind, bind.
  step_run HE. fold kept.
  destruct (Nat.eqb (length kept) (length (collection w))); [reflexivity|].
  step_run HE. reflexivity.
Qed.

End ReliableRuns.

(** ** Not found: no write, no notification *)

Lemma quiet_refl (w : World) : quiet w w.
Proof.
  repeat split. exists []. now rewrite app_nil_r.
Qed.

Lemma quiet_trans (w1 w2 w3 : World) : quiet w1 w2 -> quiet w2 w3 -> quiet w1 w3.
Proof.
  intros (Ha & Hb & Hc & ca & Hd & He) (Ha' & Hb' & Hc' & cb & Hd' & He').
  repeat split; try congruence.
  exists (ca ++ cb)%list. split.
  - now rewrite Hd', Hd, app_assoc.
  - rewrite forallb_app, He, He'. reflexivity.
Qed.

Lemma getAllTasks_quiet (E : Env) (w : World) : quiet w (after (getAllTasks E) w).
Proof.
  unfold after. rewrite getAllTasks_run.
  destruct (rejects E _); simpl; repeat split; now exists [GetItem TASKS_STORAGE_KEY].
Qed.

Lemma getAllTasks_returns (E : Env) (w : World) :
  exists ts, outcome (getAllTasks E) w = Returned ts.
Proof.
  unfold outcome. rewrite getAllTasks_run. destruct (rejects E _); simpl; eauto.
Qed.

Lemma updateTask_quiet (E : Env) (x : string) (u : TaskUpdates) (w : World) :
  outcome (updateTask E x u) w = Returned None -> quiet w (after (updateTask E x u) w).
Proof.
  unfold outcome, after, updateTask, mbind, M_bind, bind.
  pose proof (getAllTasks_quiet E w) as Hq. unfold after in Hq.
  destruct (getAllTasks E w) as [[ts|e] w1] eqn:Hget; simpl in *; [|discriminate].
  destruct (findIndex (hasId x) ts) as [i|]; [|intros _; exact Hq].
  destruct (ts !! i) as [t|]; [|intros _; exact Hq].
  unfold newDate. rewrite saveTasks_run.
  destruct (rejects E _); simpl; discriminate.
Qed.

Lemma toggleTaskCompletion_quiet (E : Env) (x : string) (w : World) :
  outcome (toggleTaskCompletion E x) w = Returned None ->
  quiet w (after (toggleTaskCompletion E x) w).
Proof.
  unfold outcome, after, toggleTaskCompletion, mbind, M_bind, bind.
  pose proof (getAllTasks_quiet E w) as Hq. unfold after in Hq.
  destruct (getAllTasks E w) as [[ts|e] w1] eqn:Hget; simpl in *; [|discriminate].
  destruct (List.find (hasId x) ts) as [t|]; [|intros _; exact Hq].
  intros H. apply (quiet_trans _ w1); [exact Hq|].
  apply updateTask_quiet. exact H.
Qed.

Lemma deleteTask_quiet (E : Env) (x : string) (w : World) :
  outcome (deleteTask E x) w = Returned false -> quiet w (after (deleteTask E x) w).
Proof.
  unfold outcome, after, deleteTask, mbind, M_bind, bind.
  pose proof (getAllTasks_quiet E w) as Hq. unfold after in Hq.
  destruct (getAllTasks E w) as [[ts|e] w1] eqn:Hget; simpl in *; [|discriminate].
  destruct (Nat.eqb _ _); [intros _; exact Hq|].
  rewrite saveTasks_run. destruct (rejects E _); simpl; discriminate.
Qed.

(** A save or a clear that fails calls no listener. *)
Lemma failed_write_silent (E : Env) (w : World) :
  (forall ts e, outcome (saveTasks E ts) w = Thrown e ->
                invoked (after (saveTasks E ts) w) = invoked w)
  /\ (forall e, outcome (clearAllTasks E) w = Thrown e ->
                invoked (after (clearAllTasks E) w) = invoked w).
Proof.
  unfold outcome, after. split; intros.
  - rewrite saveTasks_run in *. destruct (rejects E _); simpl in *; [reflexivity|discriminate].
  - rewrite clearAllTasks_run in *. destruct (rejects E _); simpl in *; [reflexivity|discriminate].
Qed.

(** C9. Whenever [updateTask] or [toggleTaskCompletion] returns [null], or
    [deleteTask] returns [false], the call wrote nothing to the persisted
    documents (every AsyncStorage call it made is a [getItem], and the stored
    items are what they were) and called no listener. This holds whatever
    AsyncStorage does, a rejected read included. The only calls of
    [emitChange] are those of [saveTasks] and [clearAllTasks], behind the
    write: when the write is rejected, they call no listener either. *)
Theorem not_found_is_silent (E : Env) (op : SoftOp) (w : World) :
  returnsSentinel E op w ->
  quiet w (stateAfter E op w)
  /\ (forall ts e, outcome (saveTasks E ts) w = Thrown e ->
                   invoked (after (saveTasks E ts) w) = invoked w)
  /\ (forall e, outcome (clearAllTasks E) w = Thrown e ->
                invoked (after (clearAllTasks E) w) = invoked w).
Proof.
  intros H. split; [|apply failed_write_silent].
  destruct op as [x u|x|x]; simpl in *.
  - now apply updateTask_quiet.
  - now apply toggleTaskCompletion_quiet.
  - now apply deleteTask_quiet.
Qed.

Lemma not_found_is_silent_witness :
  returnsSentinel Sample.failing (SoftToggle "t0") Sample.oneTask
  /\ quiet Sample.oneTask (stateAfter Sample.failing (SoftToggle "t0") Sample.oneTask).
Proof.
  split; [reflexivity|].
  apply (not_found_is_silent Sample.failing (SoftToggle "t0") Sample.oneTask).
  reflexivity.
Defined.

(** ** Delete *)

Lemma collection_after_save (E : Env) (ts : list Task) (w : World) :
  collection (notified E (set_tasksItem (Some (List.map stringifyTask ts)) w)) = ts.
Proof. unfold collection; simpl. apply revive_stringify_all. Qed.

Lemma present_not_kept (x : string) (ts : list Task) :
  In x (List.map id ts) ->
  length (List.filter (fun t => negb (hasId x t)) ts) <> length ts.
Proof.
  intros Hin Hlen. apply in_map_iff in Hin as (t & Hid & Ht).
  rewrite filter_same_length in Hlen. specialize (Hlen t Ht).
  apply hasId_true in Hid. rewrite Hid in Hlen. discriminate.
Qed.

Lemma absent_all_kept (x : string) (ts : list Task) :
  ~ In x (List.map id ts) ->
  List.filter (fun t => negb (hasId x t)) ts = ts.
Proof.
  intros Hout. apply filter_all. intros t Ht.
  apply absent_findIndex in Hout. rewrite findIndex_None in Hout.
  now rewrite (Hout t Ht).
Qed.

Lemma removed_id_gone (x : string) (ts : list Task) :
  ~ In x (List.map id (List.filter (fun t => negb (hasId x t)) ts)).
Proof.
  rewrite in_map_iff. intros (t & Hid & Ht).
  apply filter_In in Ht as [_ Ht]. apply hasId_true in Hid.
  rewrite Hid in Ht. discriminate.
Qed.

(** Whatever AsyncStorage does, [deleteTask] of an id that is not in the
    stored collection returns [false]: it does not throw. *)
Lemma deleteTask_missing_returns (E : Env) (w : World) (x : string) :
  ~ In x (List.map id (collection w)) ->
  outcome (deleteTask E x) w = Returned false.
Proof.
  intros Hout. unfold outcome, deleteTask, mbind, M_bind, bind.
  rewrite getAllTasks_run. destruct (rejects E _); [reflexivity|].
  rewrite (absent_all_kept x _ Hout), Nat.eqb_refl. reflexivity.
Qed.

(** C6. Over a storage that accepts its calls: [deleteTask x] with [x] not in
    the collection returns [false] and leaves the stored document and the
    collection as they were; with [x] in the collection it returns [true]
    and the collection afterwards is the old one without the tasks of id
    [x], so it holds no task of id [x]. In both cases the call returns (it
    does not throw). *)
Theorem delete_semantics (E : Env) (w : World) (x : string) :
  reliable E ->
  (~ In x (List.map id (collection w)) ->
     outcome (deleteTask E x) w = Returned false
     /\ tasksItem (after (deleteTask E x) w) = tasksItem w
     /\ collection (after (deleteTask E x) w) = collection w)
  /\ (In x (List.map id (collection w)) ->
     outcome (deleteTask E x) w = Returned true
     /\ collection (after (deleteTask E x) w)
        = List.filter (fun t => negb (hasId x t)) (collection w)
     /\ ~ In x (List.map id (collection (after (deleteTask E x) w)))).
Proof.
  intros HE. unfold outcome, after.
  pose proof (deleteTask_reliable E HE x w) as Hrun. simpl in Hrun.
  split; intros Hx.
  - rewrite (absent_all_kept x _ Hx), Nat.eqb_refl in Hrun.
    rewrite Hrun. simpl. repeat split.
  - apply present_not_kept in Hx. apply Nat.eqb_neq in Hx.
    rewrite Hx in Hrun. rewrite Hrun. cbn [fst snd].
    rewrite collection_after_save. repeat split. apply removed_id_gone.
Qed.

Lemma delete_semantics_witness :
  reliable Sample.ticking
  /\ In "t0" (List.map id (collection Sample.oneTask))
  /\ outcome (deleteTask Sample.ticking "t0") Sample.oneTask = Returned true
  /\ ~ In "t9" (List.map id (collection Sample.oneTask))
  /\ outcome (deleteTask Sample.ticking "t9") Sample.oneTask = Returned false.
Proof.
  assert (HE : reliable Sample.ticking) by (intros k; reflexivity).
  assert (Hin : In "t0" (List.map id (collection Sample.oneTask)))
    by (vm_compute; left; reflexivity).
  assert (Hout : ~ In "t9" (List.map id (collection Sample.oneTask)))
    by (vm_compute; intros [H|[]]; discriminate).
  destruct (delete_semantics Sample.ticking Sample.oneTask "t0" HE) as [_ Hpresent].
  destruct (delete_semantics Sample.ticking Sample.oneTask "t9" HE) as [Habsent _].
  split; [exact HE|]. split; [exact Hin|].
  split; [exact (proj1 (Hpresent Hin))|].
  split; [exact Hout|].
  exact (proj1 (Habsent Hout)).
Defined.

(** ** Update *)

Lemma present_findIndex (x : string) (ts : list Task) :
  In x (List.map id ts) ->
  exists i t, findIndex (hasId x) ts = Some i /\ ts !! i = Some t /\ id t = x
              /\ List.find (hasId x) ts = Some t.
Proof.
  intros Hin. destruct (findIndex (hasId x) ts) as [i|] eqn:Hf.
  - destruct (findIndex_Some _ _ _ Hf) as (t & Hl & Hp & Hfind & _).
    exists i, t. repeat split; try assumption. now apply hasId_true.
  - apply absent_findIndex in Hf. contradiction.
Qed.

(** C5. Over a storage that accepts its calls, in a store that holds a task
    of id [x], and for an update that mentions none of [id], [createdAt] and
    [updatedAt]: [updateTask x u] returns a task [t'] and persists the
    collection in which [t'] has taken the place of the task [t] located by
    [x]; each field of [t'] that the update mentions has the provided value
    and each field it does not mention is the field of [t]; [id] and
    [createdAt] are those of [t]; [updatedAt] is the clock reading of the
    call; every other position of the collection holds the task it held. *)
Theorem update_frame (E : Env) (w : World) (x : string) (u : TaskUpdates) :
  reliable E ->
  In x (List.map id (collection w)) ->
  u_id u = None -> u_createdAt u = None -> u_updatedAt u = None ->
  exists (i : nat) (t t' : Task),
    findIndex (hasId x) (collection w) = Some i
    /\ collection w !! i = Some t /\ id t = x
    /\ outcome (updateTask E x u) w = Returned (Some t')
    /\ tasksItem (after (updateTask E x u) w)
       = Some (List.map stringifyTask (<[i := t']> (collection w)))
    /\ collection (after (updateTask E x u) w) = <[i := t']> (collection w)
    /\ collection (after (updateTask E x u) w) !! i = Some t'
    /\ (forall j, j <> i ->
          collection (after (updateTask E x u) w) !! j = collection w !! j)
    /\ takes (u_title u) (title t) (title t')
    /\ takes (u_description u) (description t) (description t')
    /\ takes (u_completed u) (completed t) (completed t')
    /\ takes (u_dueDate u) (dueDate t) (dueDate t')
    /\ takes (u_tags u) (tags t) (tags t')
    /\ id t' = id t
    /\ createdAt t' = createdAt t
    /\ updatedAt t' = clock E (dateCount w).
Proof.
  intros HE Hin Hid Hcreated Hupdated.
  destruct (present_findIndex x _ Hin) as (i & t & Hi & Ht & Hx & _).
  pose proof (updateTask_found E HE x u w i t Hi Ht) as Hrun. simpl in Hrun.
  exists i, t, (mergeTask t u (clock E (dateCount w))).
  unfold outcome, after. rewrite Hrun. cbn [fst snd].
  rewrite collection_after_save.
  repeat match goal with |- _ /\ _ => split end; try assumption; try reflexivity.
  - apply list_lookup_insert_eq. now apply lookup_lt_Some with t.
  - intros j Hj. apply list_lookup_insert_ne. congruence.
  - unfold takes, mergeTask; simpl. now destruct (u_title u).
  - unfold takes, mergeTask; simpl. now destruct (u_description u).
  - unfold takes, mergeTask; simpl. now destruct (u_completed u).
  - unfold takes, mergeTask; simpl. now destruct (u_dueDate u).
  - unfold takes, mergeTask; simpl. now destruct (u_tags u).
  - unfold mergeTask; simpl. now rewrite Hid.
  - unfold mergeTask; simpl. now rewrite Hcreated.
Qed.

Lemma update_frame_witness :
  exists (i : nat) (t t' : Task),
    findIndex (hasId "t0") (collection Sample.oneTask) = Some i
    /\ collection Sample.oneTask !! i = Some t /\ id t = "t0"
    /\ outcome (updateTask Sample.ticking "t0"
                  (mkUpdates None (Some "Buy oat milk") None None None None None None))
               Sample.oneTask = Returned (Some t')
    /\ title t' = "Buy oat milk" /\ completed t' = completed t
    /\ createdAt t' = createdAt t.
Proof.
  assert (HE : reliable Sample.ticking) by (intros k; reflexivity).
  assert (Hin : In "t0" (List.map id (collection Sample.oneTask)))
    by (vm_compute; left; reflexivity).
  destruct (update_frame Sample.ticking Sample.oneTask "t0"
              (mkUpdates None (Some "Buy oat milk") None None None None None None)
              HE Hin eq_refl eq_refl eq_refl)
    as (i & t & t' & H1 & H2 & H3 & H4 & _ & _ & _ & _ & H5 & _ & H6 & _ & _ & _ & H7 & _).
  exists i, t, t'. repeat match goal with |- _ /\ _ => split end; assumption.
Defined.

(** ** Toggle *)

Lemma findIndex_insert {A} (p : A -> bool) (xs : list A) (i : nat) (y : A) :
  findIndex p xs = Some i -> p y = true -> findIndex p (<[i := y]> xs) = Some i.
Proof.
  revert i. induction xs as [|x xs IH]; intros i H Hy; simpl in *; [discriminate|].
  destruct (p x) eqn:Hx.
  - injection H as <-. simpl. now rewrite Hy.
  - destruct (findIndex p xs) as [k|] eqn:Hf; simpl in H; [|discriminate].
    injection H as <-. simpl. rewrite Hx. now rewrite (IH k eq_refl Hy).
Qed.

Lemma find_at_findIndex {A} (p : A -> bool) (xs : list A) (i : nat) (x : A) :
  findIndex p xs = Some i -> xs !! i = Some x -> List.find p xs = Some x.
Proof.
  intros Hi Hx. destruct (findIndex_Some p xs i Hi) as (y & Hy & _ & Hfind & _).
  congruence.
Qed.

Section ToggleRuns.

Variable E : Env.
Hypothesis HE : reliable E.

Lemma toggleTaskCompletion_found (x : string) (w : World) (i : nat) (t : Task) :
  findIndex (hasId x) (collection w) = Some i ->
  collection w !! i = Some t ->
  let t' := mergeTask t (flipOf t) (clock E (dateCount w)) in
  toggleTaskCompletion E x w =
  (Returned (Some t'),
   notified E
     (set_tasksItem (Some (List.map stringifyTask (<[i := t']> (collection w))))
        (logged (SetItem TASKS_STORAGE_KEY)
           (set_dateCount (S (dateCount w))
              (logged (GetItem TASKS_STORAGE_KEY)
                 (logged (GetItem TASKS_STORAGE_KEY) w)))))).
Proof.
  intros Hi Ht t'. unfold toggleTaskCompletion, mbind, M_bind, bind.
  step_run HE. rewrite (find_at_findIndex _ _ _ _ Hi Ht).
  fold (flipOf t).
  now rewrite (updateTask_found E HE x (flipOf t)
                 (logged (GetItem TASKS_STORAGE_KEY) w) i t Hi Ht).
Qed.

(** The located task after a toggle: still located by [x], at the same
    position. *)
Lemma toggled_located (x : string) (ts : list Task) (i : nat) (t : Task) (now : Date) :
  findIndex (hasId x) ts = Some i ->
  ts !! i = Some t ->
  let t' := mergeTask t (flipOf t) now in
  findIndex (hasId x) (<[i := t']> ts) = Some i
  /\ <[i := t']> ts !! i = Some t'.
Proof.
  intros Hi Ht t'.
  destruct (findIndex_Some _ _ _ Hi) as (y & Hy & Hp & _).
  assert (y = t) by congruence. subst y. split.
  - apply findIndex_insert; [assumption|]. exact Hp.
  - apply list_lookup_insert_eq. now apply lookup_lt_Some with t.
Qed.

End ToggleRuns.

(** C4, as the code has it. Over a storage that accepts its calls, in a store
    that holds a task of id [x]: two calls of [toggleTaskCompletion x] in a
    row return the task with [completed] flipped and flipped back, every
    other field but [updatedAt] being what it was; after each call
    [updatedAt] is the clock reading that the call took. So [updatedAt]
    increases strictly with each call when the clock has moved past the
    previous value by the time of the call, which the code does not ensure
    by itself. *)
Theorem toggle_twice (E : Env) (w : World) (x : string) :
  reliable E ->
  In x (List.map id (collection w)) ->
  let w1 := after (toggleTaskCompletion E x) w in
  let w2 := after (toggleTaskCompletion E x) w1 in
  exists t0 t1 t2 : Task,
    List.find (hasId x) (collection w) = Some t0
    /\ outcome (toggleTaskCompletion E x) w = Returned (Some t1)
    /\ List.find (hasId x) (collection w1) = Some t1
    /\ outcome (toggleTaskCompletion E x) w1 = Returned (Some t2)
    /\ List.find (hasId x) (collection w2) = Some t2
    /\ completed t1 = negb (completed t0)
    /\ completed t2 = completed t0
    /\ t2 = mkTask (id t0) (title t0) (description t0) (completed t0) (dueDate t0)
                   (tags t0) (createdAt t0) (updatedAt t2)
    /\ updatedAt t1 = clock E (dateCount w)
    /\ updatedAt t2 = clock E (S (dateCount w))
    /\ ((updatedAt t0 < clock E (dateCount w))%Z ->
        (clock E (dateCount w) < clock E (S (dateCount w)))%Z ->
        (updatedAt t0 < updatedAt t1)%Z /\ (updatedAt t1 < updatedAt t2)%Z).
Proof.
  intros HE Hin w1 w2.
  destruct (present_findIndex x _ Hin) as (i & t0 & Hi & Ht & Hx & Hfind).
  pose proof (toggleTaskCompletion_found E HE x w i t0 Hi Ht) as Hrun1.
  simpl in Hrun1.
  set (t1 := mergeTask t0 (flipOf t0) (clock E (dateCount w))) in *.
  destruct (toggled_located x (collection w) i t0 (clock E (dateCount w)) Hi Ht)
    as [Hi1 Ht1]. fold t1 in Hi1, Ht1.
  assert (Hc1 : collection w1 = <[i := t1]> (collection w)).
  { unfold w1, after. rewrite Hrun1. cbn [snd]. apply collection_after_save. }
  assert (Hd1 : dateCount w1 = S (dateCount w)).
  { unfold w1, after. rewrite Hrun1. reflexivity. }
  rewrite <- Hc1 in Hi1, Ht1.
  pose proof (toggleTaskCompletion_found E HE x w1 i t1 Hi1 Ht1) as Hrun2.
  simpl in Hrun2. rewrite Hd1 in Hrun2.
  set (t2 := mergeTask t1 (flipOf t1) (clock E (S (dateCount w)))) in *.
  destruct (toggled_located x (collection w1) i t1 (clock E (S (dateCount w))) Hi1 Ht1)
    as [Hi2 Ht2]. fold t2 in Hi2, Ht2.
  assert (Hc2 : collection w2 = <[i := t2]> (collection w1)).
  { unfold w2, after. rewrite Hrun2. cbn [snd]. apply collection_after_save. }
  rewrite <- Hc2 in Hi2, Ht2.
  exists t0, t1, t2.
  split; [exact Hfind|].
  split; [unfold outcome; now rewrite Hrun1|].
  split; [exact (find_at_findIndex _ _ _ _ Hi1 Ht1)|].
  split; [unfold outcome; now rewrite Hrun2|].
  split; [exact (find_at_findIndex _ _ _ _ Hi2 Ht2)|].
  split; [reflexivity|].
  split; [simpl; apply Bool.negb_involutive|].
  split; [unfold t2, t1, mergeTask; simpl; now rewrite Bool.negb_involutive|].
  split; [reflexivity|].
  split; [reflexivity|].
  intros Ha Hb. split; assumption.
Qed.

Lemma toggle_twice_witness :
  exists t0 t1 t2 : Task,
    List.find (hasId "t0") (collection Sample.oneTask) = Some t0
    /\ outcome (toggleTaskCompletion Sample.ticking "t0") Sample.oneTask
       = Returned (Some t1)
    /\ completed t1 = negb (completed t0)
    /\ completed t2 = completed t0
    /\ (updatedAt t0 < updatedAt t1)%Z /\ (updatedAt t1 < updatedAt t2)%Z.
Proof.
  assert (HE : reliable Sample.ticking) by (intros k; reflexivity).
  assert (Hin : In "t0" (List.map id (collection Sample.oneTask)))
    by (vm_compute; left; reflexivity).
  destruct (toggle_twice Sample.ticking Sample.oneTask "t0" HE Hin)
    as (t0 & t1 & t2 & H1 & H2 & _ & _ & _ & H3 & H4 & _ & H5 & H6 & H7).
  exists t0, t1, t2.
  split; [exact H1|]. split; [exact H2|]. split; [exact H3|]. split; [exact H4|].
  apply H7.
  - vm_compute in H1. injection H1 as <-. reflexivity.
  - reflexivity.
Defined.

(** C4 as worded fails when the clock is read twice within one millisecond:
    the task was stored at 1000, and both toggles read 1000 again. *)
Lemma toggle_not_strict :
  ~ toggleTwiceStrict Sample.sameMillisecond Sample.justCreated "t0".
Proof.
  intros H.
  destruct (H (mkTask "t0" "Buy milk" None false None [] 1000%Z 1000%Z) eq_refl)
    as (t1 & t2 & H1 & _ & _ & Hlt & _).
  vm_compute in H1. injection H1 as <-. simpl in Hlt. lia.
Qed.


(** ** [trim] *)

Module TrimFacts.
Import JsString.

Lemma append_cons (c : ascii) (a b : string) :
  String.append (String c a) b = String c (String.append a b).
Proof. reflexivity. Qed.

Lemma trimStart_spec (s : string) :
  exists a, s = String.append a (trimStart s)
            /\ allWhiteSpace a = true
            /\ startsWithWhiteSpace (trimStart s) = false.
Proof.
  induction s as [|c r (a & Heq & Ha & Hs)]; simpl.
  - now exists EmptyString.
  - destruct (isWhiteSpace c) eqn:Hc.
    + exists (String c a). split; [|split].
      * rewrite append_cons. now f_equal.
      * simpl. now rewrite Hc.
      * exact Hs.
    + exists EmptyString. split; [reflexivity|]. split; [reflexivity|]. exact Hc.
Qed.

Lemma trimEnd_spec (s : string) :
  exists b, s = String.append (trimEnd s) b
            /\ allWhiteSpace b = true
            /\ endsWithWhiteSpace (trimEnd s) = false.
Proof.
  induction s as [|c r (b & Heq & Hb & He)]; simpl.
  - now exists EmptyString.
  - destruct (trimEnd r) as [|d r'] eqn:Hr.
    + change (r = b) in Heq. subst b. destruct (isWhiteSpace c) eqn:Hc.
      * exists (String c r). split; [reflexivity|]. split; [|reflexivity].
        simpl. now rewrite Hc.
      * exists r. split; [reflexivity|]. split; [assumption|]. exact Hc.
    + exists b. split; [|split].
      * rewrite append_cons. now f_equal.
      * exact Hb.
      * exact He.
Qed.

Lemma trimEnd_keeps_start (s : string) :
  startsWithWhiteSpace s = false -> startsWithWhiteSpace (trimEnd s) = false.
Proof.
  destruct s as [|c r]; simpl; [reflexivity|]. intros Hc.
  destruct (trimEnd r); [now rewrite Hc|assumption].
Qed.

Lemma trimStart_blank (s : string) : allWhiteSpace s = true -> trimStart s = EmptyString.
Proof.
  induction s as [|c r IH]; simpl; [reflexivity|].
  destruct (isWhiteSpace c); simpl; [exact IH|discriminate].
Qed.

Lemma trim_blank (s : string) : allWhiteSpace s = true -> trim s = EmptyString.
Proof. intros H. unfold trim. now rewrite trimStart_blank. Qed.

(** [trim s] is [s] without a run of white space at its start and a run of
    white space at its end, and has white space at neither end. *)
Lemma trim_spec (s : string) :
  exists a b, s = String.append a (String.append (trim s) b)
              /\ allWhiteSpace a = true /\ allWhiteSpace b = true
              /\ startsWithWhiteSpace (trim s) = false
              /\ endsWithWhiteSpace (trim s) = false.
Proof.
  destruct (trimStart_spec s) as (a & Ha & Hwa & Hsa).
  destruct (trimEnd_spec (trimStart s)) as (b & Hb & Hwb & Heb).
  exists a, b. unfold trim. rewrite <- Hb, <- Ha.
  repeat split; try assumption. now apply trimEnd_keeps_start.
Qed.

End TrimFacts.

(** ** Create *)

Lemma blank_title_rejected (input : CreateTaskInput) :
  JsString.allWhiteSpace (in_title input) = true ->
  In "Task title is required" (validateTaskInput input).
Proof.
  intros Hblank. unfold validateTaskInput.
  rewrite (TrimFacts.trim_blank _ Hblank). simpl String.length.
  rewrite Nat.eqb_refl, Bool.orb_true_r, Bool.andb_false_r.
  destruct (in_description input) as [d|]; [|now left].
  destruct (_ && _); simpl; now left.
Qed.

(** C10. Over a storage that accepts its calls, [createTask] returns and
    persists, at the end of the collection, a task whose title is
    [input.title] without the white space at its two ends, and whose
    description, when there is one, is trimmed the same way. Nothing is
    validated on the way: an input whose title is white space only, which
    [validateTaskInput] rejects, is persisted with the empty title. *)
Theorem create_trims_unvalidated (E : Env) (w : World) (input : CreateTaskInput) :
  reliable E ->
  exists t : Task,
    outcome (createTask E input) w = Returned t
    /\ tasksItem (after (createTask E input) w)
       = Some (List.map stringifyTask (collection w ++ [t]))
    /\ collection (after (createTask E input) w) = (collection w ++ [t])%list
    /\ title t = JsString.trim (in_title input)
    /\ description t = option_map JsString.trim (in_description input)
    /\ (exists a b,
          in_title input = String.append a (String.append (title t) b)
          /\ JsString.allWhiteSpace a = true /\ JsString.allWhiteSpace b = true
          /\ JsString.startsWithWhiteSpace (title t) = false
          /\ JsString.endsWithWhiteSpace (title t) = false)
    /\ (JsString.allWhiteSpace (in_title input) = true ->
          title t = EmptyString
          /\ In "Task title is required" (validateTaskInput input)).
Proof.
  intros HE. pose proof (createTask_reliable E HE input w) as Hrun. simpl in Hrun.
  eexists. unfold outcome, after. rewrite Hrun. cbn [fst snd].
  rewrite collection_after_save.
  split; [reflexivity|]. split; [reflexivity|]. split; [reflexivity|].
  split; [reflexivity|]. split; [reflexivity|].
  split; [apply TrimFacts.trim_spec|].
  intros Hblank. split; [now apply TrimFacts.trim_blank|now apply blank_title_rejected].
Qed.

Lemma create_trims_unvalidated_witness :
  exists t : Task,
    outcome (createTask Sample.ticking Sample.blankTitle) Sample.watched = Returned t
    /\ title t = EmptyString
    /\ description t = Some "at the shop"
    /\ In "Task title is required" (validateTaskInput Sample.blankTitle).
Proof.
  assert (HE : reliable Sample.ticking) by (intros k; reflexivity).
  destruct (create_trims_unvalidated Sample.ticking Sample.watched Sample.blankTitle HE)
    as (t & H1 & _ & _ & _ & H2 & _ & H3).
  exists t. split; [exact H1|].
  split; [exact (proj1 (H3 eq_refl))|].
  split; [exact H2|exact (proj2 (H3 eq_refl))].
Defined.

(** With a generator that never repeats itself, the next id is carried by
    no task of a collection whose ids the generator handed out; and
    [createTask] keeps the collection such. *)
Lemma next_id_unused (E : Env) (w : World) :
  generatesUniqueIds E -> idsIssued E w ->
  ~ In (idSource E (idCount w)) (List.map id (collection w)).
Proof.
  intros Huniq Hissued Hin. apply in_map_iff in Hin as (t & Hid & Ht).
  destruct (Hissued t Ht) as (k & Hk & Hidk).
  assert (k = idCount w) by (apply Huniq; congruence). lia.
Qed.

Lemma createTask_keeps_issued (E : Env) (w : World) (input : CreateTaskInput) :
  reliable E -> idsIssued E w -> idsIssued E (after (createTask E input) w).
Proof.
  intros HE Hissued t. unfold after.
  pose proof (createTask_reliable E HE input w) as Hrun. simpl in Hrun.
  rewrite Hrun. cbn [snd]. rewrite collection_after_save. simpl idCount.
  intros Ht. apply in_app_or in Ht as [Ht|[<-|[]]].
  - destruct (Hissued t Ht) as (k & Hk & Hid). exists k. split; [lia|exact Hid].
  - exists (idCount w). split; [lia|reflexivity].
Qed.

(** The ids of the sample generator are pairwise distinct. *)
Lemma idOf_unique (i j : nat) : Sample.idOf i = Sample.idOf j -> i = j.
Proof.
  unfold Sample.idOf. intros Hij. injection Hij as Hij. now apply (inj pretty).
Qed.

(** In a collection that got one task appended, a task whose id the previous
    collection did not have can only be the appended one. *)
Lemma unseen_id_is_last (old : list Task) (t : Task) (j : nat) (t' : Task) :
  (old ++ [t])%list !! j = Some t' ->
  ~ In (id t') (List.map id old) ->
  j = length old.
Proof.
  intros Hj Hnew.
  destruct (Nat.lt_ge_cases j (length old)) as [Hlt|Hge].
  - rewrite lookup_app_l in Hj by exact Hlt.
    exfalso. apply Hnew. apply in_map. apply list_elem_of_In.
    now apply list_elem_of_lookup_2 with j.
  - apply lookup_lt_Some in Hj. rewrite length_app in Hj. simpl in Hj. lia.
Qed.

(** When [getAllTasks] after the creation returns the previous collection
    followed by the task [t], the postcondition as the specification words
    it holds exactly when [t] has it. *)
Lemma createPostcondition_iff (E : Env) (w : World) (t : Task) :
  outcome (getAllTasks E) (after (createTask E Sample.buyMilk) w)
  = Returned (collection w ++ [t])%list ->
  createPostcondition E w <-> createdAsWorded (collection w) t.
Proof.
  intros Hread. split.
  - intros (ts & Hts & i & t0 & Hi & Hworded & _).
    rewrite Hread in Hts. injection Hts as <-.
    pose proof Hworded as (_ & _ & _ & Hnew).
    pose proof (unseen_id_is_last _ _ _ _ Hi Hnew) as ->.
    rewrite lookup_app_r in Hi by lia. rewrite Nat.sub_diag in Hi.
    simpl in Hi. injection Hi as <-. exact Hworded.
  - intros Hworded. exists (collection w ++ [t])%list. split; [exact Hread|].
    exists (length (collection w)), t. split; [|split; [exact Hworded|]].
    + rewrite lookup_app_r by lia. now rewrite Nat.sub_diag.
    + intros j t' Hj (_ & _ & _ & Hnew). now apply unseen_id_is_last with t t'.
Qed.

(** C2, as the code has it. Over a storage that accepts its calls,
    [createTask] of the title "Buy milk" followed by [getAllTasks] yields
    the previous collection followed by one new task: its title is
    "Buy milk", it is not completed, its id is the one [generateId] returned,
    its [createdAt] and [updatedAt] are the two successive clock readings of
    the call, hence equal exactly when the clock shows the same instant at
    both; and no other task of the collection has an id that the previous
    collection did not have. With a generator that never returns the same id
    twice, in a state whose stored ids the generator returned: the id of the
    new task is carried by no task of the previous collection, the new task
    is the only task of the collection with that id, the state after the
    call is again such a state, and the postcondition as the specification
    words it holds exactly when the two clock readings are equal. *)
Theorem create_postcondition (E : Env) (w : World) :
  reliable E ->
  exists t : Task,
    outcome (createTask E Sample.buyMilk) w = Returned t
    /\ outcome (getAllTasks E) (after (createTask E Sample.buyMilk) w)
       = Returned (collection w ++ [t])%list
    /\ title t = "Buy milk"
    /\ completed t = false
    /\ id t = idSource E (idCount w)
    /\ createdAt t = clock E (dateCount w)
    /\ updatedAt t = clock E (S (dateCount w))
    /\ (createdAt t = updatedAt t
        <-> clock E (dateCount w) = clock E (S (dateCount w)))
    /\ (forall j t', (collection w ++ [t])%list !! j = Some t' ->
                     ~ In (id t') (List.map id (collection w)) ->
                     j = length (collection w))
    /\ (generatesUniqueIds E -> idsIssued E w ->
        ~ In (id t) (List.map id (collection w))
        /\ (forall j t', (collection w ++ [t])%list !! j = Some t' ->
                         id t' = id t -> j = length (collection w))
        /\ idsIssued E (after (createTask E Sample.buyMilk) w)
        /\ (createPostcondition E w
            <-> clock E (dateCount w) = clock E (S (dateCount w)))).
Proof.
  intros HE.
  pose proof (createTask_keeps_issued E w Sample.buyMilk HE) as Hkeeps.
  pose proof (createPostcondition_iff E w) as Hworded.
  pose proof (createTask_reliable E HE Sample.buyMilk w) as Hrun. simpl in Hrun.
  revert Hkeeps Hworded. unfold outcome, after. rewrite Hrun. cbn [fst snd].
  rewrite (getAllTasks_reliable E HE). cbn [fst].
  rewrite collection_after_save. intros Hkeeps Hworded.
  eexists. split; [reflexivity|]. split; [reflexivity|].
  split; [reflexivity|]. split; [reflexivity|]. split; [reflexivity|].
  split; [reflexivity|]. split; [reflexivity|].
  split; [simpl; tauto|].
  split; [intros j t' Hj Hnew; now apply unseen_id_is_last with (2 := Hnew) (1 := Hj)|].
  intros Huniq Hissued.
  pose proof (next_id_unused E w Huniq Hissued) as Hfresh.
  split; [exact Hfresh|].
  split; [|split; [now apply Hkeeps|]].
  - intros j t' Hj Hid. apply unseen_id_is_last with (1 := Hj).
    rewrite Hid. exact Hfresh.
  - rewrite (Hworded _ eq_refl). unfold createdAsWorded. simpl. tauto.
Qed.

Lemma create_postcondition_witness :
  length (collection Sample.oneTask) = 1
  /\ exists t : Task,
       outcome (getAllTasks Sample.sameMillisecond)
               (after (createTask Sample.sameMillisecond Sample.buyMilk) Sample.oneTask)
       = Returned (collection Sample.oneTask ++ [t])%list
       /\ title t = "Buy milk" /\ completed t = false
       /\ createdAt t = updatedAt t
       /\ ~ In (id t) (List.map id (collection Sample.oneTask))
       /\ createPostcondition Sample.sameMillisecond Sample.oneTask.
Proof.
  split; [reflexivity|].
  assert (HE : reliable Sample.sameMillisecond) by (intros k; reflexivity).
  assert (Huniq : generatesUniqueIds Sample.sameMillisecond)
    by (intros i j; apply idOf_unique).
  assert (Hissued : idsIssued Sample.sameMillisecond Sample.oneTask).
  { intros t [<-|[]]. exists 0. split; [repeat constructor|reflexivity]. }
  destruct (create_postcondition Sample.sameMillisecond Sample.oneTask HE)
    as (t & _ & H1 & H2 & H3 & _ & _ & _ & H4 & _ & H5).
  destruct (H5 Huniq Hissued) as (H6 & _ & _ & H7).
  exists t. split; [exact H1|]. split; [exact H2|]. split; [exact H3|].
  split; [apply H4; reflexivity|]. split; [exact H6|].
  apply H7. reflexivity.
Defined.

(** C2 as worded fails when the clock advances between the two [new Date()]
    of [createTask]: the only task of the collection then has [updatedAt]
    one millisecond after [createdAt]. *)
Lemma create_dates_differ :
  ~ createPostcondition Sample.ticking emptyWorld.
Proof.
  intros (ts & Hts & i & t & Hi & (_ & _ & Hdates & _) & _).
  vm_compute in Hts. injection Hts as <-.
  destruct i as [|i]; simpl in Hi; [|discriminate].
  injection Hi as <-. simpl in Hdates. discriminate.
Qed.

(** ** Clear *)

Lemma getAllTasks_of_empty (E : Env) (w : World) :
  tasksItem w = None -> outcome (getAllTasks E) w = Returned [].
Proof.
  intros Hnone. unfold outcome. rewrite getAllTasks_run.
  destruct (rejects E _); [reflexivity|].
  unfold collection. now rewrite Hnone.
Qed.

Lemma clearAllTasks_succeeds_iff (E : Env) (w : World) :
  outcome (clearAllTasks E) w = Returned tt <-> rejects E (length (storageLog w)) = false.
Proof.
  unfold outcome. rewrite clearAllTasks_run.
  destruct (rejects E _); simpl; split; intros H; try reflexivity; discriminate.
Qed.

Lemma once_each (ls : gset Listener) (l : Listener) :
  count_occ Nat.eq_dec (elements ls) l = if bool_decide (l ∈ ls) then 1 else 0.
Proof.
  case_bool_decide as Hl.
  - apply NoDup_count_occ'; [apply NoDup_ListNoDup, NoDup_elements|].
    apply list_elem_of_In. now apply elem_of_elements.
  - apply count_occ_not_In. intros Hin. apply Hl.
    apply elem_of_elements. now apply list_elem_of_In.
Qed.

(** C7. When [clearAllTasks] returns: [getAllTasks] afterwards returns the
    empty collection; the listener calls made by the call are the members of
    the listener Set, so each subscribed listener was called once and nothing
    else was called; and a second [clearAllTasks], on the store that is now
    empty, returns as well unless AsyncStorage itself rejects the call (that
    the item is already gone is no error), after which the collection is
    still empty. *)
Theorem clear_all_contract (E : Env) (w : World) :
  outcome (clearAllTasks E) w = Returned tt ->
  let w1 := after (clearAllTasks E) w in
  tasksItem w1 = None
  /\ outcome (getAllTasks E) w1 = Returned []
  /\ invokedSince w w1 = elements (listeners w)
  /\ (forall l, count_occ Nat.eq_dec (invokedSince w w1) l
                = if bool_decide (l ∈ listeners w) then 1 else 0)
  /\ listeners w1 = listeners w
  /\ (outcome (clearAllTasks E) w1 = Returned tt
      <-> rejects E (length (storageLog w1)) = false)
  /\ (outcome (clearAllTasks E) w1 = Returned tt ->
      outcome (getAllTasks E) (after (clearAllTasks E) w1) = Returned []).
Proof.
  intros Hok w1.
  assert (Hone : forall v, outcome (clearAllTasks E) v = Returned tt ->
                           tasksItem (after (clearAllTasks E) v) = None
                           /\ invoked (after (clearAllTasks E) v)
                              = (invoked v ++ elements (listeners v))%list
                           /\ listeners (after (clearAllTasks E) v) = listeners v).
  { intros v. unfold outcome, after. rewrite clearAllTasks_run.
    destruct (rejects E _); simpl; [discriminate|]. now repeat split. }
  destruct (Hone w Hok) as (Hitem & Hinv & Hls). fold w1 in Hitem, Hinv, Hls.
  assert (Hsince : invokedSince w w1 = elements (listeners w)).
  { unfold invokedSince. rewrite Hinv. apply drop_app_length. }
  split; [exact Hitem|].
  split; [now apply getAllTasks_of_empty|].
  split; [exact Hsince|].
  split; [intros l; rewrite Hsince; apply once_each|].
  split; [exact Hls|].
  split; [apply clearAllTasks_succeeds_iff|].
  intros Hok2. apply getAllTasks_of_empty. now apply (Hone w1).
Qed.

Lemma clear_all_contract_witness :
  outcome (clearAllTasks Sample.ticking) Sample.oneTask = Returned tt
  /\ outcome (getAllTasks Sample.ticking)
             (after (clearAllTasks Sample.ticking) Sample.oneTask) = Returned []
  /\ count_occ Nat.eq_dec
       (invokedSince Sample.oneTask (after (clearAllTasks Sample.ticking) Sample.oneTask)) 7
     = 1
  /\ outcome (clearAllTasks Sample.ticking)
             (after (clearAllTasks Sample.ticking) Sample.oneTask) = Returned tt.
Proof.
  assert (Hok : outcome (clearAllTasks Sample.ticking) Sample.oneTask = Returned tt)
    by reflexivity.
  destruct (clear_all_contract Sample.ticking Sample.oneTask Hok)
    as (_ & H1 & _ & H2 & _ & H3 & _).
  split; [exact Hok|]. split; [exact H1|].
  split; [exact (H2 7)|].
  apply H3. reflexivity.
Defined.

(** ** Replay: the store against the abstract list model *)

Module ReplayFacts.
Import Replay.

Lemma located_findIndex (x : string) (ts : list Task) :
  located x ts = match findIndex (hasId x) ts with Some _ => true | None => false end.
Proof.
  induction ts as [|t ts IH]; simpl; [reflexivity|]. unfold hasId at 1.
  destruct (String.eqb (id t) x); [reflexivity|].
  rewrite IH. now destruct (findIndex (hasId x) ts).
Qed.

Lemma mergeAt_insert (x : string) (u : TaskUpdates) (now : Date)
      (ts : list Task) (i : nat) (t : Task) :
  findIndex (hasId x) ts = Some i -> ts !! i = Some t ->
  mergeAt x u now ts = <[i := mergeTask t u now]> ts.
Proof.
  revert i. induction ts as [|t0 ts IH]; simpl; intros i Hi Ht; [discriminate|].
  unfold hasId at 1 in Hi. destruct (String.eqb (id t0) x).
  - injection Hi as <-. simpl in Ht. injection Ht as <-. reflexivity.
  - destruct (findIndex (hasId x) ts) as [k|]; simpl in Hi; [|discriminate].
    injection Hi as <-. simpl in Ht. simpl. f_equal. now apply IH.
Qed.

Lemma removeId_filter (x : string) (ts : list Task) :
  removeId x ts = List.filter (fun t => negb (hasId x t)) ts.
Proof.
  induction ts as [|t ts IH]; simpl; [reflexivity|]. unfold hasId at 1.
  destruct (String.eqb (id t) x); simpl; now rewrite IH.
Qed.

Section Simulation.

Variable E : Env.
Hypothesis HE : reliable E.

(** One operation of the program does what one step of the model does. *)
Lemma step_simulated (op : Op) (m : Model) (w : World) :
  models m w ->
  outcome (runOp E op) w = Returned tt
  /\ models (step E m op) (after (runOp E op) w).
Proof.
  intros (Hc & Hi & Hd). unfold outcome, after.
  destruct op as [input|x u|x]; simpl runOp; unfold mbind, M_bind, bind.
  - pose proof (createTask_reliable E HE input w) as Hrun. simpl in Hrun.
    rewrite Hrun. unfold mret, M_ret, ret. cbn [fst snd step].
    split; [reflexivity|]. unfold models.
    rewrite collection_after_save, Hc. simpl. rewrite Hi, Hd. now repeat split.
  - simpl step. rewrite located_findIndex, <- Hc.
    destruct (findIndex (hasId x) (collection w)) as [i|] eqn:Hf.
    + destruct (findIndex_Some _ _ _ Hf) as (t & Ht & _).
      pose proof (updateTask_found E HE x u w i t Hf Ht) as Hrun. simpl in Hrun.
      rewrite Hrun. unfold mret, M_ret, ret. cbn [fst snd].
      split; [reflexivity|]. unfold models.
      rewrite collection_after_save. simpl.
      rewrite (mergeAt_insert x u _ _ i t Hf Ht), Hd. now repeat split.
    + rewrite (updateTask_missing E HE x u w Hf).
      unfold mret, M_ret, ret. cbn [fst snd].
      split; [reflexivity|]. now repeat split.
  - pose proof (deleteTask_reliable E HE x w) as Hrun. simpl in Hrun.
    rewrite Hrun. simpl step. rewrite removeId_filter, <- Hc.
    destruct (Nat.eqb _ _) eqn:Hlen; unfold mret, M_ret, ret; cbn [fst snd].
    + split; [reflexivity|]. unfold models. simpl.
      apply Nat.eqb_eq in Hlen. rewrite filter_same_length in Hlen.
      rewrite (filter_all _ _ Hlen). now repeat split.
    + split; [reflexivity|]. unfold models.
      rewrite collection_after_save. now repeat split.
Qed.

Lemma steps_simulated (ops : list Op) (m : Model) (w : World) :
  models m w ->
  outcome (runOps E ops) w = Returned tt
  /\ models (fold_left (step E) ops m) (after (runOps E ops) w).
Proof.
  revert m w. induction ops as [|op ops IH]; intros m w Hm.
  - split; [reflexivity|exact Hm].
  - destruct (step_simulated op m w Hm) as [Hout Hnext].
    specialize (IH (step E m op) (after (runOp E op) w) Hnext).
    unfold outcome, after, runOps in *. simpl forEach.
    unfold mbind, M_bind, bind.
    destruct (runOp E op w) as [[[]|e] w1]; simpl in Hout; [|discriminate].
    exact IH.
Qed.

End Simulation.

End ReplayFacts.

(** C1. Over a storage that accepts its calls, and from a store that holds
    no task: after any sequence of [createTask], [updateTask] and
    [deleteTask] calls, run one after the other, every call has returned and
    [getAllTasks] returns the very list that the abstract model holds after
    replaying the sequence from the empty collection, hence the same
    multiset of tasks: none lost, none twice. *)
Theorem sequential_replay (E : Env) (ops : list Replay.Op) (w : World) :
  reliable E ->
  collection w = [] ->
  let final := Replay.replay E (idCount w) (dateCount w) ops in
  outcome (Replay.runOps E ops) w = Returned tt
  /\ outcome (getAllTasks E) (after (Replay.runOps E ops) w)
     = Returned (Replay.m_tasks final)
  /\ Permutation (collection (after (Replay.runOps E ops) w)) (Replay.m_tasks final).
Proof.
  intros HE Hw final.
  assert (Hstart : models (Replay.emptyAt (idCount w) (dateCount w)) w)
    by (repeat split; exact Hw).
  destruct (ReplayFacts.steps_simulated E HE ops _ w Hstart) as (Hout & Hc & _ & _).
  fold (Replay.replay E (idCount w) (dateCount w) ops) in Hc. fold final in Hc.
  split; [exact Hout|].
  split; [unfold outcome; rewrite (getAllTasks_reliable E HE); simpl; now rewrite Hc|].
  now rewrite Hc.
Qed.

Lemma sequential_replay_witness :
  outcome (getAllTasks Sample.ticking)
          (after (Replay.runOps Sample.ticking Sample.session) Sample.watched)
  = Returned [ mkTask "t0" "Buy milk" None true None [] 1000%Z 1004%Z ].
Proof.
  assert (HE : reliable Sample.ticking) by (intros k; reflexivity).
  assert (Hw : collection Sample.watched = []) by reflexivity.
  destruct (sequential_replay Sample.ticking Sample.session Sample.watched HE Hw)
    as (_ & H & _).
  exact H.
Defined.

(** ** The tag registry *)

Section TagRuns.

Variable E : Env.
Hypothesis HE : reliable E.

Lemma getAllTags_reliable (w : World) :
  getAllTags E w = (Returned (registry w), logged (GetItem TAGS_STORAGE_KEY) w).
Proof.
  unfold getAllTags, tryCatch, mbind, M_bind, bind, getTagsItem, storageCall.
  rewrite HE. unfold registry, logged. simpl. now destruct (tagsItem w).
Qed.

Lemma saveTags_reliable (tgs : list Tag) (w : World) :
  saveTags E tgs w =
  (Returned tt, set_tagsItem (Some tgs) (logged (SetItem TAGS_STORAGE_KEY) w)).
Proof.
  unfold saveTags, tryCatch, setTagsItem, storageCall. now rewrite HE.
Qed.

Lemma createOrGetTag_existing (name : string) (w : World) (tag : Tag) :
  List.find (sameTagName name) (registry w) = Some tag ->
  createOrGetTag E name w = (Returned tag, logged (GetItem TAGS_STORAGE_KEY) w).
Proof.
  intros Hfind. unfold createOrGetTag, mbind, M_bind, bind.
  rewrite getAllTags_reliable. fold (sameTagName name). now rewrite Hfind.
Qed.

Lemma createOrGetTag_new (name : string) (w : World) :
  List.find (sameTagName name) (registry w) = None ->
  let t := mkTag (idSource E (idCount w)) (JsString.trim name)
                 (getNextColor (registry w)) in
  createOrGetTag E name w =
  (Returned t,
   set_tagsItem (Some (registry w ++ [t])%list)
     (logged (SetItem TAGS_STORAGE_KEY)
        (set_idCount (S (idCount w))
           (logged (GetItem TAGS_STORAGE_KEY) w)))).
Proof.
  intros Hfind t. unfold createOrGetTag, mbind, M_bind, bind.
  rewrite getAllTags_reliable. fold (sameTagName name). rewrite Hfind.
  unfold generateId. now rewrite saveTags_reliable.
Qed.

End TagRuns.

Lemma used_color (c : string) (reg : list Tag) :
  bool_decide (c ∈ (list_to_set (List.map tag_color reg) : gset string)) = true
  <-> In c (List.map tag_color reg).
Proof.
  rewrite bool_decide_eq_true, elem_of_list_to_set. apply list_elem_of_In.
Qed.

Lemma filter_head {A} (p : A -> bool) (xs : list A) (x : A) (rest : list A) :
  List.filter p xs = x :: rest -> In x xs /\ p x = true.
Proof.
  intros H. apply (filter_In p x xs). rewrite H. now left.
Qed.

(** While a palette color is unused, [getNextColor] answers an unused
    palette color. *)
Lemma getNextColor_unused (reg : list Tag) :
  (exists c, In c TAG_COLORS /\ ~ In c (List.map tag_color reg)) ->
  In (getNextColor reg) TAG_COLORS /\ ~ In (getNextColor reg) (List.map tag_color reg).
Proof.
  intros (c & Hc & Hfree). unfold getNextColor.
  destruct (List.filter _ TAG_COLORS) as [|c0 rest] eqn:Hf.
  - exfalso. assert (Hin : In c []); [|destruct Hin].
    rewrite <- Hf. apply filter_In. split; [exact Hc|].
    apply Bool.negb_true_iff, Bool.not_true_is_false.
    intros Hused. apply Hfree. now apply used_color.
  - apply filter_head in Hf as [Hin Hp]. split; [exact Hin|].
    intros Hused. apply used_color in Hused. rewrite Hused in Hp. discriminate.
Qed.

(** Once every palette color is used, [getNextColor] cycles through the
    palette by the number of tags. *)
Lemma getNextColor_cycle (reg : list Tag) :
  (forall c, In c TAG_COLORS -> In c (List.map tag_color reg)) ->
  getNextColor reg = nth (length reg mod 12) TAG_COLORS "".
Proof.
  intros Hall. unfold getNextColor.
  destruct (List.filter _ TAG_COLORS) as [|c0 rest] eqn:Hf; [reflexivity|].
  apply filter_head in Hf as [Hin Hp]. apply Hall, used_color in Hin.
  rewrite Hin in Hp. discriminate.
Qed.

(** [find] answers a tag exactly when the registry holds a tag of that name. *)
Lemma existing_tag_found (name : string) (reg : list Tag) :
  (exists tag, In tag reg
               /\ JsString.toLowerCase (tag_name tag)
                  = JsString.toLowerCase (JsString.trim name))
  <-> (exists tag, List.find (sameTagName name) reg = Some tag).
Proof.
  split.
  - intros (tag & Hin & Hname).
    destruct (List.find (sameTagName name) reg) as [found|] eqn:Hfind; [now exists found|].
    pose proof (find_none _ _ Hfind tag Hin) as Hno.
    unfold sameTagName in Hno. rewrite Hname, String.eqb_refl in Hno. discriminate.
  - intros (tag & Hfind). apply find_some in Hfind as [Hin Hsame].
    exists tag. split; [exact Hin|now apply String.eqb_eq].
Qed.

(** C8, as the code has it. Over a storage that accepts its calls:
    when the registry holds a tag whose name, in lower case, is the trimmed
    input in lower case, [createOrGetTag] returns the first such tag and
    writes nothing; otherwise it persists the registry extended with a new
    tag and returns that tag, whose name is the trimmed input and whose
    color is a palette color. The color differs from the color of every tag
    of the registry as long as some palette color is unused; once the twelve
    palette colors are all in use, the color is the palette color at index
    (number of tags) modulo 12, which some tag of the registry has already. *)
Theorem tag_registry (E : Env) (w : World) (name : string) :
  reliable E ->
  (forall tag, List.find (sameTagName name) (registry w) = Some tag ->
     In tag (registry w)
     /\ JsString.toLowerCase (tag_name tag)
        = JsString.toLowerCase (JsString.trim name)
     /\ outcome (createOrGetTag E name) w = Returned tag
     /\ tagsItem (after (createOrGetTag E name) w) = tagsItem w
     /\ callsSince w (after (createOrGetTag E name) w) = [GetItem TAGS_STORAGE_KEY])
  /\ (List.find (sameTagName name) (registry w) = None ->
      exists t : Tag,
        outcome (createOrGetTag E name) w = Returned t
        /\ tagsItem (after (createOrGetTag E name) w) = Some (registry w ++ [t])%list
        /\ tag_name t = JsString.trim name
        /\ tag_id t = idSource E (idCount w)
        /\ ((exists c, In c TAG_COLORS /\ ~ In c (List.map tag_color (registry w))) ->
            In (tag_color t) TAG_COLORS
            /\ forall t', In t' (registry w) -> tag_color t' <> tag_color t)
        /\ ((forall c, In c TAG_COLORS -> In c (List.map tag_color (registry w))) ->
            tag_color t = nth (length (registry w) mod 12) TAG_COLORS ""
            /\ exists t', In t' (registry w) /\ tag_color t' = tag_color t)).
Proof.
  intros HE. split.
  - intros tag Hfind. unfold outcome, after, callsSince.
    rewrite (createOrGetTag_existing E HE name w tag Hfind). cbn [fst snd].
    apply find_some in Hfind as Hsome. destruct Hsome as [Hin Hsame].
    split; [exact Hin|]. split; [now apply String.eqb_eq|].
    split; [reflexivity|]. split; [reflexivity|].
    simpl. apply drop_app_length.
  - intros Hfind. pose proof (createOrGetTag_new E HE name w Hfind) as Hrun.
    simpl in Hrun. eexists. unfold outcome, after. rewrite Hrun. cbn [fst snd].
    split; [reflexivity|]. split; [reflexivity|]. split; [reflexivity|].
    split; [reflexivity|]. simpl tag_color. split.
    + intros Hfree. destruct (getNextColor_unused _ Hfree) as [Hpal Hnew].
      split; [exact Hpal|]. intros t' Ht' Heq. apply Hnew. rewrite <- Heq.
      now apply in_map.
    + intros Hall. rewrite (getNextColor_cycle _ Hall). split; [reflexivity|].
      assert (Hin : In (nth (length (registry w) mod 12) TAG_COLORS "") TAG_COLORS).
      { apply nth_In. simpl length. apply Nat.mod_upper_bound. discriminate. }
      apply Hall, in_map_iff in Hin as (t' & Hc & Ht'). now exists t'.
Qed.

Lemma tag_registry_witness :
  (exists tag, outcome (createOrGetTag Sample.ticking "  WORK ") TagSample.threeTags
               = Returned tag /\ tag_name tag = "work")
  /\ (exists t, outcome (createOrGetTag Sample.ticking " chores") TagSample.threeTags
                = Returned t
                /\ tag_name t = "chores"
                /\ forall t', In t' (registry TagSample.threeTags) ->
                              tag_color t' <> tag_color t).
Proof.
  assert (HE : reliable Sample.ticking) by (intros k; reflexivity).
  split.
  - destruct (tag_registry Sample.ticking TagSample.threeTags "  WORK " HE) as [Hold _].
    exists (mkTag "t1" "work" "#4ECDC4").
    split; [|reflexivity]. apply (Hold _ eq_refl).
  - destruct (tag_registry Sample.ticking TagSample.threeTags " chores" HE) as [_ Hnew].
    destruct (Hnew eq_refl) as (t & H1 & _ & H2 & _ & H3 & _).
    exists t. split; [exact H1|]. split; [exact H2|].
    apply H3. exists "#3D5A80". split.
    + vm_compute. tauto.
    + vm_compute. intros [H|[H|[H|[]]]]; discriminate.
Defined.

(** C8 as worded fails once the palette is used up: the thirteenth tag gets
    the color of the first. *)
Lemma thirteenth_tag_color_reused :
  ~ newTagColorFresh Sample.ticking TagSample.twelveTags "thirteenth".
Proof.
  intros H. destruct (H eq_refl) as (t & Hout & Hfresh).
  vm_compute in Hout. injection Hout as <-.
  apply (Hfresh (mkTag "t0" "home" "#FF6B6B")); [|reflexivity].
  vm_compute. now left.
Qed.

(** ** The derived view *)

Module ViewFacts.
Import View ViewSpec.

Lemma filter_both {A} (p q : A -> bool) (xs : list A) :
  List.filter (fun x => p x && q x) xs = List.filter q (List.filter p xs).
Proof.
  induction xs as [|x xs IH]; simpl; [reflexivity|].
  destruct (p x); simpl; [|exact IH].
  destruct (q x); now rewrite IH.
Qed.

(** The one pass of [filteredTasks] keeps what the two passes of the
    specification keep. *)
Lemma keepTask_split (st : Status) (search : option string) (tagIds : option (list string))
      (t : Task) :
  keepTask (mkFilter (toTaskStatus st) search tagIds) t
  = matchesStatus st t && matchesSearch (effectiveSearch search) t.
Proof.
  unfold keepTask, effectiveSearch; simpl.
  assert (Hst : match toTaskStatus st with
                | StatusActive => completed t
                | StatusCompleted => negb (completed t)
                | _ => false
                end = negb (matchesStatus st t))
    by (destruct st; simpl; now rewrite ?Bool.negb_involutive).
  rewrite Hst. destruct (matchesStatus st t); simpl; [|reflexivity].
  destruct search as [q|]; [|reflexivity].
  destruct (JsString.truthy (JsString.trim q)); [|reflexivity].
  unfold matchesSearch, containsIgnoringCase.
  destruct (JsString.includes (JsString.toLowerCase (title t)) _); simpl; [reflexivity|].
  destruct (description t) as [d|]; simpl; [|reflexivity].
  now destruct (JsString.includes _ _).
Qed.

Lemma filteredTasks_split (st : Status) (search : option string)
      (tagIds : option (list string)) (tasks : list Task) :
  filteredTasks tasks (mkFilter (toTaskStatus st) search tagIds)
  = List.filter (matchesSearch (effectiveSearch search))
                (List.filter (matchesStatus st) tasks).
Proof.
  unfold filteredTasks. rewrite <- filter_both.
  apply filter_ext. intros t. apply keepTask_split.
Qed.

(** *** The sort *)

Lemma placeNewest_Forall (P : Task -> Prop) (t : Task) (ts : list Task) :
  P t -> List.Forall P ts -> List.Forall P (placeNewest t ts).
Proof.
  intros Ht Hts. induction Hts as [|u ts Hu Hts IH]; simpl.
  - now constructor.
  - destruct (createdAt u <=? createdAt t)%Z; repeat constructor; assumption.
Qed.

Lemma newestFirst_Forall (P : Task -> Prop) (ts : list Task) :
  List.Forall P ts -> List.Forall P (newestFirst ts).
Proof.
  intros H. induction H as [|t ts Ht Hts IH]; simpl; [constructor|].
  now apply placeNewest_Forall.
Qed.

Lemma insert_incomplete (x : Task) (inc com : list Task) :
  completed x = false ->
  List.Forall (fun t => completed t = false) inc ->
  List.Forall (fun t => completed t = true) com ->
  insertBy compareTasks x (inc ++ com) = (placeNewest x inc ++ com)%list.
Proof.
  intros Hx Hinc Hcom. induction Hinc as [|y inc Hy Hinc IH]; simpl.
  - destruct Hcom as [|y com Hy Hcom]; simpl; [reflexivity|].
    unfold compareTasks. now rewrite Hx, Hy.
  - unfold compareTasks at 1. rewrite Hx, Hy. simpl.
    replace (createdAt y - createdAt x <=? 0)%Z with (createdAt y <=? createdAt x)%Z
      by (destruct (Z.leb_spec (createdAt y) (createdAt x));
          destruct (Z.leb_spec (createdAt y - createdAt x) 0); lia || reflexivity).
    destruct (createdAt y <=? createdAt x)%Z; [reflexivity|].
    simpl. now rewrite IH.
Qed.

Lemma insert_completed (x : Task) (inc com : list Task) :
  completed x = true ->
  List.Forall (fun t => completed t = false) inc ->
  List.Forall (fun t => completed t = true) com ->
  insertBy compareTasks x (inc ++ com) = (inc ++ placeNewest x com)%list.
Proof.
  intros Hx Hinc Hcom. induction Hinc as [|y inc Hy Hinc IH]; simpl.
  - induction Hcom as [|y com Hy Hcom IH]; simpl; [reflexivity|].
    unfold compareTasks at 1. rewrite Hx, Hy. simpl.
    replace (createdAt y - createdAt x <=? 0)%Z with (createdAt y <=? createdAt x)%Z
      by (destruct (Z.leb_spec (createdAt y) (createdAt x));
          destruct (Z.leb_spec (createdAt y - createdAt x) 0); lia || reflexivity).
    destruct (createdAt y <=? createdAt x)%Z; [reflexivity|].
    now rewrite IH.
  - unfold compareTasks at 1. rewrite Hx, Hy. simpl. now rewrite IH.
Qed.

(** The stable sort by [compareTasks] puts the incomplete tasks, newest
    first, in front of the completed tasks, newest first. *)
Lemma sortBy_arrange (ts : list Task) : sortBy compareTasks ts = arrange ts.
Proof.
  unfold arrange. induction ts as [|x ts IH]; simpl; [reflexivity|].
  rewrite IH.
  assert (Hinc : List.Forall (fun t => completed t = false)
                   (newestFirst (List.filter (fun t => negb (completed t)) ts))).
  { apply newestFirst_Forall, List.Forall_forall. intros t Ht.
    apply filter_In in Ht as [_ Ht]. now apply Bool.negb_true_iff. }
  assert (Hcom : List.Forall (fun t => completed t = true)
                   (newestFirst (List.filter completed ts))).
  { apply newestFirst_Forall, List.Forall_forall. intros t Ht.
    now apply filter_In in Ht as [_ Ht]. }
  destruct (completed x) eqn:Hx; simpl.
  - now apply insert_completed.
  - now apply insert_incomplete.
Qed.

End ViewFacts.

Module ViewOrder.
Import View ViewSpec.

Lemma placeNewest_perm (t : Task) (ts : list Task) :
  Permutation (placeNewest t ts) (t :: ts).
Proof.
  induction ts as [|u ts IH]; simpl; [reflexivity|].
  destruct (createdAt u <=? createdAt t)%Z; [reflexivity|].
  rewrite IH. apply perm_swap.
Qed.

Lemma newestFirst_perm (ts : list Task) : Permutation (newestFirst ts) ts.
Proof.
  induction ts as [|t ts IH]; simpl; [reflexivity|].
  rewrite placeNewest_perm. now constructor.
Qed.

Lemma filter_partition_perm {A} (p : A -> bool) (xs : list A) :
  Permutation (List.filter (fun x => negb (p x)) xs ++ List.filter p xs) xs.
Proof.
  induction xs as [|x xs IH]; simpl; [reflexivity|].
  destruct (p x); simpl.
  - rewrite <- Permutation_middle. now constructor.
  - now constructor.
Qed.

Lemma arrange_perm (ts : list Task) : Permutation (arrange ts) ts.
Proof.
  unfold arrange. rewrite !newestFirst_perm. apply filter_partition_perm.
Qed.

Lemma placeNewest_sorted (t : Task) (ts : list Task) :
  StronglySorted newer ts -> StronglySorted newer (placeNewest t ts).
Proof.
  induction 1 as [|u ts Hts IH Hu]; simpl.
  - repeat constructor.
  - destruct (Z.leb_spec (createdAt u) (createdAt t)) as [Hle|Hlt].
    + constructor; [now constructor|].
      constructor; [exact Hle|].
      eapply List.Forall_impl; [|exact Hu]. unfold newer. intros v Hv. lia.
    + constructor; [exact IH|].
      apply ViewFacts.placeNewest_Forall; [unfold newer; lia|exact Hu].
Qed.

Lemma newestFirst_sorted (ts : list Task) : StronglySorted newer (newestFirst ts).
Proof.
  induction ts as [|t ts IH]; simpl; [constructor|].
  now apply placeNewest_sorted.
Qed.

(** Within a list of tasks that agree on [completed], newest first is the
    order of the view. *)
Lemma group_sorted (c : bool) (ts : list Task) :
  List.Forall (fun t => completed t = c) ts ->
  StronglySorted newer ts -> StronglySorted mayPrecede ts.
Proof.
  intros Hall Hs. induction Hs as [|t ts Hs IH Ht]; [constructor|].
  apply Forall_cons_1 in Hall as [Hc Hall].
  constructor; [now apply IH|].
  apply List.Forall_forall. intros u Hu. right.
  rewrite List.Forall_forall in Ht, Hall. split.
  - rewrite Hc. symmetry. now apply Hall.
  - now apply Ht.
Qed.

Lemma arrange_sorted (ts : list Task) : StronglySorted mayPrecede (arrange ts).
Proof.
  unfold arrange.
  assert (Hinc : List.Forall (fun t => completed t = false)
                   (newestFirst (List.filter (fun t => negb (completed t)) ts))).
  { apply ViewFacts.newestFirst_Forall, List.Forall_forall. intros t Ht.
    apply filter_In in Ht as [_ Ht]. now apply Bool.negb_true_iff. }
  assert (Hcom : List.Forall (fun t => completed t = true)
                   (newestFirst (List.filter completed ts))).
  { apply ViewFacts.newestFirst_Forall, List.Forall_forall. intros t Ht.
    now apply filter_In in Ht as [_ Ht]. }
  apply StronglySorted_app_2.
  - intros a b Ha Hb. left. rewrite List.Forall_forall in Hinc, Hcom. split.
    + apply Hinc. now apply list_elem_of_In.
    + apply Hcom. now apply list_elem_of_In.
  - apply (group_sorted false); [exact Hinc|apply newestFirst_sorted].
  - apply (group_sorted true); [exact Hcom|apply newestFirst_sorted].
Qed.

Lemma filter_perm {A} (p : A -> bool) (xs ys : list A) :
  Permutation xs ys -> Permutation (List.filter p xs) (List.filter p ys).
Proof.
  induction 1 as [|x xs ys H IH|x y xs|xs ys zs H1 IH1 H2 IH2]; simpl.
  - reflexivity.
  - destruct (p x); [now constructor|exact IH].
  - destruct (p x), (p y); try reflexivity. apply perm_swap.
  - now transitivity (List.filter p ys).
Qed.

End ViewOrder.

Section ViewExample.
Import View ViewSpec.

Variables A B C : Task.
Hypothesis HA : completed A = false.
Hypothesis HB : completed B = true.
Hypothesis HC : completed C = false.
Hypothesis HAB : (createdAt A < createdAt B)%Z.
Hypothesis HBC : (createdAt B < createdAt C)%Z.

Variable raw : list Task.
Hypothesis Hraw : Permutation [A; B; C] raw.

Lemma example_incomplete :
  newestFirst (List.filter (fun t => negb (completed t)) raw) = [C; A].
Proof using HA HB HC HAB HBC Hraw.
  pose proof (ViewOrder.filter_perm (fun t => negb (completed t)) _ _ Hraw) as Hp.
  simpl in Hp. rewrite HA, HB, HC in Hp. simpl in Hp.
  apply Permutation_length_2_inv in Hp as [-> | ->]; simpl.
  - destruct (Z.leb_spec (createdAt C) (createdAt A)); [lia|reflexivity].
  - destruct (Z.leb_spec (createdAt A) (createdAt C)); [reflexivity|lia].
Qed.

Lemma example_completed : List.filter completed raw = [B].
Proof using HA HB HC Hraw.
  pose proof (ViewOrder.filter_perm completed _ _ Hraw) as Hp.
  simpl in Hp. rewrite HA, HB, HC in Hp.
  now apply Permutation_length_1_inv in Hp.
Qed.

Lemma example_views (tagIds : option (list string)) :
  sortedFilteredTasks raw (mkFilter StatusAll None tagIds) = [C; A; B]
  /\ sortedFilteredTasks raw (mkFilter StatusCompleted None tagIds) = [B].
Proof using HA HB HC HAB HBC Hraw.
  unfold sortedFilteredTasks. rewrite !ViewFacts.sortBy_arrange. split.
  - rewrite (ViewFacts.filteredTasks_split All None tagIds). simpl effectiveSearch.
    rewrite !filter_all by reflexivity.
    unfold arrange. now rewrite example_incomplete, example_completed.
  - rewrite (ViewFacts.filteredTasks_split Completed None tagIds). simpl effectiveSearch.
    rewrite (filter_all (matchesSearch None)) by reflexivity.
    change (List.filter (matchesStatus Completed) raw) with (List.filter completed raw).
    rewrite example_completed. unfold arrange. simpl. now rewrite HB.
Qed.

End ViewExample.

(** C3, as the code has it. For every collection, status filter (all,
    active, completed) and search string, the visible sequence is the result
    of (1) keeping the tasks that match the status, (2) keeping the tasks
    whose title or description contains the search string, letter case
    ignored, when there is a search string and it is not blank, a string that
    is empty once trimmed filtering nothing, (3) sorting with the completed
    tasks after the incomplete ones and, within each group, the newest
    [createdAt] first: it is a permutation of the kept tasks, in that order.
    For A (incomplete, created first), B (completed, created second) and C
    (incomplete, created last), in whatever order the collection holds them,
    the "all" view is [C; A; B] and the "completed" view is [B]. *)
Theorem derived_view (st : ViewSpec.Status) (search : option string)
        (tagIds : option (list string)) (tasks : list Task)
        (A B C : Task) (raw : list Task) :
  completed A = false -> completed B = true -> completed C = false ->
  (createdAt A < createdAt B)%Z -> (createdAt B < createdAt C)%Z ->
  Permutation [A; B; C] raw ->
  let f := mkFilter (ViewSpec.toTaskStatus st) search tagIds in
  let kept := List.filter (ViewSpec.matchesSearch (effectiveSearch search))
                          (List.filter (ViewSpec.matchesStatus st) tasks) in
  View.sortedFilteredTasks tasks f = ViewSpec.view st (effectiveSearch search) tasks
  /\ (effectiveSearch search = search ->
      View.sortedFilteredTasks tasks f = ViewSpec.view st search tasks)
  /\ Permutation (View.sortedFilteredTasks tasks f) kept
  /\ StronglySorted ViewSpec.mayPrecede (View.sortedFilteredTasks tasks f)
  /\ View.sortedFilteredTasks raw (mkFilter StatusAll None tagIds) = [C; A; B]
  /\ View.sortedFilteredTasks raw (mkFilter StatusCompleted None tagIds) = [B].
Proof.
  intros HA HB HC HAB HBC Hraw f kept.
  assert (Hview : View.sortedFilteredTasks tasks f
                  = ViewSpec.view st (effectiveSearch search) tasks).
  { unfold View.sortedFilteredTasks, ViewSpec.view, f.
    now rewrite ViewFacts.sortBy_arrange, ViewFacts.filteredTasks_split. }
  split; [exact Hview|].
  split; [intros Heq; now rewrite Hview, Heq|].
  split; [rewrite Hview; apply ViewOrder.arrange_perm|].
  split; [rewrite Hview; apply ViewOrder.arrange_sorted|].
  apply (example_views A B C HA HB HC HAB HBC raw Hraw).
Qed.

Lemma derived_view_witness :
  View.sortedFilteredTasks
    [ViewSample.taskA; ViewSample.taskB; ViewSample.taskC; ViewSample.milk]
    (mkFilter StatusActive (Some "Ai") None)
  = [ViewSample.taskA]
  /\ View.sortedFilteredTasks [ViewSample.taskB; ViewSample.taskC; ViewSample.taskA]
                              (mkFilter StatusAll None None)
     = [ViewSample.taskC; ViewSample.taskA; ViewSample.taskB]
  /\ View.sortedFilteredTasks [ViewSample.taskB; ViewSample.taskC; ViewSample.taskA]
                              (mkFilter StatusCompleted None None)
     = [ViewSample.taskB].
Proof.
  assert (Hraw : Permutation [ViewSample.taskA; ViewSample.taskB; ViewSample.taskC]
                             [ViewSample.taskB; ViewSample.taskC; ViewSample.taskA]).
  { eapply perm_trans; [apply perm_swap|apply perm_skip, perm_swap]. }
  destruct (derived_view ViewSpec.Active (Some "Ai") None
              [ViewSample.taskA; ViewSample.taskB; ViewSample.taskC; ViewSample.milk]
              ViewSample.taskA ViewSample.taskB ViewSample.taskC
              [ViewSample.taskB; ViewSample.taskC; ViewSample.taskA]
              eq_refl eq_refl eq_refl eq_refl eq_refl Hraw)
    as (H1 & _ & _ & _ & H2 & H3).
  split; [exact H1|]. split; [exact H2|exact H3].
Defined.

(** C3 as worded fails for a blank search string: the program searches for
    nothing and shows the task, while no title holds two spaces in a row. *)
Lemma blank_search_filters_nothing :
  ~ viewAsWorded ViewSpec.All ViewSample.twoSpaces [ViewSample.milk].
Proof.
  unfold viewAsWorded. vm_compute. discriminate.
Qed.

(** ** Runs on concrete inputs *)

Example trim_runs :
  JsString.trim "  Buy milk " = "Buy milk"
  /\ JsString.trim (String (ascii_of_nat 160) " a  b ") = "a  b"
  /\ JsString.toLowerCase "Buy MILK" = "buy milk"
  /\ JsString.includes "buy milk" "y m" = true
  /\ JsString.includes "buy milk" "" = true
  /\ JsString.includes "buy milk" "milky" = false.
Proof. repeat split. Qed.

Example validateTaskInput_runs :
  validateTaskInput (mkInput "" None None None) = ["Task title is required"]
  /\ validateTaskInput (mkInput "ok" None None None) = [].
Proof. split; reflexivity. Qed.

Example getNextColor_runs :
  getNextColor [] = "#FF6B6B"
  /\ getNextColor (registry TagSample.threeTags) = "#96CEB4"
  /\ getNextColor (registry TagSample.twelveTags) = "#FF6B6B".
Proof. repeat split; vm_compute; reflexivity. Qed.

(** A read that AsyncStorage rejects looks like an empty store: the task
    created next is then saved alone. *)
Example rejected_read_masks_tasks :
  let E := mkEnv (fun k => (2000 + Z.of_nat k)%Z) Sample.idOf
                 (fun k => Nat.eqb k 0) (fun _ => false) in
  let w := set_storageLog [] Sample.oneTask in
  List.map title (collection w) = ["Buy milk"]
  /\ List.map title (collection (after (createTask E Sample.blankTitle) w)) = [""].
Proof. split; reflexivity. Qed.

(** A listener that throws is called like the others and stops nothing. *)
Example throwing_listener_contained :
  let E := mkEnv (fun k => (2000 + Z.of_nat k)%Z) Sample.idOf
                 (fun _ => false) (fun l => Nat.eqb l 4) in
  let w := after (clearAllTasks E) Sample.oneTask in
  outcome (clearAllTasks E) Sample.oneTask = Returned tt
  /\ invokedSince Sample.oneTask w = [4; 7]
  /\ console w = ["TaskService listener error"].
Proof. repeat split. Qed.

(** * More of the store *)

(** ** Reading and saving *)

Lemma log_after_write (E : Env) (doc : option (list StoredTask)) (c : StorageCall)
      (w : World) :
  length (storageLog (notified E (set_tasksItem doc (logged c w))))
  = S (length (storageLog w)).
Proof. simpl. now rewrite length_app, Nat.add_1_r. Qed.

Lemma log_after_call (c : StorageCall) (w : World) :
  length (storageLog (logged c w)) = S (length (storageLog w)).
Proof. simpl. now rewrite length_app, Nat.add_1_r. Qed.

Lemma log_after_complaint (msg : string) (c : StorageCall) (w : World) :
  length (storageLog (complained msg (logged c w))) = S (length (storageLog w)).
Proof. simpl. now rewrite length_app, Nat.add_1_r. Qed.

(** [getAllTasks] returns in every case and changes nothing that is stored:
    it answers the stored collection, or the empty one, with a message on
    the console, when AsyncStorage rejects the read. *)
Theorem getAllTasks_degrades (E : Env) (w : World) :
  quiet w (after (getAllTasks E) w)
  /\ (rejects E (length (storageLog w)) = false ->
      outcome (getAllTasks E) w = Returned (collection w)
      /\ console (after (getAllTasks E) w) = console w)
  /\ (rejects E (length (storageLog w)) = true ->
      outcome (getAllTasks E) w = Returned []
      /\ console (after (getAllTasks E) w)
         = (console w ++ ["Error retrieving tasks:"])%list).
Proof.
  split; [apply getAllTasks_quiet|].
  unfold outcome, after. rewrite getAllTasks_run.
  split; intros Hr; rewrite Hr; now split.
Qed.

(** What [saveTasks] has saved is what [getAllTasks] reads next, whatever
    the listeners do: every subscribed listener has been called once, one
    console message stands for each listener that threw, and the save has
    returned. *)
Theorem save_then_read (E : Env) (ts : list Task) (w : World) :
  rejects E (length (storageLog w)) = false ->
  rejects E (S (length (storageLog w))) = false ->
  let w1 := after (saveTasks E ts) w in
  outcome (saveTasks E ts) w = Returned tt
  /\ outcome (getAllTasks E) w1 = Returned ts
  /\ invokedSince w w1 = elements (listeners w)
  /\ console w1 = (console w ++ listenerErrors E (elements (listeners w)))%list.
Proof.
  intros Hwrite Hread w1. unfold w1, outcome, after.
  rewrite saveTasks_run, Hwrite. cbn [fst snd].
  rewrite getAllTasks_run, log_after_write, Hread.
  cbn [fst]. rewrite collection_after_save.
  split; [reflexivity|]. split; [reflexivity|]. split; [|reflexivity].
  unfold invokedSince. simpl. apply drop_app_length.
Qed.

Lemma save_then_read_witness :
  let w1 := after (saveTasks Sample.listenerFails [ViewSample.taskB; ViewSample.taskA])
                  Sample.oneTask in
  outcome (getAllTasks Sample.listenerFails) w1
  = Returned [ViewSample.taskB; ViewSample.taskA]
  /\ invokedSince Sample.oneTask w1 = [4; 7]
  /\ console w1 = ["TaskService listener error"].
Proof.
  intros w1.
  destruct (save_then_read Sample.listenerFails [ViewSample.taskB; ViewSample.taskA]
              Sample.oneTask eq_refl eq_refl) as (_ & H1 & H2 & H3).
  split; [exact H1|]. split; [exact H2|exact H3].
Defined.

(** ** Creating while AsyncStorage rejects a call *)

(** When AsyncStorage rejects the write of [createTask], the call throws the
    storage error and the store is as before: the stored document is
    untouched and no listener is called. The id and the two clock readings
    are consumed all the same. *)
Theorem createTask_write_rejected (E : Env) (input : CreateTaskInput) (w : World) :
  rejects E (S (length (storageLog w))) = true ->
  outcome (createTask E input) w = Thrown "AsyncStorage error"
  /\ tasksItem (after (createTask E input) w) = tasksItem w
  /\ invoked (after (createTask E input) w) = invoked w
  /\ idCount (after (createTask E input) w) = S (idCount w)
  /\ dateCount (after (createTask E input) w) = S (S (dateCount w)).
Proof.
  intros Hwrite. unfold outcome, after, createTask, mbind, M_bind, bind, generateId, newDate.
  rewrite getAllTasks_run. simpl storageLog.
  destruct (rejects E (length (storageLog w))); rewrite saveTasks_run; simpl storageLog;
    rewrite length_app, Nat.add_1_r, Hwrite; now repeat split.
Qed.

Lemma createTask_write_rejected_witness :
  outcome (createTask Sample.failing Sample.buyMilk) Sample.oneTask
  = Thrown "AsyncStorage error"
  /\ tasksItem (after (createTask Sample.failing Sample.buyMilk) Sample.oneTask)
     = tasksItem Sample.oneTask.
Proof.
  destruct (createTask_write_rejected Sample.failing Sample.buyMilk Sample.oneTask eq_refl)
    as (H1 & H2 & _).
  split; [exact H1|exact H2].
Defined.

(** When AsyncStorage rejects the read of [createTask] and accepts its write,
    the call returns as if all were well and the stored collection is the
    new task alone: the tasks that were stored are overwritten. *)
Theorem createTask_read_rejected (E : Env) (input : CreateTaskInput) (w : World) :
  rejects E (length (storageLog w)) = true ->
  rejects E (S (length (storageLog w))) = false ->
  exists t : Task,
    outcome (createTask E input) w = Returned t
    /\ collection (after (createTask E input) w) = [t]
    /\ t = newTaskOf input (idSource E (idCount w))
                     (clock E (dateCount w)) (clock E (S (dateCount w))).
Proof.
  intros Hread Hwrite. eexists.
  unfold outcome, after, createTask, mbind, M_bind, bind, generateId, newDate.
  rewrite getAllTasks_run. simpl storageLog. rewrite Hread.
  rewrite saveTasks_run. simpl storageLog. rewrite length_app, Nat.add_1_r, Hwrite.
  unfold mret, M_ret, ret. cbn [fst snd]. rewrite collection_after_save.
  now repeat split.
Qed.

Lemma createTask_read_rejected_witness :
  List.map title (collection Sample.oneTask) = ["Buy milk"]
  /\ exists t : Task,
       outcome (createTask Sample.thirdCallFails Sample.blankTitle) Sample.oneTask
       = Returned t
       /\ collection (after (createTask Sample.thirdCallFails Sample.blankTitle)
                            Sample.oneTask) = [t].
Proof.
  split; [reflexivity|].
  destruct (createTask_read_rejected Sample.thirdCallFails Sample.blankTitle
              Sample.oneTask eq_refl eq_refl) as (t & H1 & H2 & _).
  exists t. split; [exact H1|exact H2].
Defined.

(** ** Subscribing *)

Lemma world_eq (a b : World) :
  tasksItem a = tasksItem b -> tagsItem a = tagsItem b -> listeners a = listeners b ->
  invoked a = invoked b -> console a = console b -> storageLog a = storageLog b ->
  dateCount a = dateCount b -> idCount a = idCount b -> a = b.
Proof. destruct a, b; simpl; intros; now subst. Qed.

(** A listener is in the Set once however often it subscribes: after
    [subscribe l], a save that AsyncStorage accepts calls [l] once, and a
    second [subscribe l] changes nothing; after [unsubscribe l] the save does
    not call [l], and the other listeners are called as before. *)
Theorem subscription_counts (E : Env) (l : Listener) (ts : list Task) (w : World) :
  rejects E (length (storageLog w)) = false ->
  let subscribed := after (subscribe l) w in
  let unsubscribed := after (unsubscribe l) w in
  after (subscribe l) subscribed = subscribed
  /\ count_occ Nat.eq_dec
       (invokedSince subscribed (after (saveTasks E ts) subscribed)) l = 1
  /\ count_occ Nat.eq_dec
       (invokedSince unsubscribed (after (saveTasks E ts) unsubscribed)) l = 0
  /\ (forall l', l' <> l ->
        count_occ Nat.eq_dec
          (invokedSince unsubscribed (after (saveTasks E ts) unsubscribed)) l'
        = count_occ Nat.eq_dec (invokedSince w (after (saveTasks E ts) w)) l').
Proof.
  intros Hwrite subscribed unsubscribed.
  assert (Hsince : forall v, storageLog v = storageLog w ->
            invokedSince v (after (saveTasks E ts) v) = elements (listeners v)).
  { intros v Hv. unfold after, invokedSince. rewrite saveTasks_run, Hv, Hwrite.
    simpl. apply drop_app_length. }
  rewrite !Hsince by reflexivity.
  assert (Hsub : listeners subscribed = {[ l ]} ∪ listeners w) by reflexivity.
  assert (Hun : listeners unsubscribed = listeners w ∖ {[ l ]}) by reflexivity.
  split; [|split; [|split]].
  - apply world_eq; try reflexivity.
    change (listeners (after (subscribe l) subscribed))
      with ({[ l ]} ∪ listeners subscribed).
    rewrite Hsub, (assoc_L (∪)), union_idemp_L. reflexivity.
  - rewrite once_each, Hsub, bool_decide_eq_true_2; [reflexivity|].
    apply elem_of_union_l, elem_of_singleton. reflexivity.
  - rewrite once_each, Hun, bool_decide_eq_false_2; [reflexivity|].
    rewrite elem_of_difference, elem_of_singleton. tauto.
  - intros l' Hl'. rewrite !once_each, Hun.
    apply (f_equal (fun b : bool => if b then 1 else 0)).
    apply bool_decide_ext. rewrite elem_of_difference, elem_of_singleton. tauto.
Qed.

Lemma subscription_counts_witness :
  count_occ Nat.eq_dec
    (invokedSince (after (subscribe 9) Sample.watched)
       (after (saveTasks Sample.ticking []) (after (subscribe 9) Sample.watched))) 9 = 1
  /\ count_occ Nat.eq_dec
       (invokedSince (after (unsubscribe 4) Sample.watched)
          (after (saveTasks Sample.ticking []) (after (unsubscribe 4) Sample.watched))) 4
     = 0.
Proof.
  destruct (subscription_counts Sample.ticking 9 [] Sample.watched eq_refl)
    as (_ & H1 & _).
  destruct (subscription_counts Sample.ticking 4 [] Sample.watched eq_refl)
    as (_ & _ & H2 & _).
  split; [exact H1|exact H2].
Defined.

(** ** Validation *)

Lemma falsy_trim (s : string) : JsString.truthy s = false -> JsString.trim s = EmptyString.
Proof. destruct s; [reflexivity|discriminate]. Qed.

Lemma truthy_length (s : string) : JsString.truthy s = negb (Nat.eqb (String.length s) 0).
Proof. now destruct s. Qed.

(** The messages of [validateTaskInput], by the lengths alone: the tests on
    the truthiness of the title and of the description decide nothing that
    the lengths do not. *)
Lemma validateTaskInput_by_length (input : CreateTaskInput) :
  validateTaskInput input
  = ((if Nat.eqb (String.length (JsString.trim (in_title input))) 0
      then ["Task title is required"] else [])
     ++ (if Nat.ltb 100 (String.length (JsString.trim (in_title input)))
         then ["Task title must be 100 characters or less"] else [])
     ++ match in_description input with
        | Some d => if Nat.ltb 500 (String.length (JsString.trim d))
                    then ["Task description must be 500 characters or less"] else []
        | None => []
        end)%list.
Proof.
  unfold validateTaskInput.
  assert (Htitle : JsString.truthy (in_title input) = false ->
                   String.length (JsString.trim (in_title input)) = 0)
    by (intros Hf; now rewrite (falsy_trim _ Hf)).
  assert (Hdesc : forall d, JsString.truthy d = false ->
                            String.length (JsString.trim d) = 0)
    by (intros d Hf; now rewrite (falsy_trim _ Hf)).
  destruct (JsString.truthy (in_title input)).
  - simpl negb. simpl orb. simpl andb.
    destruct (Nat.eqb _ 0), (Nat.ltb 100 _); simpl;
      destruct (in_description input) as [d|]; try reflexivity;
      (destruct (JsString.truthy d) eqn:Hd; simpl;
       [now destruct (Nat.ltb 500 _)|now rewrite (Hdesc d Hd)]).
  - rewrite (Htitle eq_refl). simpl.
    destruct (in_description input) as [d|]; try reflexivity.
    destruct (JsString.truthy d) eqn:Hd; simpl;
      [now destruct (Nat.ltb 500 _)|now rewrite (Hdesc d Hd)].
Qed.

(** [validateTaskInput] accepts an input, that is, returns no message,
    exactly when the trimmed title has between 1 and 100 code units and the
    trimmed description, when there is one, has at most 500. The messages
    'Task title is required' and 'Task title must be 100 characters or less'
    never come together. *)
Theorem validateTaskInput_accepts (input : CreateTaskInput) :
  (validateTaskInput input = [] <->
   1 <= String.length (JsString.trim (in_title input)) <= 100
   /\ forall d, in_description input = Some d ->
                String.length (JsString.trim d) <= 500)
  /\ ~ (In "Task title is required" (validateTaskInput input)
        /\ In "Task title must be 100 characters or less" (validateTaskInput input)).
Proof.
  rewrite validateTaskInput_by_length.
  set (n := String.length (JsString.trim (in_title input))).
  destruct (Nat.eqb_spec n 0) as [Hz|Hz];
    destruct (Nat.ltb_spec 100 n) as [Hl|Hl]; try lia.
  - split.
    + split; [discriminate|]. intros [Hn _]. lia.
    + intros [_ Hlong]. simpl in Hlong.
      destruct (in_description input) as [d|]; [destruct (Nat.ltb 500 _)|];
        simpl in Hlong; intuition discriminate.
  - split.
    + split; [discriminate|]. intros [Hn _]. lia.
    + intros [Hreq _]. simpl in Hreq.
      destruct (in_description input) as [d|]; [destruct (Nat.ltb 500 _)|];
        simpl in Hreq; intuition discriminate.
  - split.
    + simpl. destruct (in_description input) as [d|].
      * destruct (Nat.ltb_spec 500 (String.length (JsString.trim d))) as [Hd|Hd].
        -- split; [discriminate|]. intros [_ Hdesc]. specialize (Hdesc d eq_refl). lia.
        -- split; [|reflexivity]. intros _. split; [lia|].
           intros d' Hd'. now injection Hd' as <-.
      * split; [|reflexivity]. intros _. split; [lia|]. discriminate.
    + intros [Hreq _]. simpl in Hreq.
      destruct (in_description input) as [d|]; [destruct (Nat.ltb 500 _)|];
        simpl in Hreq; intuition discriminate.
Qed.

(** ** The two ways to clear *)

(** [clearAll], which the settings sheet calls, leaves the state that
    [clearAllTasks] leaves and returns when it returns; when AsyncStorage
    rejects the removal, both leave the stored document and call no
    listener, [clearAllTasks] throwing the storage error and [clearAll] an
    error of its own, 'Failed to clear tasks'. *)
Theorem clearAll_like_clearAllTasks (E : Env) (w : World) :
  after (clearAll E) w = after (clearAllTasks E) w
  /\ (rejects E (length (storageLog w)) = false ->
      outcome (clearAll E) w = Returned tt
      /\ outcome (clearAllTasks E) w = Returned tt
      /\ collection (after (clearAll E) w) = [])
  /\ (rejects E (length (storageLog w)) = true ->
      outcome (clearAll E) w = Thrown "Failed to clear tasks"
      /\ outcome (clearAllTasks E) w = Thrown "AsyncStorage error"
      /\ tasksItem (after (clearAll E) w) = tasksItem w
      /\ invoked (after (clearAll E) w) = invoked w).
Proof.
  unfold outcome, after. rewrite clearAllTasks_run.
  unfold clearAll, tryCatch, mbind, M_bind, bind, removeTasksItem, storageCall.
  destruct (rejects E (length (storageLog w))); simpl.
  - split; [reflexivity|]. split; [discriminate|]. intros _. now repeat split.
  - rewrite emitChange_run. simpl.
    split; [reflexivity|]. split; [|discriminate]. intros _. now repeat split.
Qed.

(** ** Ids stay distinct *)

Module IdFacts.
Import Replay.

Lemma mergeAt_ids (x : string) (u : TaskUpdates) (now : Date) (ts : list Task) :
  u_id u = None -> List.map id (mergeAt x u now ts) = List.map id ts.
Proof.
  intros Hu. induction ts as [|t ts IH]; simpl; [reflexivity|].
  destruct (String.eqb (id t) x); simpl; [now rewrite Hu|now rewrite IH].
Qed.

Lemma mergeAt_members (x : string) (u : TaskUpdates) (now : Date) (ts : list Task) (t : Task) :
  u_id u = None -> In t (mergeAt x u now ts) -> exists t0, In t0 ts /\ id t0 = id t.
Proof.
  intros Hu. induction ts as [|t1 ts IH]; simpl; [intros []|].
  destruct (String.eqb (id t1) x); simpl.
  - intros [<-|Hin]; [exists t1; simpl; rewrite Hu; auto|exists t; auto].
  - intros [<-|Hin]; [exists t1; auto|].
    destruct (IH Hin) as (t0 & Hin0 & Hid). exists t0. auto.
Qed.

Lemma NoDup_map_filter {A B} (f : A -> B) (p : A -> bool) (xs : list A) :
  List.NoDup (List.map f xs) -> List.NoDup (List.map f (List.filter p xs)).
Proof.
  induction xs as [|x xs IH]; simpl; intros H; [constructor|].
  apply List.NoDup_cons_iff in H as [Hx Hrest].
  destruct (p x); simpl; [|now apply IH].
  constructor; [|now apply IH].
  intros Hin. apply Hx. apply in_map_iff in Hin as (y & Hy & Hin).
  apply filter_In in Hin as [Hin _]. rewrite <- Hy. now apply in_map.
Qed.

Lemma step_keeps_ids (E : Env) (m : Model) (op : Op) :
  generatesUniqueIds E -> mentionsNoId op ->
  idsInOrder E (m_tasks m) (m_ids m) ->
  idsInOrder E (m_tasks (step E m op)) (m_ids (step E m op)).
Proof.
  intros Huniq Hop [Hnd Hissued]. destruct op as [input|x u|x]; simpl in *.
  - split.
    + rewrite map_app. simpl. apply NoDup_ListNoDup, NoDup_app.
      split; [now apply NoDup_ListNoDup|].
      split; [|apply NoDup_ListNoDup; repeat constructor; intros []].
      intros y Hy Hy'. apply list_elem_of_In in Hy, Hy'. destruct Hy' as [<-|[]].
      apply in_map_iff in Hy as (t & Hid & Ht).
      destruct (Hissued t Ht) as (k & Hk & Hidk).
      assert (k = m_ids m) by (apply Huniq; congruence). lia.
    + intros t Ht. apply in_app_or in Ht as [Ht|[<-|[]]].
      * destruct (Hissued t Ht) as (k & Hk & Hidk). exists k. split; [lia|exact Hidk].
      * exists (m_ids m). split; [lia|reflexivity].
  - destruct (located x (m_tasks m)); simpl; [|now split].
    split; [now rewrite mergeAt_ids|].
    intros t Ht. destruct (mergeAt_members _ _ _ _ _ Hop Ht) as (t0 & Hin & Hid).
    rewrite <- Hid. now apply Hissued.
  - rewrite ReplayFacts.removeId_filter. split; [now apply NoDup_map_filter|].
    intros t Ht. apply filter_In in Ht as [Ht _]. now apply Hissued.
Qed.

Lemma steps_keep_ids (E : Env) (ops : list Op) (m : Model) :
  generatesUniqueIds E -> List.Forall mentionsNoId ops ->
  idsInOrder E (m_tasks m) (m_ids m) ->
  idsInOrder E (m_tasks (fold_left (step E) ops m)) (m_ids (fold_left (step E) ops m)).
Proof.
  intros Huniq Hops. revert m. induction Hops as [|op ops Hop Hops IH]; intros m Hm.
  - exact Hm.
  - simpl. apply IH. now apply step_keeps_ids.
Qed.

End IdFacts.

(** With a generator that never hands out the same id twice, over a storage
    that accepts its calls: when the ids of the stored tasks are pairwise
    distinct and come from the generator, they are so again after any
    sequence of [createTask], [updateTask] and [deleteTask] calls whose
    updates mention no [id]. *)
Theorem ids_stay_distinct (E : Env) (ops : list Replay.Op) (w : World) :
  reliable E ->
  generatesUniqueIds E ->
  List.Forall mentionsNoId ops ->
  idsInOrder E (collection w) (idCount w) ->
  idsInOrder E (collection (after (Replay.runOps E ops) w))
             (idCount (after (Replay.runOps E ops) w)).
Proof.
  intros HE Huniq Hops Hw.
  assert (Hm : models (Replay.mkModel (collection w) (idCount w) (dateCount w)) w)
    by now repeat split.
  destruct (ReplayFacts.steps_simulated E HE ops _ w Hm) as (_ & Hc & Hi & _).
  rewrite Hc, Hi. now apply IdFacts.steps_keep_ids.
Qed.

Lemma sample_ids_unique : generatesUniqueIds Sample.ticking.
Proof.
  intros i j Hij. simpl in Hij. unfold Sample.idOf in Hij.
  injection Hij as Hij. now apply (inj pretty).
Qed.

Lemma ids_stay_distinct_witness :
  List.NoDup
    (List.map id
       (collection
          (after (Replay.runOps Sample.ticking
                    [Replay.Create Sample.buyMilk; Replay.Delete "t0";
                     Replay.Create Sample.buyMilk; Replay.Create Sample.blankTitle])
                 Sample.oneTask))).
Proof.
  assert (HE : reliable Sample.ticking) by (intros k; reflexivity).
  assert (Hops : List.Forall mentionsNoId
                   [Replay.Create Sample.buyMilk; Replay.Delete "t0";
                    Replay.Create Sample.buyMilk; Replay.Create Sample.blankTitle])
    by (repeat constructor).
  assert (Hw : idsInOrder Sample.ticking (collection Sample.oneTask)
                          (idCount Sample.oneTask)).
  { split.
    - repeat constructor. intros [].
    - intros t [<-|[]]. exists 0. split; [repeat constructor|reflexivity]. }
  exact (proj1 (ids_stay_distinct Sample.ticking _ Sample.oneTask HE sample_ids_unique
                  Hops Hw)).
Defined.

(** * More of the tag registry *)

Section MoreTagRuns.

Variable E : Env.
Hypothesis HE : reliable E.

Lemma updateTag_missing (x : string) (u : TagUpdates) (w : World) :
  findIndex (tagHasId x) (registry w) = None ->
  updateTag E x u w = (Returned None, logged (GetItem TAGS_STORAGE_KEY) w).
Proof.
  intros Hf. unfold updateTag, mbind, M_bind, bind.
  rewrite (getAllTags_reliable E HE). now rewrite Hf.
Qed.

Lemma updateTag_found (x : string) (u : TagUpdates) (w : World) (i : nat) (tag : Tag) :
  findIndex (tagHasId x) (registry w) = Some i ->
  registry w !! i = Some tag ->
  updateTag E x u w =
  (Returned (Some (mergeTag tag u)),
   set_tagsItem (Some (<[i := mergeTag tag u]> (registry w)))
     (logged (SetItem TAGS_STORAGE_KEY) (logged (GetItem TAGS_STORAGE_KEY) w))).
Proof.
  intros Hf Hl. unfold updateTag, mbind, M_bind, bind.
  rewrite (getAllTags_reliable E HE). rewrite Hf, Hl.
  now rewrite (saveTags_reliable E HE).
Qed.

Lemma deleteTag_reliable (x : string) (w : World) :
  let kept := List.filter (fun tag => negb (tagHasId x tag)) (registry w) in
  deleteTag E x w =
  if Nat.eqb (length kept) (length (registry w))
  then (Returned false, logged (GetItem TAGS_STORAGE_KEY) w)
  else (Returned true,
        set_tagsItem (Some kept)
          (logged (SetItem TAGS_STORAGE_KEY) (logged (GetItem TAGS_STORAGE_KEY) w))).
Proof.
  intros kept. unfold deleteTag, mbind, M_bind, bind.
  rewrite (getAllTags_reliable E HE). fold kept.
  destruct (Nat.eqb (length kept) (length (registry w))); [reflexivity|].
  now rewrite (saveTags_reliable E HE).
Qed.

End MoreTagRuns.

Lemma find_app {A} (p : A -> bool) (xs ys : list A) :
  List.find p (xs ++ ys)
  = match List.find p xs with Some x => Some x | None => List.find p ys end.
Proof.
  induction xs as [|x xs IH]; simpl; [reflexivity|]. now destruct (p x).
Qed.

(** ** Asking for the same tag again *)

(** Over a storage that accepts its calls: once [createOrGetTag name] has
    returned a tag, asking again under a name that is the same once trimmed
    and put in lower case returns that very tag and writes nothing. *)
Theorem createOrGetTag_again (E : Env) (w : World) (name name' : string) :
  reliable E ->
  JsString.toLowerCase (JsString.trim name') = JsString.toLowerCase (JsString.trim name) ->
  let w1 := after (createOrGetTag E name) w in
  outcome (createOrGetTag E name') w1 = outcome (createOrGetTag E name) w
  /\ tagsItem (after (createOrGetTag E name') w1) = tagsItem w1
  /\ callsSince w1 (after (createOrGetTag E name') w1) = [GetItem TAGS_STORAGE_KEY].
Proof.
  intros HE Hsame w1.
  assert (Hpred : sameTagName name' = sameTagName name).
  { unfold sameTagName. now rewrite Hsame. }
  assert (Hold : forall v tag, List.find (sameTagName name) (registry v) = Some tag ->
            outcome (createOrGetTag E name') v = Returned tag
            /\ tagsItem (after (createOrGetTag E name') v) = tagsItem v
            /\ callsSince v (after (createOrGetTag E name') v) = [GetItem TAGS_STORAGE_KEY]).
  { intros v tag Hfind. rewrite <- Hpred in Hfind. unfold outcome, after, callsSince.
    rewrite (createOrGetTag_existing E HE name' v tag Hfind). cbn [fst snd].
    repeat split. simpl. apply drop_app_length. }
  destruct (List.find (sameTagName name) (registry w)) as [tag|] eqn:Hfind.
  - assert (Hw1 : registry w1 = registry w).
    { unfold w1, after. now rewrite (createOrGetTag_existing E HE name w tag Hfind). }
    assert (Hout : outcome (createOrGetTag E name) w = Returned tag).
    { unfold outcome. now rewrite (createOrGetTag_existing E HE name w tag Hfind). }
    rewrite Hout. apply Hold. now rewrite Hw1.
  - pose proof (createOrGetTag_new E HE name w Hfind) as Hrun. simpl in Hrun.
    assert (Hw1 : registry w1
                  = (registry w ++ [mkTag (idSource E (idCount w)) (JsString.trim name)
                                          (getNextColor (registry w))])%list).
    { unfold w1, after. now rewrite Hrun. }
    assert (Hout : outcome (createOrGetTag E name) w
                   = Returned (mkTag (idSource E (idCount w)) (JsString.trim name)
                                     (getNextColor (registry w)))).
    { unfold outcome. now rewrite Hrun. }
    rewrite Hout. apply Hold. rewrite Hw1, find_app, Hfind. simpl.
    unfold sameTagName at 1. simpl. now rewrite String.eqb_refl.
Qed.

Lemma createOrGetTag_again_witness :
  outcome (createOrGetTag Sample.ticking "  SHOPPING")
          (after (createOrGetTag Sample.ticking "Shopping ") TagSample.threeTags)
  = outcome (createOrGetTag Sample.ticking "Shopping ") TagSample.threeTags.
Proof.
  assert (HE : reliable Sample.ticking) by (intros k; reflexivity).
  exact (proj1 (createOrGetTag_again Sample.ticking TagSample.threeTags
                  "Shopping " "  SHOPPING" HE eq_refl)).
Defined.

(** ** What the registry keeps *)

Lemma palette_distinct : List.NoDup TAG_COLORS.
Proof.
  unfold TAG_COLORS.
  repeat (constructor; [simpl; intuition discriminate|]). constructor.
Qed.

(** A registry of fewer than twelve tags leaves a palette color unused. *)
Lemma few_tags_free_color (reg : list Tag) :
  length reg < 12 ->
  exists c, In c TAG_COLORS /\ ~ In c (List.map tag_color reg).
Proof.
  intros Hlen.
  destruct (List.filter
              (fun c => negb (if in_dec string_dec c (List.map tag_color reg)
                              then true else false)) TAG_COLORS)
    as [|c rest] eqn:Hf.
  - exfalso.
    assert (Hincl : incl TAG_COLORS (List.map tag_color reg)).
    { intros c Hc. destruct (in_dec string_dec c (List.map tag_color reg)) as [Hin|Hout] eqn:Hdec;
        [exact Hin|].
      assert (Hin : In c []); [|destruct Hin].
      rewrite <- Hf. apply filter_In. split; [exact Hc|]. now rewrite Hdec. }
    apply (NoDup_incl_length palette_distinct) in Hincl.
    rewrite length_map in Hincl. simpl in Hincl. lia.
  - apply filter_head in Hf as [Hin Hp]. exists c. split; [exact Hin|].
    now destruct (in_dec string_dec c (List.map tag_color reg)).
Qed.

(** Over a storage that accepts its calls, [createOrGetTag] keeps the
    registry free of two tags with the same name up to letter case, and, as
    long as the registry holds fewer than twelve tags, free of two tags with
    the same color. It never removes or changes a tag that is there. *)
Theorem registry_stays_distinct (E : Env) (w : World) (name : string) :
  reliable E ->
  let reg := registry w in
  let reg' := registry (after (createOrGetTag E name) w) in
  (exists added, reg' = (reg ++ added)%list /\ length added <= 1)
  /\ (List.NoDup (List.map lowerName reg) -> List.NoDup (List.map lowerName reg'))
  /\ (List.NoDup (List.map tag_color reg) -> length reg < 12 ->
      List.NoDup (List.map tag_color reg')).
Proof.
  intros HE reg reg'. unfold reg', after.
  destruct (List.find (sameTagName name) reg) as [tag|] eqn:Hfind.
  - rewrite (createOrGetTag_existing E HE name w tag Hfind). cbn [snd].
    change (registry (logged (GetItem TAGS_STORAGE_KEY) w)) with reg.
    split; [exists []; rewrite app_nil_r; split; [reflexivity|simpl; lia]|].
    split; intros; assumption.
  - pose proof (createOrGetTag_new E HE name w Hfind) as Hrun. simpl in Hrun.
    set (t := mkTag (idSource E (idCount w)) (JsString.trim name) (getNextColor reg)).
    assert (Hreg : registry (createOrGetTag E name w).2 = (reg ++ [t])%list)
      by (rewrite Hrun; reflexivity).
    rewrite Hreg. clear Hrun Hreg.
    split; [exists [t]; split; [reflexivity|simpl; lia]|].
    split.
    + intros Hnd. rewrite List.map_app. simpl.
      apply NoDup_ListNoDup, NoDup_app. split; [now apply NoDup_ListNoDup|].
      split; [|apply NoDup_ListNoDup; repeat constructor; intros []].
      intros y Hy Hy'. apply list_elem_of_In in Hy, Hy'. destruct Hy' as [<-|[]].
      apply in_map_iff in Hy as (tag & Hname & Hin).
      pose proof (find_none _ _ Hfind tag Hin) as Hno.
      unfold sameTagName in Hno. unfold lowerName in Hname. simpl in Hname.
      rewrite Hname, String.eqb_refl in Hno. discriminate.
    + intros Hnd Hlen. rewrite List.map_app. simpl.
      destruct (getNextColor_unused reg (few_tags_free_color reg Hlen)) as [_ Hnew].
      apply NoDup_ListNoDup, NoDup_app. split; [now apply NoDup_ListNoDup|].
      split; [|apply NoDup_ListNoDup; repeat constructor; intros []].
      intros y Hy Hy'. apply list_elem_of_In in Hy, Hy'. destruct Hy' as [<-|[]].
      now apply Hnew.
Qed.

Lemma registry_stays_distinct_witness :
  List.NoDup (List.map lowerName
                (registry (after (createOrGetTag Sample.ticking "Chores")
                                 TagSample.threeTags)))
  /\ List.NoDup (List.map tag_color
                   (registry (after (createOrGetTag Sample.ticking "Chores")
                                    TagSample.threeTags))).
Proof.
  assert (HE : reliable Sample.ticking) by (intros k; reflexivity).
  destruct (registry_stays_distinct Sample.ticking TagSample.threeTags "Chores" HE)
    as (_ & Hnames & Hcolors).
  split.
  - apply Hnames. vm_compute.
    repeat (constructor; [simpl; intuition discriminate|]). constructor.
  - apply Hcolors.
    + vm_compute. repeat (constructor; [simpl; intuition discriminate|]). constructor.
    + vm_compute. repeat constructor.
Defined.

(** ** Updating and deleting a tag *)

Lemma tagHasId_true (x : string) (tag : Tag) : tagHasId x tag = true <-> tag_id tag = x.
Proof. unfold tagHasId. apply String.eqb_eq. Qed.

Lemma tag_absent_findIndex (x : string) (reg : list Tag) :
  ~ In x (List.map tag_id reg) <-> findIndex (tagHasId x) reg = None.
Proof.
  rewrite findIndex_None, in_map_iff. split.
  - intros H tag Hin. destruct (tagHasId x tag) eqn:Hx; [|reflexivity].
    exfalso. apply H. exists tag. split; [now apply tagHasId_true|exact Hin].
  - intros H (tag & Hid & Hin). apply H in Hin. apply tagHasId_true in Hid. congruence.
Qed.

(** Over a storage that accepts its calls: [updateTag] of an id that no tag
    has returns [null] and writes nothing; of an id that a tag has, it
    returns and persists the first such tag with the mentioned fields
    replaced, its id being kept, every other position of the registry
    holding the tag it held. It does not look at the other tags: the new
    name may be the name of another tag. *)
Theorem updateTag_frame (E : Env) (w : World) (x : string) (u : TagUpdates) :
  reliable E ->
  (~ In x (List.map tag_id (registry w)) ->
     outcome (updateTag E x u) w = Returned None
     /\ tagsItem (after (updateTag E x u) w) = tagsItem w
     /\ callsSince w (after (updateTag E x u) w) = [GetItem TAGS_STORAGE_KEY])
  /\ (In x (List.map tag_id (registry w)) ->
      exists (i : nat) (tag : Tag),
        findIndex (tagHasId x) (registry w) = Some i
        /\ registry w !! i = Some tag
        /\ outcome (updateTag E x u) w = Returned (Some (mergeTag tag u))
        /\ registry (after (updateTag E x u) w) = <[i := mergeTag tag u]> (registry w)
        /\ tag_id (mergeTag tag u) = x
        /\ takes (tu_name u) (tag_name tag) (tag_name (mergeTag tag u))
        /\ takes (tu_color u) (tag_color tag) (tag_color (mergeTag tag u))
        /\ length (registry (after (updateTag E x u) w)) = length (registry w)).
Proof.
  intros HE. unfold outcome, after, callsSince. split.
  - intros Hout. apply tag_absent_findIndex in Hout.
    rewrite (updateTag_missing E HE x u w Hout). cbn [fst snd].
    repeat split. simpl. apply drop_app_length.
  - intros Hin. destruct (findIndex (tagHasId x) (registry w)) as [i|] eqn:Hf.
    + destruct (findIndex_Some _ _ _ Hf) as (tag & Hl & Hp & _).
      exists i, tag. rewrite (updateTag_found E HE x u w i tag Hf Hl). cbn [fst snd].
      split; [reflexivity|]. split; [exact Hl|]. split; [reflexivity|].
      split; [reflexivity|]. split; [now apply tagHasId_true|].
      split; [unfold takes; simpl; now destruct (tu_name u)|].
      split; [unfold takes; simpl; now destruct (tu_color u)|].
      change (registry (set_tagsItem (Some ?r) ?v)) with r. apply length_insert.
    + apply tag_absent_findIndex in Hf. contradiction.
Qed.

Lemma updateTag_frame_witness :
  exists (i : nat) (tag : Tag),
    registry TagSample.threeTags !! i = Some tag
    /\ outcome (updateTag Sample.ticking "t1" (mkTagUpdates (Some "Office") None))
               TagSample.threeTags
       = Returned (Some (mergeTag tag (mkTagUpdates (Some "Office") None)))
    /\ tag_name (mergeTag tag (mkTagUpdates (Some "Office") None)) = "Office"
    /\ tag_color (mergeTag tag (mkTagUpdates (Some "Office") None)) = tag_color tag.
Proof.
  assert (HE : reliable Sample.ticking) by (intros k; reflexivity).
  destruct (updateTag_frame Sample.ticking TagSample.threeTags "t1"
              (mkTagUpdates (Some "Office") None) HE) as [_ Hfound].
  destruct Hfound as (i & tag & _ & Hl & Hout & _ & _ & Hname & Hcolor & _).
  { vm_compute. tauto. }
  exists i, tag. split; [exact Hl|]. split; [exact Hout|].
  split; [exact Hname|exact Hcolor].
Defined.

(** Over a storage that accepts its calls: [deleteTag] of an id that no tag
    has returns [false] and writes nothing; of an id that a tag has, it
    returns [true] and the registry afterwards is the old one without the
    tags of that id. *)
Theorem deleteTag_semantics (E : Env) (w : World) (x : string) :
  reliable E ->
  (~ In x (List.map tag_id (registry w)) ->
     outcome (deleteTag E x) w = Returned false
     /\ tagsItem (after (deleteTag E x) w) = tagsItem w)
  /\ (In x (List.map tag_id (registry w)) ->
      outcome (deleteTag E x) w = Returned true
      /\ registry (after (deleteTag E x) w)
         = List.filter (fun tag => negb (tagHasId x tag)) (registry w)
      /\ ~ In x (List.map tag_id (registry (after (deleteTag E x) w)))).
Proof.
  intros HE. unfold outcome, after.
  pose proof (deleteTag_reliable E HE x w) as Hrun. simpl in Hrun. split; intros Hx.
  - assert (Hall : List.filter (fun tag => negb (tagHasId x tag)) (registry w)
                   = registry w).
    { apply filter_all. intros tag Hin. apply tag_absent_findIndex in Hx.
      rewrite findIndex_None in Hx. now rewrite (Hx tag Hin). }
    rewrite Hall, Nat.eqb_refl in Hrun. rewrite Hrun. now split.
  - assert (Hlen : length (List.filter (fun tag => negb (tagHasId x tag)) (registry w))
                   <> length (registry w)).
    { intros Hlen. rewrite filter_same_length in Hlen.
      apply in_map_iff in Hx as (tag & Hid & Hin). specialize (Hlen tag Hin).
      apply tagHasId_true in Hid. rewrite Hid in Hlen. discriminate. }
    apply Nat.eqb_neq in Hlen. rewrite Hlen in Hrun. rewrite Hrun. cbn [fst snd].
    split; [reflexivity|]. split; [reflexivity|].
    change (registry (set_tagsItem (Some ?r) ?v)) with r.
    rewrite in_map_iff. intros (tag & Hid & Hin).
    apply filter_In in Hin as [_ Hin]. apply tagHasId_true in Hid.
    rewrite Hid in Hin. discriminate.
Qed.

Lemma deleteTag_semantics_witness :
  outcome (deleteTag Sample.ticking "t1") TagSample.threeTags = Returned true
  /\ outcome (deleteTag Sample.ticking "t9") TagSample.threeTags = Returned false.
Proof.
  assert (HE : reliable Sample.ticking) by (intros k; reflexivity).
  destruct (deleteTag_semantics Sample.ticking TagSample.threeTags "t1" HE) as [_ H1].
  destruct (deleteTag_semantics Sample.ticking TagSample.threeTags "t9" HE) as [H2 _].
  split.
  - apply H1. vm_compute. tauto.
  - apply H2. vm_compute. intros [H|[H|[H|[]]]]; discriminate.
Defined.

(** ** Validating a tag name *)

(** [validateTagName] accepts a name exactly when the trimmed name has
    between 1 and 20 code units, each a letter a-z or A-Z, a digit, or white
    space (of any kind, not spaces alone). A name of white space only gets
    two messages: that a name is required, and that it holds a character
    that is not allowed. *)
Theorem validateTagName_accepts (name : string) :
  (validateTagName name = [] <->
   1 <= String.length (JsString.trim name) <= 20
   /\ allTagNameUnits (JsString.trim name) = true)
  /\ (JsString.truthy name = true -> JsString.allWhiteSpace name = true ->
      validateTagName name
      = ["Tag name is required";
         "Tag name can only contain letters, numbers, and spaces"]).
Proof.
  unfold validateTagName, tagNamePattern. split.
  - destruct (JsString.truthy name) eqn:Ht.
    + rewrite (truthy_length (JsString.trim name)). simpl negb. simpl orb. simpl andb.
      set (n := String.length (JsString.trim name)).
      destruct (Nat.eqb_spec n 0) as [Hz|Hz]; simpl.
      { split; [|intros [Hn _]; lia].
        destruct (Nat.ltb 20 n), (allTagNameUnits (JsString.trim name)); discriminate. }
      destruct (Nat.ltb_spec 20 n) as [Hl|Hl]; simpl.
      { split; [|intros [Hn _]; lia].
        destruct (allTagNameUnits (JsString.trim name)); discriminate. }
      destruct (allTagNameUnits (JsString.trim name)); simpl.
      * split; [intros _; split; [lia|reflexivity]|reflexivity].
      * split; [discriminate|]. intros [_ Hu]. discriminate.
    + rewrite (falsy_trim _ Ht). simpl. split; [discriminate|]. intros [Hn _]. lia.
  - intros Ht Hblank. rewrite Ht, (TrimFacts.trim_blank _ Hblank). reflexivity.
Qed.

Lemma validateTagName_accepts_witness :
  validateTagName (String (ascii_of_nat 9) " ")
  = ["Tag name is required"; "Tag name can only contain letters, numbers, and spaces"].
Proof.
  exact (proj2 (validateTagName_accepts (String (ascii_of_nat 9) " ")) eq_refl eq_refl).
Defined.

(** * The hook *)

(** ** A call of the store that throws has changed nothing *)

Section Throws.

Variable E : Env.

Lemma saveTasks_thrown (ts : list Task) (w : World) (e : string) :
  outcome (saveTasks E ts) w = Thrown e -> untouched w (after (saveTasks E ts) w).
Proof.
  unfold outcome, after. rewrite saveTasks_run.
  destruct (rejects E _); simpl; [now split|discriminate].
Qed.

Lemma getAllTasks_shape (w : World) :
  exists ts w1, getAllTasks E w = (Returned ts, w1) /\ untouched w w1.
Proof.
  rewrite getAllTasks_run. destruct (rejects E _); eexists _, _; now repeat split.
Qed.

Lemma createTask_thrown (input : CreateTaskInput) (w : World) (e : string) :
  outcome (createTask E input) w = Thrown e -> untouched w (after (createTask E input) w).
Proof.
  unfold outcome, after, createTask, mbind, M_bind, bind, generateId, newDate.
  set (w0 := set_dateCount _ (set_dateCount _ (set_idCount _ w))).
  destruct (getAllTasks_shape w0) as (ts & w1 & Hget & Hi & Hv). rewrite Hget.
  change (tasksItem w0) with (tasksItem w) in Hi.
  change (invoked w0) with (invoked w) in Hv.
  set (t := mkTask _ _ _ _ _ _ _ _).
  pose proof (saveTasks_thrown (ts ++ [t]) w1) as Hs. unfold outcome, after in Hs.
  destruct (saveTasks E (ts ++ [t]) w1) as [[[]|e1] w2]; simpl in *; [discriminate|].
  intros _. destruct (Hs e1 eq_refl) as [Hi2 Hv2]. split; simpl; [now rewrite Hi2|now rewrite Hv2].
Qed.

Lemma updateTask_thrown (x : string) (u : TaskUpdates) (w : World) (e : string) :
  outcome (updateTask E x u) w = Thrown e -> untouched w (after (updateTask E x u) w).
Proof.
  unfold outcome, after, updateTask, mbind, M_bind, bind, newDate.
  destruct (getAllTasks_shape w) as (ts & w1 & Hget & Hi & Hv). rewrite Hget.
  destruct (findIndex (hasId x) ts) as [i|]; [|discriminate].
  destruct (ts !! i) as [t|]; [|discriminate].
  set (ts' := <[i := _]> ts). set (w1' := set_dateCount _ w1).
  pose proof (saveTasks_thrown ts' w1') as Hs. unfold outcome, after in Hs.
  destruct (saveTasks E ts' w1') as [[[]|e1] w2]; simpl in *; [discriminate|].
  intros _. destruct (Hs e1 eq_refl) as [Hi2 Hv2].
  change (tasksItem w1') with (tasksItem w1) in Hi2.
  change (invoked w1') with (invoked w1) in Hv2.
  split; simpl; [now rewrite Hi2|now rewrite Hv2].
Qed.

Lemma toggleTaskCompletion_thrown (x : string) (w : World) (e : string) :
  outcome (toggleTaskCompletion E x) w = Thrown e ->
  untouched w (after (toggleTaskCompletion E x) w).
Proof.
  unfold outcome, after, toggleTaskCompletion, mbind, M_bind, bind.
  destruct (getAllTasks_shape w) as (ts & w1 & Hget & Hi & Hv). rewrite Hget.
  destruct (List.find (hasId x) ts) as [t|]; [|discriminate].
  intros H. destruct (updateTask_thrown x _ w1 e H) as [Hi2 Hv2].
  unfold after in Hi2, Hv2. split; simpl; [now rewrite Hi2|now rewrite Hv2].
Qed.

Lemma deleteTask_thrown (x : string) (w : World) (e : string) :
  outcome (deleteTask E x) w = Thrown e -> untouched w (after (deleteTask E x) w).
Proof.
  unfold outcome, after, deleteTask, mbind, M_bind, bind.
  destruct (getAllTasks_shape w) as (ts & w1 & Hget & Hi & Hv). rewrite Hget.
  destruct (Nat.eqb _ _); [discriminate|].
  set (kept := List.filter _ ts).
  pose proof (saveTasks_thrown kept w1) as Hs. unfold outcome, after in Hs.
  destruct (saveTasks E kept w1) as [[[]|e1] w2]; simpl in *; [discriminate|].
  intros _. destruct (Hs e1 eq_refl) as [Hi2 Hv2]. split; simpl; [now rewrite Hi2|now rewrite Hv2].
Qed.

Lemma clearAllTasks_thrown (w : World) (e : string) :
  outcome (clearAllTasks E) w = Thrown e -> untouched w (after (clearAllTasks E) w).
Proof.
  unfold outcome, after. rewrite clearAllTasks_run.
  destruct (rejects E _); simpl; [now split|discriminate].
Qed.

End Throws.

(** ** The handlers *)

(** Whatever AsyncStorage does: when a handler of the hook ends with an
    error message, nothing has changed. The local list of tasks is the one
    before the call, the stored document is untouched and no listener was
    called. *)
Theorem hook_error_changes_nothing (E : Env) (op : HookOp) (h : HookState) (w : World)
        (msg : string) :
  h_error (runHook E op h w).1 = Some msg ->
  h_tasks (runHook E op h w).1 = h_tasks h
  /\ untouched w (runHook E op h w).2.
Proof.
  destruct op as [|input|x u|x|x|]; simpl.
  - unfold Hook.loadTasks.
    destruct (getAllTasks_shape E w) as (ts & w1 & Hget & Hun). rewrite Hget. discriminate.
  - unfold Hook.addTask. destruct (validateTaskInput input) as [|first rest]; simpl.
    + pose proof (createTask_thrown E input w) as Hthrown. unfold outcome, after in Hthrown.
      destruct (createTask E input w) as [[t|e] w']; simpl in *; [discriminate|].
      intros _. split; [reflexivity|]. now apply (Hthrown e).
    + intros _. now repeat split.
  - unfold Hook.updateTask.
    pose proof (updateTask_thrown E x u w) as Hthrown. unfold outcome, after in Hthrown.
    destruct (updateTask E x u w) as [[[t|]|e] w']; simpl in *; try discriminate.
    intros _. split; [reflexivity|]. now apply (Hthrown e).
  - unfold Hook.toggleTask.
    pose proof (toggleTaskCompletion_thrown E x w) as Hthrown.
    unfold outcome, after in Hthrown.
    destruct (toggleTaskCompletion E x w) as [[[t|]|e] w']; simpl in *; try discriminate.
    intros _. split; [reflexivity|]. now apply (Hthrown e).
  - unfold Hook.deleteTask.
    pose proof (deleteTask_thrown E x w) as Hthrown. unfold outcome, after in Hthrown.
    destruct (deleteTask E x w) as [[[|]|e] w']; simpl in *; try discriminate.
    intros _. split; [reflexivity|]. now apply (Hthrown e).
  - unfold Hook.clearAllTasks.
    pose proof (clearAllTasks_thrown E w) as Hthrown. unfold outcome, after in Hthrown.
    destruct (clearAllTasks E w) as [[[]|e] w']; simpl in *; try discriminate.
    intros _. split; [reflexivity|]. now apply (Hthrown e).
Qed.

Lemma hook_error_changes_nothing_witness :
  let h := setTasks (collection Sample.oneTask) mountedHook in
  let result := runHook Sample.fourthCallFails (DoDelete "t0") h Sample.oneTask in
  h_error result.1 = Some "AsyncStorage error"
  /\ h_tasks result.1 = h_tasks h
  /\ untouched Sample.oneTask result.2.
Proof.
  intros h result. split; [reflexivity|].
  apply (hook_error_changes_nothing Sample.fourthCallFails (DoDelete "t0") h
           Sample.oneTask "AsyncStorage error").
  reflexivity.
Defined.

(** ** Adding through the hook *)

(** [addTask] of the hook lets no invalid input reach the store: when
    [validateTaskInput] has a message, nothing at all happens to the store
    (no AsyncStorage call, no id nor clock reading taken), the local list
    stays and the first message becomes the error. Otherwise, over a storage
    that accepts its calls, the new task is appended to the stored
    collection and put in front of the local list, and its title has
    between 1 and 100 code units, without white space at its ends. *)
Theorem addTask_gate (E : Env) (input : CreateTaskInput) (h : HookState) (w : World) :
  (validateTaskInput input <> [] ->
     (Hook.addTask E input h w).2 = w
     /\ h_tasks (Hook.addTask E input h w).1 = h_tasks h
     /\ h_error (Hook.addTask E input h w).1 = head (validateTaskInput input))
  /\ (validateTaskInput input = [] -> reliable E ->
      exists t : Task,
        collection (Hook.addTask E input h w).2 = (collection w ++ [t])%list
        /\ h_tasks (Hook.addTask E input h w).1 = t :: h_tasks h
        /\ h_error (Hook.addTask E input h w).1 = None
        /\ title t = JsString.trim (in_title input)
        /\ 1 <= String.length (title t) <= 100
        /\ JsString.startsWithWhiteSpace (title t) = false
        /\ JsString.endsWithWhiteSpace (title t) = false).
Proof.
  unfold Hook.addTask. split.
  - intros Hbad. destruct (validateTaskInput input) as [|first rest]; [contradiction|].
    now repeat split.
  - intros Hok HE. pose proof (proj1 (validateTaskInput_accepts input)) as Hacc.
    apply Hacc in Hok as Hlen. destruct Hlen as [Hlen _]. rewrite Hok.
    pose proof (createTask_reliable E HE input w) as Hrun. simpl in Hrun. rewrite Hrun.
    eexists. cbn [fst snd]. rewrite collection_after_save.
    split; [reflexivity|]. split; [reflexivity|]. split; [reflexivity|].
    split; [reflexivity|]. split; [exact Hlen|].
    destruct (TrimFacts.trim_spec (in_title input)) as (a & b & _ & _ & _ & Hs & He).
    split; assumption.
Qed.

Lemma addTask_gate_witness :
  h_error (Hook.addTask Sample.ticking Sample.blankTitle mountedHook Sample.oneTask).1
  = Some "Task title is required"
  /\ (Hook.addTask Sample.ticking Sample.blankTitle mountedHook Sample.oneTask).2
     = Sample.oneTask
  /\ exists t : Task,
       h_tasks (Hook.addTask Sample.ticking Sample.buyMilk mountedHook Sample.oneTask).1
       = [t]
       /\ title t = "Buy milk".
Proof.
  assert (HE : reliable Sample.ticking) by (intros k; reflexivity).
  destruct (addTask_gate Sample.ticking Sample.blankTitle mountedHook Sample.oneTask)
    as [Hbad _].
  destruct (addTask_gate Sample.ticking Sample.buyMilk mountedHook Sample.oneTask)
    as [_ Hgood].
  destruct Hbad as (H1 & _ & H2); [discriminate|].
  destruct (Hgood eq_refl HE) as (t & _ & H3 & _ & H4 & _).
  split; [exact H2|]. split; [exact H1|]. exists t. split; [exact H3|exact H4].
Defined.

(** ** The local list and the stored collection *)

Lemma replaceById_absent (x : string) (t' : Task) (ts : list Task) :
  ~ In x (List.map id ts) -> Hook.replaceById x t' ts = ts.
Proof.
  induction ts as [|a ts IH]; simpl; intros Hout; [reflexivity|].
  destruct (hasId x a) eqn:Ha.
  - exfalso. apply Hout. left. now apply hasId_true.
  - f_equal. apply IH. intros Hin. apply Hout. now right.
Qed.

Lemma replaceById_insert (x : string) (t' : Task) (ts : list Task) (i : nat) :
  List.NoDup (List.map id ts) ->
  findIndex (hasId x) ts = Some i ->
  Hook.replaceById x t' ts = <[i := t']> ts.
Proof.
  revert i. induction ts as [|a ts IH]; simpl; intros i Hnd Hi; [discriminate|].
  apply List.NoDup_cons_iff in Hnd as [Ha Hnd].
  destruct (hasId x a) eqn:Hx.
  - injection Hi as <-. simpl. f_equal. apply replaceById_absent.
    apply hasId_true in Hx. now rewrite <- Hx.
  - destruct (findIndex (hasId x) ts) as [k|]; simpl in Hi; [|discriminate].
    injection Hi as <-. simpl. f_equal. now apply IH.
Qed.

Lemma toggleTaskCompletion_missing (E : Env) (x : string) (w : World) :
  reliable E ->
  findIndex (hasId x) (collection w) = None ->
  toggleTaskCompletion E x w = (Returned None, logged (GetItem TASKS_STORAGE_KEY) w).
Proof.
  intros HE Hf. unfold toggleTaskCompletion, mbind, M_bind, bind.
  rewrite (getAllTasks_reliable E HE). apply find_findIndex in Hf. now rewrite Hf.
Qed.

(** Over a storage that accepts its calls, and while the ids of the stored
    tasks are pairwise distinct: if the local list of the hook holds the
    stored tasks, in whatever order, it does so again after any handler, so
    the change the handler makes to the local list is the change the store
    has made; after [loadTasks] the local list is the stored collection
    itself. *)
Theorem hook_mirror_agrees (E : Env) (op : HookOp) (h : HookState) (w : World) :
  reliable E ->
  List.NoDup (List.map id (collection w)) ->
  Permutation (h_tasks h) (collection w) ->
  Permutation (h_tasks (runHook E op h w).1) (collection (runHook E op h w).2)
  /\ (op = DoLoad -> h_tasks (runHook E op h w).1 = collection w
                     /\ h_loading (runHook E op h w).1 = false).
Proof.
  intros HE Hnd Hperm. split; [|intros ->; simpl; unfold Hook.loadTasks;
    rewrite (getAllTasks_reliable E HE); now split].
  destruct op as [|input|x u|x|x|]; simpl.
  - unfold Hook.loadTasks. rewrite (getAllTasks_reliable E HE). reflexivity.
  - unfold Hook.addTask. destruct (validateTaskInput input); [|exact Hperm].
    pose proof (createTask_reliable E HE input w) as Hrun. simpl in Hrun. rewrite Hrun.
    cbn [fst snd]. rewrite collection_after_save. simpl h_tasks.
    rewrite <- Permutation_cons_append. now constructor.
  - unfold Hook.updateTask.
    destruct (findIndex (hasId x) (collection w)) as [i|] eqn:Hf.
    + destruct (findIndex_Some _ _ _ Hf) as (t & Ht & _).
      pose proof (updateTask_found E HE x u w i t Hf Ht) as Hrun. simpl in Hrun.
      rewrite Hrun. cbn [fst snd]. rewrite collection_after_save. simpl h_tasks.
      rewrite <- (replaceById_insert x _ _ i Hnd Hf).
      unfold Hook.replaceById. now apply Permutation_map.
    + rewrite (updateTask_missing E HE x u w Hf). exact Hperm.
  - unfold Hook.toggleTask.
    destruct (findIndex (hasId x) (collection w)) as [i|] eqn:Hf.
    + destruct (findIndex_Some _ _ _ Hf) as (t & Ht & _).
      pose proof (toggleTaskCompletion_found E HE x w i t Hf Ht) as Hrun. simpl in Hrun.
      rewrite Hrun. cbn [fst snd]. rewrite collection_after_save. simpl h_tasks.
      rewrite <- (replaceById_insert x _ _ i Hnd Hf).
      unfold Hook.replaceById. now apply Permutation_map.
    + rewrite (toggleTaskCompletion_missing E x w HE Hf). exact Hperm.
  - unfold Hook.deleteTask.
    pose proof (deleteTask_reliable E HE x w) as Hrun. simpl in Hrun. rewrite Hrun.
    destruct (Nat.eqb _ _); [exact Hperm|].
    cbn [fst snd]. rewrite collection_after_save. simpl h_tasks.
    now apply ViewOrder.filter_perm.
  - unfold Hook.clearAllTasks. rewrite clearAllTasks_run, HE. reflexivity.
Qed.

Lemma hook_mirror_agrees_witness :
  let h := setTasks (collection Sample.oneTask) mountedHook in
  Permutation (h_tasks (runHook Sample.ticking (DoAdd Sample.buyMilk) h Sample.oneTask).1)
              (collection (runHook Sample.ticking (DoAdd Sample.buyMilk) h Sample.oneTask).2).
Proof.
  intros h.
  assert (HE : reliable Sample.ticking) by (intros k; reflexivity).
  apply (hook_mirror_agrees Sample.ticking (DoAdd Sample.buyMilk) h Sample.oneTask HE).
  - repeat constructor. intros [].
  - reflexivity.
Defined.

(** * More of the derived view *)

Lemma NoDup_map_inj {A B} (f : A -> B) (xs : list A) (a b : A) :
  List.NoDup (List.map f xs) -> In a xs -> In b xs -> f a = f b -> a = b.
Proof.
  induction xs as [|x xs IH]; simpl; intros Hnd Ha Hb Hf; [destruct Ha|].
  apply List.NoDup_cons_iff in Hnd as [Hx Hnd].
  destruct Ha as [<-|Ha], Hb as [<-|Hb]; try reflexivity.
  - exfalso. apply Hx. rewrite Hf. now apply in_map.
  - exfalso. apply Hx. rewrite <- Hf. now apply in_map.
  - now apply IH.
Qed.

(** Two sorted lists with the same members are the same list when no two
    members tie. *)
Lemma sorted_unique {A} (R : A -> A -> Prop) (xs ys : list A) :
  StronglySorted R xs -> StronglySorted R ys -> Permutation xs ys ->
  (forall a b, In a xs -> In b xs -> R a b -> R b a -> a = b) ->
  xs = ys.
Proof.
  intros Hxs. revert ys. induction Hxs as [|a xs Hxs IH Ha]; intros ys Hys Hperm Hanti.
  - now apply Permutation_nil in Hperm.
  - destruct Hys as [|b ys Hys Hb].
    + apply Permutation_sym, Permutation_nil in Hperm. discriminate.
    + assert (Hab : a = b).
      { assert (Hina : In a (b :: ys)) by (apply (Permutation_in _ Hperm); now left).
        assert (Hinb : In b (a :: xs))
          by (apply (Permutation_in _ (Permutation_sym Hperm)); now left).
        destruct Hina as [->|Hina]; [reflexivity|].
        destruct Hinb as [->|Hinb]; [reflexivity|].
        rewrite List.Forall_forall in Ha, Hb.
        apply Hanti; [now left|now right|now apply Ha|now apply Hb]. }
      subst b. f_equal. apply IH; [exact Hys|now apply Permutation_cons_inv in Hperm|].
      intros c d Hc Hd. apply Hanti; now right.
Qed.

(** The visible sequence does not depend on the order in which the raw
    collection holds the tasks, as long as no two tasks were created at the
    same millisecond: the local list, which puts a new task in front, and the
    stored collection, which puts it at the end, show the same rows. *)
Theorem view_ignores_order (tasks tasks' : list Task) (f : TaskFilter) :
  Permutation tasks tasks' ->
  List.NoDup (List.map createdAt tasks) ->
  View.sortedFilteredTasks tasks f = View.sortedFilteredTasks tasks' f.
Proof.
  intros Hperm Hnd. unfold View.sortedFilteredTasks. rewrite !ViewFacts.sortBy_arrange.
  assert (Hkept : Permutation (View.filteredTasks tasks f) (View.filteredTasks tasks' f))
    by now apply ViewOrder.filter_perm.
  apply (sorted_unique ViewSpec.mayPrecede); try apply ViewOrder.arrange_sorted.
  - now rewrite !ViewOrder.arrange_perm.
  - intros a b Ha Hb Hab Hba.
    assert (Hin : forall t, In t (ViewSpec.arrange (View.filteredTasks tasks f)) ->
                            In t tasks).
    { intros t Ht. apply (Permutation_in _ (ViewOrder.arrange_perm _)) in Ht.
      now apply filter_In in Ht as [Ht _]. }
    apply (NoDup_map_inj createdAt tasks); [exact Hnd|now apply Hin|now apply Hin|].
    destruct Hab as [[Ha1 Hb1]|[Hc1 Hle1]], Hba as [[Hb2 Ha2]|[Hc2 Hle2]];
      try congruence; lia.
Qed.

Lemma view_ignores_order_witness :
  View.sortedFilteredTasks [ViewSample.taskA; ViewSample.taskB; ViewSample.taskC]
                           (mkFilter StatusAll (Some "a") None)
  = View.sortedFilteredTasks [ViewSample.taskC; ViewSample.taskB; ViewSample.taskA]
                             (mkFilter StatusAll (Some "a") None).
Proof.
  apply view_ignores_order.
  - eapply perm_trans; [apply perm_swap|].
    eapply perm_trans; [apply perm_skip, perm_swap|apply perm_swap].
  - repeat (constructor; [simpl; intuition discriminate|]). constructor.
Defined.

(** The three counts of the hook are the numbers of rows of the three tabs
    when nothing is searched for, and the active and completed counts add up
    to the total. *)
Theorem counts_match_rows (tasks : list Task) (tagIds : option (list string)) :
  length (View.sortedFilteredTasks tasks (mkFilter StatusAll None tagIds))
  = View.totalTasks tasks
  /\ length (View.sortedFilteredTasks tasks (mkFilter StatusActive None tagIds))
     = View.activeTasks tasks
  /\ length (View.sortedFilteredTasks tasks (mkFilter StatusCompleted None tagIds))
     = View.completedTasks tasks
  /\ View.activeTasks tasks + View.completedTasks tasks = View.totalTasks tasks.
Proof.
  assert (Hrows : forall st,
            length (View.sortedFilteredTasks tasks
                      (mkFilter (ViewSpec.toTaskStatus st) None tagIds))
            = length (List.filter (ViewSpec.matchesStatus st) tasks)).
  { intros st. unfold View.sortedFilteredTasks.
    rewrite ViewFacts.sortBy_arrange, (Permutation_length (ViewOrder.arrange_perm _)).
    rewrite ViewFacts.filteredTasks_split. simpl effectiveSearch.
    now rewrite (filter_all (ViewSpec.matchesSearch None)) by reflexivity. }
  pose proof (Permutation_length (ViewOrder.filter_partition_perm completed tasks)) as Hsum.
  rewrite length_app in Hsum.
  unfold View.activeTasks, View.completedTasks, View.totalTasks.
  pose proof (Hrows ViewSpec.All) as Hall.
  pose proof (Hrows ViewSpec.Active) as Hactive.
  pose proof (Hrows ViewSpec.Completed) as Hdone.
  simpl ViewSpec.toTaskStatus in *. unfold ViewSpec.matchesStatus in *.
  rewrite filter_all in Hall by reflexivity.
  change (List.filter (fun t => completed t) tasks) with (List.filter completed tasks)
    in Hdone.
  split; [exact Hall|]. split; [lia|]. split; [exact Hdone|lia].
Qed.

(** * The list of tasks and its tag filter *)

Module TaskListFacts.
Import TaskList.

Lemma mapSet_entries (k : string) (v : Tag) (entries : list (string * Tag))
      (k' : string) (v' : Tag) :
  In (k', v') (mapSet k v entries) ->
  (k' = k /\ v' = v) \/ In (k', v') entries.
Proof.
  induction entries as [|[k0 v0] rest IH]; simpl.
  - intros [H|[]]. injection H as <- <-. now left.
  - destruct (String.eqb_spec k0 k) as [->|Hne]; simpl.
    + intros [H|H]; [injection H as <- <-; now left|right; now right].
    + intros [H|H]; [right; now left|]. destruct (IH H) as [?|?]; [now left|right; now right].
Qed.

Lemma mapSet_keys (k : string) (v : Tag) (entries : list (string * Tag)) (k' : string) :
  In k' (List.map fst (mapSet k v entries)) <-> k' = k \/ In k' (List.map fst entries).
Proof.
  induction entries as [|[k0 v0] rest IH]; simpl.
  - intuition.
  - destruct (String.eqb_spec k0 k) as [->|Hne]; simpl; [intuition|].
    rewrite IH. intuition.
Qed.

Lemma mapSet_NoDup (k : string) (v : Tag) (entries : list (string * Tag)) :
  List.NoDup (List.map fst entries) -> List.NoDup (List.map fst (mapSet k v entries)).
Proof.
  induction entries as [|[k0 v0] rest IH]; simpl; intros Hnd.
  - repeat constructor. intros [].
  - apply List.NoDup_cons_iff in Hnd as [Hk0 Hnd].
    destruct (String.eqb_spec k0 k) as [->|Hne]; simpl.
    + now constructor.
    + constructor; [|now apply IH].
      rewrite mapSet_keys. intros [->|Hin]; [now apply Hne|now apply Hk0].
Qed.

Lemma filed_tag (seen : list Tag) (entries : list (string * Tag)) (tag : Tag) :
  filed seen entries ->
  filed (seen ++ [tag])
        (if JsString.truthy (tag_id tag) then mapSet (tag_id tag) tag entries else entries).
Proof.
  intros (Hnd & Hval & Hkeys).
  assert (Hseen : forall k, In k (List.map tag_id (seen ++ [tag]))
                            <-> In k (List.map tag_id seen) \/ k = tag_id tag).
  { intros k. rewrite List.map_app, in_app_iff. simpl. intuition. }
  destruct (tag_id tag) as [|c r] eqn:Hid; simpl.
  - split; [exact Hnd|]. split.
    + intros k v Hin. destruct (Hval k v Hin) as [? ?]. split; [assumption|].
      apply in_or_app. now left.
    + intros k. rewrite Hkeys, Hseen. intuition congruence.
  - split; [now apply mapSet_NoDup|]. split.
    + intros k v Hin. apply mapSet_entries in Hin as [[-> ->]|Hin].
      * split; [exact Hid|]. apply in_or_app. right. now left.
      * destruct (Hval k v Hin) as [? ?]. split; [assumption|]. apply in_or_app. now left.
    + intros k. rewrite mapSet_keys, Hkeys, Hseen. split.
      * intros [->|[Hk Hin]]; [split; [discriminate|now right]|split; [exact Hk|now left]].
      * intros [Hk [Hin| ->]]; [right; now split|now left].
Qed.

Lemma filed_tags (tgs seen : list Tag) (entries : list (string * Tag)) :
  filed seen entries ->
  filed (seen ++ tgs)
        (fold_left (fun tagMap tag =>
                      if JsString.truthy (tag_id tag) then mapSet (tag_id tag) tag tagMap
                      else tagMap) tgs entries).
Proof.
  revert seen entries. induction tgs as [|tag tgs IH]; intros seen entries H; simpl.
  - now rewrite app_nil_r.
  - replace (seen ++ tag :: tgs)%list with ((seen ++ [tag]) ++ tgs)%list
      by now rewrite <- app_assoc.
    apply IH. now apply filed_tag.
Qed.

Lemma filed_tasks (tasks : list Task) (seen : list Tag) (entries : list (string * Tag)) :
  filed seen entries ->
  filed (seen ++ concat (List.map tags tasks))
        (fold_left
           (fun tagMap task =>
              fold_left (fun tagMap tag =>
                           if JsString.truthy (tag_id tag)
                           then mapSet (tag_id tag) tag tagMap else tagMap)
                        (tags task) tagMap)
           tasks entries).
Proof.
  revert seen entries. induction tasks as [|task tasks IH]; intros seen entries H; simpl.
  - now rewrite app_nil_r.
  - rewrite app_assoc. apply IH. now apply filed_tags.
Qed.

End TaskListFacts.

(** The tag chips of the list: one chip for each tag id that is not the
    empty string and that some task carries, no id twice; each chip is a tag
    that some task carries, under its own id. *)
Theorem allTags_distinct (tasks : list Task) :
  List.NoDup (List.map tag_id (TaskList.allTags tasks))
  /\ (forall x, In x (List.map tag_id (TaskList.allTags tasks))
                <-> x <> EmptyString
                    /\ exists task tag, In task tasks /\ In tag (tags task)
                                        /\ tag_id tag = x)
  /\ (forall chip, In chip (TaskList.allTags tasks) ->
                   exists task, In task tasks /\ In chip (tags task)).
Proof.
  assert (Hstart : filed [] []).
  { split; [constructor|]. split; [intros k v []|].
    intros k. simpl. intuition. }
  pose proof (TaskListFacts.filed_tasks tasks [] [] Hstart) as (Hnd & Hval & Hkeys).
  simpl in Hnd, Hval, Hkeys. fold (TaskList.collectTags tasks) in Hnd, Hval, Hkeys.
  assert (Hids : List.map tag_id (TaskList.allTags tasks)
                 = List.map fst (TaskList.collectTags tasks)).
  { unfold TaskList.allTags. rewrite List.map_map. apply map_ext_in.
    intros [k v] Hin. simpl. now apply Hval. }
  assert (Hflat : forall tag, In tag (concat (List.map tags tasks))
                              <-> exists task, In task tasks /\ In tag (tags task)).
  { intros tag. rewrite in_concat. split.
    - intros (l & Hl & Htag). apply in_map_iff in Hl as (task & <- & Htask). now exists task.
    - intros (task & Htask & Htag). exists (tags task). split; [now apply in_map|exact Htag]. }
  rewrite Hids. split; [exact Hnd|]. split.
  - intros x. rewrite Hkeys, in_map_iff. split.
    + intros [Hx (tag & Hid & Hin)]. split; [exact Hx|].
      apply Hflat in Hin as (task & Htask & Htag). now exists task, tag.
    + intros [Hx (task & tag & Htask & Htag & Hid)]. split; [exact Hx|].
      exists tag. split; [exact Hid|]. apply Hflat. now exists task.
  - intros chip Hchip. unfold TaskList.allTags in Hchip.
    apply in_map_iff in Hchip as ([k v] & <- & Hin). simpl.
    apply Hflat. now apply (Hval k v).
Qed.

(** ** The tag filter *)

Lemma includesId_In (sel : list string) (x : string) :
  TaskList.includesId sel x = true <-> In x sel.
Proof.
  unfold TaskList.includesId. rewrite existsb_exists. split.
  - intros (y & Hy & Heq). apply String.eqb_eq in Heq. now subst.
  - intros Hin. exists x. split; [exact Hin|apply String.eqb_refl].
Qed.

Lemma toggle_members (x : string) (sel : list string) (y : string) :
  In y (TaskList.toggleTagFilter x sel)
  <-> (y <> x /\ In y sel) \/ (y = x /\ ~ In x sel).
Proof.
  unfold TaskList.toggleTagFilter.
  destruct (TaskList.includesId sel x) eqn:Hx.
  - apply includesId_In in Hx. rewrite filter_In, Bool.negb_true_iff, String.eqb_neq.
    intuition.
  - assert (Hout : ~ In x sel)
      by (intros Hin; apply includesId_In in Hin; congruence).
    rewrite in_app_iff. simpl. split.
    + intros [Hin|[<-|[]]]; [left; split; [congruence|exact Hin]|now right].
    + intros [[_ Hin]|[-> _]]; [now left|right; now left].
Qed.

(** Tapping a tag chip twice shows the rows that were shown before: the
    selection holds the same ids, and it is the very same list when the tag
    was not selected; a selection without a repeated id stays so. With no
    tag selected every task is shown; otherwise a task is shown exactly when
    one of its tags is selected, so a task without tags is hidden. *)
Theorem tag_filter_toggles (tasks : list Task) (sel : list string) (x : string) :
  TaskList.filteredTasks tasks (TaskList.toggleTagFilter x (TaskList.toggleTagFilter x sel))
  = TaskList.filteredTasks tasks sel
  /\ (~ In x sel ->
      TaskList.toggleTagFilter x (TaskList.toggleTagFilter x sel) = sel)
  /\ (List.NoDup sel -> List.NoDup (TaskList.toggleTagFilter x sel))
  /\ TaskList.filteredTasks tasks TaskList.clearAllFilters = tasks
  /\ (sel <> [] ->
      forall t, In t (TaskList.filteredTasks tasks sel)
                <-> In t tasks /\ exists tag, In tag (tags t) /\ In (tag_id tag) sel).
Proof.
  assert (Hsame : forall y, In y (TaskList.toggleTagFilter x (TaskList.toggleTagFilter x sel))
                            <-> In y sel).
  { intros y. rewrite !toggle_members.
    destruct (String.eqb_spec y x) as [->|Hne]; [|intuition].
    destruct (in_dec string_dec x sel); intuition. }
  assert (Hempty : forall l : list string, Nat.eqb (length l) 0 = true <-> l = [])
    by (intros [|? ?]; simpl; split; congruence).
  assert (Hback : ~ In x sel ->
            TaskList.toggleTagFilter x (TaskList.toggleTagFilter x sel) = sel).
  { intros Hout. unfold TaskList.toggleTagFilter at 2.
    replace (TaskList.includesId sel x) with false
      by (symmetry; apply Bool.not_true_is_false; now rewrite includesId_In).
    unfold TaskList.toggleTagFilter.
    replace (TaskList.includesId (sel ++ [x]) x) with true
      by (symmetry; apply includesId_In, in_or_app; right; now left).
    rewrite List.filter_app. simpl. rewrite String.eqb_refl. simpl. rewrite app_nil_r.
    apply filter_all. intros y Hy. apply Bool.negb_true_iff, String.eqb_neq. congruence. }
  split; [|split; [exact Hback|split; [|split]]].
  - destruct sel as [|s0 sel'] eqn:Hsel; [now rewrite Hback by (intros [])|].
    unfold TaskList.filteredTasks. rewrite <- Hsel in *.
    assert (Hne : Nat.eqb (length (TaskList.toggleTagFilter x
                                     (TaskList.toggleTagFilter x sel))) 0 = false).
    { apply Bool.not_true_is_false. rewrite Hempty. intros Hnil.
      assert (Hin : In s0 sel) by (rewrite Hsel; now left).
      apply Hsame in Hin. rewrite Hnil in Hin. destruct Hin. }
    rewrite Hne. replace (Nat.eqb (length sel) 0) with false by now rewrite Hsel.
    apply filter_ext. intros t.
    apply eq_true_iff_eq. rewrite !existsb_exists.
    split; intros (tag & Htag & Hin); exists tag; (split; [exact Htag|]);
      apply includesId_In; apply includesId_In in Hin; now apply Hsame.
  - intros Hnd. unfold TaskList.toggleTagFilter.
    destruct (TaskList.includesId sel x) eqn:Hx.
    + now apply List.NoDup_filter.
    + apply NoDup_ListNoDup, NoDup_app. split; [now apply NoDup_ListNoDup|].
      split; [|apply NoDup_ListNoDup; repeat constructor; intros []].
      intros y Hy Hy'. apply list_elem_of_In in Hy, Hy'. destruct Hy' as [<-|[]].
      apply includesId_In in Hy. congruence.
  - reflexivity.
  - intros Hsel t. unfold TaskList.filteredTasks.
    replace (Nat.eqb (length sel) 0) with false
      by (symmetry; apply Bool.not_true_is_false; now rewrite Hempty).
    rewrite filter_In, existsb_exists.
    split; intros [Ht (tag & Htag & Hin)]; (split; [exact Ht|]); exists tag;
      (split; [exact Htag|]); now apply includesId_In.
Qed.

(** * The forms *)

Module FormFacts.
Import JsString.




Lemma allWhiteSpace_app (a b : string) :
  allWhiteSpace (String.append a b) = allWhiteSpace a && allWhiteSpace b.
Proof.
  induction a as [|c a IH]; [reflexivity|].
  rewrite TrimFacts.append_cons. simpl. now rewrite IH, Bool.andb_assoc.
Qed.

Lemma trim_empty_iff (s : string) : trim s = EmptyString <-> allWhiteSpace s = true.
Proof.
  split; [|apply TrimFacts.trim_blank].
  intros Hz. destruct (TrimFacts.trim_spec s) as (a & b & Heq & Ha & Hb & _).
  rewrite Hz in Heq. rewrite Heq, allWhiteSpace_app. simpl.
  change (String.append EmptyString b) with b. now rewrite Ha, Hb.
Qed.

Lemma truthy_trim (s : string) : truthy (trim s) = negb (allWhiteSpace s).
Proof.
  destruct (allWhiteSpace s) eqn:Hs.
  - now rewrite (TrimFacts.trim_blank _ Hs).
  - destruct (trim s) eqn:Ht; [|reflexivity].
    apply trim_empty_iff in Ht. congruence.
Qed.

End FormFacts.


Lemma tag_names_kept (names : list string) :
  List.map tag_name (List.map Forms.tagOfName names) = names.
Proof. induction names as [|n ns IH]; simpl; [reflexivity|]. now rewrite IH. Qed.


(** ** The id that the forms give a tag *)

Module SlugFacts.
Import JsString Forms.

Lemma noWhiteSpace_app (a b : string) :
  noWhiteSpace (String.append a b) = noWhiteSpace a && noWhiteSpace b.
Proof.
  induction a as [|c a IH]; [reflexivity|].
  rewrite TrimFacts.append_cons. simpl. now rewrite IH, Bool.andb_assoc.
Qed.

Lemma split_clean (s : string) :
  List.Forall (fun piece => noWhiteSpace piece = true) (splitWhiteSpace s)
  /\ splitWhiteSpace s <> [].
Proof.
  induction s as [|c r [IH Hne]]; simpl.
  - split; [now repeat constructor|discriminate].
  - destruct (isWhiteSpace c) eqn:Hc.
    + destruct r as [|d r'].
      * split; [now repeat constructor|discriminate].
      * destruct (isWhiteSpace d); [now split|].
        split; [now constructor|discriminate].
    + destruct (splitWhiteSpace r) as [|piece more]; [contradiction|].
      apply Forall_cons_1 in IH as [Hp Hmore].
      split; [|discriminate]. constructor; [|exact Hmore]. simpl. now rewrite Hc, Hp.
Qed.

Lemma join_clean (pieces : list string) :
  List.Forall (fun piece => noWhiteSpace piece = true) pieces ->
  noWhiteSpace (joinDash pieces) = true.
Proof.
  induction 1 as [|piece more Hp Hmore IH]; [reflexivity|].
  destruct more as [|next more']; [exact Hp|].
  change (joinDash (piece :: next :: more'))
    with (String.append piece (String "-" (joinDash (next :: more')))).
  rewrite noWhiteSpace_app, Hp.
  change (noWhiteSpace (String "-" (joinDash (next :: more'))))
    with (negb (isWhiteSpace "-") && noWhiteSpace (joinDash (next :: more'))).
  now rewrite IH.
Qed.

Lemma split_single (s : string) : noWhiteSpace s = true -> splitWhiteSpace s = [s].
Proof.
  induction s as [|c r IH]; [reflexivity|]. simpl.
  destruct (isWhiteSpace c); simpl; [discriminate|].
  intros Hr. now rewrite (IH Hr).
Qed.

Lemma lowerUnit_white (c : ascii) : isWhiteSpace (lowerUnit c) = isWhiteSpace c.
Proof. destruct c as [[] [] [] [] [] [] [] []]; reflexivity. Qed.

Lemma lower_clean (s : string) : noWhiteSpace (toLowerCase s) = noWhiteSpace s.
Proof.
  induction s as [|c r IH]; [reflexivity|]. simpl. now rewrite lowerUnit_white, IH.
Qed.

End SlugFacts.

(** The id that the forms give a tag holds no white space, whatever the
    name; for a name without white space it is the name in lower case. The
    name itself is kept as typed, and the color is always the same. *)
Theorem tag_id_of_name (name : string) :
  noWhiteSpace (tag_id (Forms.tagOfName name)) = true
  /\ (noWhiteSpace name = true ->
      tag_id (Forms.tagOfName name) = JsString.toLowerCase name)
  /\ tag_name (Forms.tagOfName name) = name
  /\ tag_color (Forms.tagOfName name) = "#007AFF".
Proof.
  split; [|split; [|split; reflexivity]].
  - apply SlugFacts.join_clean, SlugFacts.split_clean.
  - intros Hclean. simpl.
    rewrite SlugFacts.split_single; [reflexivity|now rewrite SlugFacts.lower_clean].
Qed.

Lemma tag_id_of_name_witness :
  tag_id (Forms.tagOfName "Shopping") = "shopping"
  /\ tag_id (Forms.tagOfName " Home  Office ") = "-home-office-".
Proof.
  split; [|reflexivity].
  exact (proj1 (proj2 (tag_id_of_name "Shopping")) eq_refl).
Defined.

(** ** Saving an edit *)

Lemma merge_whole (t : Task) (u : TaskUpdates) (now1 now2 : Date) :
  mergeTask (mergeTask t u now1) (Forms.wholeTask (mergeTask t u now1)) now2
  = mergeTask t u now2.
Proof.
  unfold mergeTask, Forms.wholeTask; simpl. f_equal.
  now destruct (pick (u_description u) (description t)).
Qed.

(** Over a storage that accepts its calls: saving the edit form of a task
    that is stored writes the store twice, first from the form and then,
    through the hook, with the whole task that came back. The second write
    changes nothing but [updatedAt]: the stored task ends up as the form made
    it, with the clock reading of the second write, every listener having
    been called twice; the local list holds that task in the place of the
    tasks of that id. A form whose title is blank saves nothing. *)
Theorem edit_saves_twice (E : Env) (task stored : Task) (form : Forms.TaskForm)
        (h : HookState) (w : World) (i : nat) :
  reliable E ->
  findIndex (hasId (id task)) (collection w) = Some i ->
  collection w !! i = Some stored ->
  (JsString.allWhiteSpace (Forms.f_title form) = true ->
     saveEdit E task form h w = (h, w))
  /\ (JsString.allWhiteSpace (Forms.f_title form) = false ->
      exists t2 : Task,
        collection (saveEdit E task form h w).2 = <[i := t2]> (collection w)
        /\ h_tasks (saveEdit E task form h w).1
           = Hook.replaceById (id task) t2 (h_tasks h)
        /\ h_error (saveEdit E task form h w).1 = None
        /\ callsSince w (saveEdit E task form h w).2
           = [GetItem TASKS_STORAGE_KEY; SetItem TASKS_STORAGE_KEY;
              GetItem TASKS_STORAGE_KEY; SetItem TASKS_STORAGE_KEY]
        /\ invokedSince w (saveEdit E task form h w).2
           = (elements (listeners w) ++ elements (listeners w))%list
        /\ title t2 = JsString.trim (Forms.f_title form)
        /\ description t2 = Some (JsString.trim (Forms.f_description form))
        /\ dueDate t2 = Forms.f_dueDate form
        /\ List.map tag_name (tags t2) = Forms.f_tags form
        /\ id t2 = id task /\ completed t2 = completed stored
        /\ createdAt t2 = createdAt stored
        /\ updatedAt t2 = clock E (S (dateCount w))).
Proof.
  intros HE Hi Hstored. unfold saveEdit, Forms.editFormUpdates.
  rewrite FormFacts.truthy_trim, Bool.negb_involutive.
  split; intros Hblank; rewrite Hblank; [reflexivity|].
  set (u := mkUpdates None _ _ None _ _ None None).
  pose proof (updateTask_found E HE (id task) u w i stored Hi Hstored) as Hrun1.
  simpl in Hrun1. rewrite Hrun1.
  set (t1 := mergeTask stored u (clock E (dateCount w))) in *.
  set (w1 := notified E _) in *.
  assert (Hid1 : id t1 = id task).
  { destruct (findIndex_Some _ _ _ Hi) as (t & Ht & Hp & _).
    assert (t = stored) by congruence. subst t. now apply hasId_true in Hp. }
  assert (Hc1 : collection w1 = <[i := t1]> (collection w))
    by apply collection_after_save.
  assert (Hi1 : findIndex (hasId (id t1)) (collection w1) = Some i).
  { rewrite Hc1, Hid1. apply findIndex_insert; [exact Hi|].
    apply hasId_true. exact Hid1. }
  assert (Hl1 : collection w1 !! i = Some t1).
  { rewrite Hc1. apply list_lookup_insert_eq. now apply lookup_lt_Some with stored. }
  unfold Hook.updateTask.
  pose proof (updateTask_found E HE (id t1) (Forms.wholeTask t1) w1 i t1 Hi1 Hl1) as Hrun2.
  cbv zeta in Hrun2. rewrite Hrun2. clear Hrun2. unfold t1 at 1 2 3 4.
  rewrite !merge_whole. exists (mergeTask stored u (clock E (dateCount w1))).
  cbn [fst snd]. rewrite collection_after_save, Hc1, list_insert_insert_eq, Hid1.
  split; [reflexivity|]. split; [reflexivity|]. split; [reflexivity|].
  split; [unfold callsSince, w1; simpl; rewrite <- !app_assoc; apply drop_app_length|].
  split; [unfold invokedSince, w1; simpl; rewrite <- !app_assoc; apply drop_app_length|].
  split; [reflexivity|]. split; [reflexivity|]. split; [reflexivity|].
  split; [apply tag_names_kept|].
  split; [exact Hid1|]. split; [reflexivity|]. split; reflexivity.
Qed.

Lemma edit_saves_twice_witness :
  let form := Forms.mkForm " Buy oat milk " "" None ["Shopping"] in
  let result := saveEdit Sample.ticking ViewSample.milk form
                         (setTasks (collection Sample.oneTask) mountedHook)
                         Sample.oneTask in
  exists t2 : Task,
    collection result.2 = [t2]
    /\ h_tasks result.1 = [t2]
    /\ title t2 = "Buy oat milk"
    /\ updatedAt t2 = 1003%Z.
Proof.
  intros form result.
  assert (HE : reliable Sample.ticking) by (intros k; reflexivity).
  destruct (edit_saves_twice Sample.ticking ViewSample.milk ViewSample.milk form
              (setTasks (collection Sample.oneTask) mountedHook) Sample.oneTask 0
              HE eq_refl eq_refl) as [_ Hsave].
  destruct (Hsave eq_refl)
    as (t2 & H1 & H2 & _ & _ & _ & H3 & _ & _ & _ & _ & _ & _ & H4).
  exists t2. split; [exact H1|]. split; [exact H2|]. split; [exact H3|exact H4].
Defined.



(** * Notifications along a sequence of operations *)

Lemma notifiedPerWrite_refl (w : World) : notifiedPerWrite w w.
Proof. split; [reflexivity|]. exists []. simpl. now rewrite !app_nil_r. Qed.

Lemma notifiedPerWrite_trans (w1 w2 w3 : World) :
  notifiedPerWrite w1 w2 -> notifiedPerWrite w2 w3 -> notifiedPerWrite w1 w3.
Proof.
  intros (Hl & ca & Hca & Hia) (Hl' & cb & Hcb & Hib).
  split; [congruence|]. exists (ca ++ cb)%list. split.
  - now rewrite Hcb, Hca, app_assoc.
  - rewrite Hib, Hia, Hl, List.map_app, concat_app, app_assoc. reflexivity.
Qed.

Lemma read_only_step (w : World) :
  notifiedPerWrite w (logged (GetItem TASKS_STORAGE_KEY) w).
Proof.
  split; [reflexivity|]. exists [GetItem TASKS_STORAGE_KEY]. simpl.
  now rewrite app_nil_r.
Qed.

Lemma write_step (E : Env) (doc : option (list StoredTask)) (c : StorageCall) (w : World) :
  isWrite c = true ->
  notifiedPerWrite w (notified E (set_tasksItem doc (logged c w))).
Proof.
  intros Hc. split; [reflexivity|]. exists [c]. simpl. rewrite Hc.
  now rewrite app_nil_r.
Qed.

Lemma counters_step (w : World) (f : World -> World) :
  listeners (f w) = listeners w -> storageLog (f w) = storageLog w ->
  invoked (f w) = invoked w -> notifiedPerWrite w (f w).
Proof.
  intros Hl Hs Hi. split; [exact Hl|]. exists []. simpl.
  now rewrite Hs, Hi, !app_nil_r.
Qed.

Section NotifyRuns.

Variable E : Env.
Hypothesis HE : reliable E.

Lemma runOp_notifies (op : Replay.Op) (w : World) :
  notifiedPerWrite w (after (Replay.runOp E op) w).
Proof.
  unfold after. destruct op as [input|x u|x]; simpl Replay.runOp;
    unfold mbind, M_bind, bind.
  - pose proof (createTask_reliable E HE input w) as Hrun. simpl in Hrun. rewrite Hrun.
    unfold mret, M_ret, ret. cbn [snd].
    set (w0 := set_dateCount _ (set_idCount _ w)).
    apply (notifiedPerWrite_trans _ w0); [now apply (counters_step w (fun _ => w0))|].
    apply (notifiedPerWrite_trans _ (logged (GetItem TASKS_STORAGE_KEY) w0));
      [apply read_only_step|now apply write_step].
  - destruct (findIndex (hasId x) (collection w)) as [i|] eqn:Hf.
    + destruct (findIndex_Some _ _ _ Hf) as (t & Ht & _).
      pose proof (updateTask_found E HE x u w i t Hf Ht) as Hrun. simpl in Hrun.
      rewrite Hrun. unfold mret, M_ret, ret. cbn [snd].
      apply (notifiedPerWrite_trans _ (logged (GetItem TASKS_STORAGE_KEY) w));
        [apply read_only_step|].
      set (w1 := logged (GetItem TASKS_STORAGE_KEY) w).
      set (w2 := set_dateCount _ w1).
      apply (notifiedPerWrite_trans _ w2); [now apply (counters_step w1 (fun _ => w2))|].
      now apply write_step.
    + rewrite (updateTask_missing E HE x u w Hf). unfold mret, M_ret, ret. cbn [snd].
      apply read_only_step.
  - pose proof (deleteTask_reliable E HE x w) as Hrun. simpl in Hrun. rewrite Hrun.
    destruct (Nat.eqb _ _); unfold mret, M_ret, ret; cbn [snd].
    + apply read_only_step.
    + apply (notifiedPerWrite_trans _ (logged (GetItem TASKS_STORAGE_KEY) w));
        [apply read_only_step|now apply write_step].
Qed.

Lemma runOps_notifies (ops : list Replay.Op) (w : World) :
  notifiedPerWrite w (after (Replay.runOps E ops) w).
Proof.
  revert w. induction ops as [|op ops IH]; intros w.
  - apply notifiedPerWrite_refl.
  - pose proof (runOp_notifies op w) as Hop.
    destruct (ReplayFacts.step_simulated E HE op
                (Replay.mkModel (collection w) (idCount w) (dateCount w)) w) as [Hout _];
      [now repeat split|].
    specialize (IH (after (Replay.runOp E op) w)).
    unfold after, outcome, Replay.runOps in *. simpl forEach. unfold mbind, M_bind, bind.
    destruct (Replay.runOp E op w) as [[[]|e] w1]; simpl in *; [|discriminate].
    now apply (notifiedPerWrite_trans _ w1).
Qed.

End NotifyRuns.

Lemma count_occ_concat_const (l : Listener) (ls : list Listener) (calls : list StorageCall) :
  count_occ Nat.eq_dec
    (concat (List.map (fun c => if isWrite c then ls else []) calls)) l
  = count_occ Nat.eq_dec ls l * length (List.filter isWrite calls).
Proof.
  unfold Listener in *. induction calls as [|c calls IH]; [simpl; lia|].
  rewrite List.map_cons, concat_cons, count_occ_app, IH.
  simpl List.filter. destruct (isWrite c); simpl; lia.
Qed.

(** Over a storage that accepts its calls, along any sequence of
    [createTask], [updateTask] and [deleteTask] calls: a subscribed listener
    has been called exactly as many times as the store has written to
    AsyncStorage, and a listener that is not subscribed has not been called. *)
Theorem one_call_per_write (E : Env) (ops : list Replay.Op) (w : World) (l : Listener) :
  reliable E ->
  let w' := after (Replay.runOps E ops) w in
  count_occ Nat.eq_dec (invokedSince w w') l
  = if bool_decide (l ∈ listeners w)
    then length (List.filter isWrite (callsSince w w')) else 0.
Proof.
  intros HE w'. destruct (runOps_notifies E HE ops w) as (_ & calls & Hcalls & Hinv).
  fold w' in Hcalls, Hinv. unfold invokedSince, callsSince.
  rewrite Hcalls, Hinv, !drop_app_length, count_occ_concat_const, once_each.
  case_bool_decide; lia.
Qed.

Lemma one_call_per_write_witness :
  count_occ Nat.eq_dec
    (invokedSince Sample.watched
       (after (Replay.runOps Sample.ticking Sample.session) Sample.watched)) 7
  = 4.
Proof.
  assert (HE : reliable Sample.ticking) by (intros k; reflexivity).
  pose proof (one_call_per_write Sample.ticking Sample.session Sample.watched 7 HE) as H.
  cbv zeta in H. rewrite H. vm_compute. reflexivity.
Defined.
